(** * RBF interpolation: [rbf/interpolate.py]

    A shallow embedding of [_in_hull], [RBFInterpolant] and
    [NearestRBFInterpolant], followed by the properties their
    specification states about them.

    Layout of the embedding:
    - float64 values are kept abstract behind the class [Float64]; Rocq's
      primitive binary64 floats are one instance;
    - the modules the file imports but which are not part of it
      ([rbf.poly], [rbf.basis], [rbf.utils], [rbf.linalg], and the numpy /
      scipy routines for triangulation and dense solves) are the fields of
      the class [Collaborators];
    - Python objects live in a store: every array is a cell of a heap, an
      interpolant is a record of references and scalars, and the methods
      run in a state-and-exception monad that also logs the collaborator
      calls in the order in which they are made. *)

From Stdlib Require Import ZArith String Lia PrimFloat.
From stdpp Require Import base list gmap.

Local Open Scope string_scope.
Local Open Scope list_scope.
Local Open Scope Z_scope.

(** ** Exceptions *)

(** The exceptions an evaluation can end in.  [ValueError] is what the file
    itself raises (and what [range] raises on a zero step, and numpy on a
    reduction over nothing or a failed broadcast). *)
Inductive exn : Type :=
| ValueError (msg : string)
| IndexError (msg : string)            (* numpy, on an index out of bounds *)
| TypeError (msg : string)
| LinAlgError (msg : string)           (* np.linalg.solve, on a singular system *)
| ShapeMismatchError (label : string)  (* assert_shape, naming the argument *)
| OverflowError (msg : string)         (* numpy, on an int too large for its dtype *)
| CollaboratorError (msg : string).    (* any other failure of a collaborator *)

Definition result (A : Type) : Type := (exn + A)%type.

Definition msg_order_observations : string :=
  "The polynomial order is too high for the number of observations".
Definition msg_order_neighbors : string :=
  "The polynomial order is too high for the number of nearest neighbors".
Definition msg_sparse : string :=
  "SparseRBF instances are not supported".

(** The error classes of the specification, read off the exceptions of the
    source. *)
Definition InsufficientDataError (e : exn) : Prop :=
  e = ValueError msg_order_observations \/ e = ValueError msg_order_neighbors.

Definition ConfigurationError (e : exn) : Prop :=
  e = ValueError msg_sparse.

(** ** Python built-ins *)

(** [range(start, stop, step)] as the list it iterates over. *)
Definition py_range (start stop step : Z) : result (list Z) :=
  if step =? 0 then inl (ValueError "range() arg 3 must not be zero")
  else
    let n := if 0 <? step
             then (stop - start + step - 1) / step
             else (start - stop - step - 1) / (- step) in
    inr (map (fun i : nat => start + Z.of_nat i * step) (seq 0 (Z.to_nat n))).

(** A slice bound [i] of a sequence of length [n]: negative bounds count
    from the end, and every bound is clipped to [0, n]. *)
Definition slice_bound (n : Z) (dflt : Z) (i : option Z) : Z :=
  match i with
  | None => dflt
  | Some i => if i <? 0 then Z.max (i + n) 0 else Z.min i n
  end.

Definition slice_start {A} (l : list A) (start : option Z) : nat :=
  Z.to_nat (slice_bound (Z.of_nat (length l)) 0 start).

Definition slice_len {A} (l : list A) (start stop : option Z) : nat :=
  let n := Z.of_nat (length l) in
  Z.to_nat (slice_bound n n stop - slice_bound n 0 start).

(** [l[start:stop]] *)
Definition py_slice {A} (l : list A) (start stop : option Z) : list A :=
  take (slice_len l start stop) (drop (slice_start l start) l).

(** ** float64 *)

Class Float64 (F : Type) : Type := {
  F0 : F;                      (* 0.0 *)
  Fnan : F;                    (* np.nan *)
  Fadd : F -> F -> F;
  Fmul : F -> F -> F;
  Fle : F -> F -> bool;        (* a <= b, false when either is nan *)
  Fisnan : F -> bool
}.

#[global] Instance binary64 : Float64 float := {|
  F0 := PrimFloat.zero;
  Fnan := PrimFloat.nan;
  Fadd := PrimFloat.add;
  Fmul := PrimFloat.mul;
  Fle := PrimFloat.leb;
  Fisnan := PrimFloat.is_nan
|}.

(** ** Arrays *)

Section Arrays.
Context {F : Type} {FF : Float64 F}.

(** A float array of shape [(N, D)]: [N = length rows], [D = ncols]. *)
Record array2 : Type := Arr2 { ncols : nat; rows : list (list F) }.

Definition shape2 (a : array2) : list nat := [length (rows a); ncols a].
Definition shape1 {A} (v : list A) : list nat := [length v].

(** [a[start:stop]] along the first axis. *)
Definition slice2 (a : array2) (start stop : option Z) : array2 :=
  Arr2 (ncols a) (py_slice (rows a) start stop).

(** [np.zeros((n,), dtype=float)] *)
Definition np_zeros (n : nat) : list F := replicate n F0.

(** [np.full((n,), v)] *)
Definition np_full (n : nat) (v : F) : list F := replicate n v.

(** [v**2], elementwise *)
Definition np_square (v : list F) : list F := map (fun s => Fmul s s) v.

(** [(u * v).sum()] for two vectors *)
Definition sum_prod (u v : list F) : F :=
  foldr Fadd F0 (zip_with Fmul u v).

(** [A.dot(v)] for a matrix [A] given by its rows *)
Definition mat_dot (A : list (list F)) (v : list F) : list F :=
  map (fun row => sum_prod row v) A.

(** [u + v], elementwise *)
Definition vec_add (u v : list F) : list F := zip_with Fadd u v.

(** [K + scipy.sparse.diags(s)] *)
Definition add_diag (K : list (list F)) (s : list F) : list (list F) :=
  imap (fun i row =>
          imap (fun j e => if Nat.eqb i j
                           then match s !! i with Some si => Fadd e si | None => e end
                           else e) row) K.

(** The scalar reductions behind [np.min] and [np.max]: a nan operand
    wins, otherwise the comparison decides. *)
Definition np_minimum (a b : F) : F := if Fisnan a || Fle a b then a else b.
Definition np_maximum (a b : F) : F := if Fisnan a || Fle b a then a else b.

Definition np_reduce (op : F -> F -> F) (name : string) (v : list F) : result F :=
  match v with
  | [] => inl (ValueError (String.append "zero-size array to reduction operation "
                             (String.append name " which has no identity")))
  | x :: t => inr (foldl op x t)
  end.

(** [np.min(a)] and [np.max(a)] over all the entries of [a]. *)
Definition np_min (a : array2) : result F := np_reduce np_minimum "minimum" (concat (rows a)).
Definition np_max (a : array2) : result F := np_reduce np_maximum "maximum" (concat (rows a)).

(** [p[:, 0]] *)
Definition column0 (p : array2) : result (list F) :=
  match ncols p with
  | O => inl (IndexError "index 0 is out of bounds for axis 1 with size 0")
  | S _ => inr (map (fun pt => default F0 (head pt)) (rows p))
  end.

(** The value of [out] after [out[start:stop] = v]. *)
Definition setitem_slice (out : list F) (start stop : option Z) (v : list F)
  : result (list F) :=
  let a := slice_start out start in
  let n := slice_len out start stop in
  if Nat.eqb (length v) n then inr (take a out ++ v ++ drop (a + n) out)
  else match v with
       | [c] => inr (take a out ++ replicate n c ++ drop (a + n) out)
       | _ => inl (ValueError "could not broadcast input array")
       end.

(** The value of [out] after [out[mask] = c]. *)
Definition setitem_mask (out : list F) (mask : list bool) (c : F) : result (list F) :=
  if Nat.eqb (length mask) (length out)
  then inr (zip_with (fun (m : bool) e => if m then c else e) mask out)
  else inl (IndexError "boolean index did not match indexed array").

(** [a[idx]] for an integer index array [idx] of shape [(P, k)]: one row
    of picked entries for every row of [idx]. *)
Definition pick {A} (a : list A) (i : nat) : result A :=
  match a !! i with
  | Some v => inr v
  | None => inl (IndexError "index is out of bounds for axis 0")
  end.

Fixpoint mapE {A B} (f : A -> result B) (l : list A) : result (list B) :=
  match l with
  | [] => inr []
  | a :: t =>
      match f a with
      | inl e => inl e
      | inr b => match mapE f t with
                 | inl e => inl e
                 | inr bs => inr (b :: bs)
                 end
      end
  end.

Definition fancy_index {A} (a : list A) (idx : list (list nat)) : result (list (list A)) :=
  mapE (mapE (pick a)) idx.

(** [K[:, idx, idx]] for a stack [K] of matrices: from every matrix the
    entries at [(i, i)], [i] running over [idx]. *)
Definition getitem_diag (K : list (list (list F))) (idx : list nat)
  : result (list (list F)) :=
  mapE (fun Kt => mapE (fun i => match pick Kt i with
                                 | inl e => inl e
                                 | inr row => pick row i
                                 end) idx) K.

(** The value of [K] after [K[:, idx, idx] = vals]. *)
Definition setitem_diag (K : list (list (list F))) (idx : list nat)
    (vals : list (list F)) : list (list (list F)) :=
  imap (fun t Kt =>
          match vals !! t with
          | Some vt => foldl (fun m iv => alter (fun row => <[iv.1 := iv.2]> row) iv.1 m)
                             Kt (zip idx vt)
          | None => Kt
          end) K.

Fixpoint mapE2 {A B C} (f : A -> B -> result C) (l : list A) (m : list B)
  : result (list C) :=
  match l, m with
  | a :: t, b :: u =>
      match f a b with
      | inl e => inl e
      | inr c => match mapE2 f t u with
                 | inl e => inl e
                 | inr cs => inr (c :: cs)
                 end
      end
  | _, _ => inr []
  end.

(** [np.einsum('ijk->ikj', P)] on one matrix of the stack *)
Fixpoint transpose (ncol : nat) (m : list (list F)) : list (list F) :=
  match ncol with
  | O => []
  | S n => map (fun row => default F0 (head row)) m :: transpose n (map (drop 1) m)
  end.

(** One matrix of [np.concatenate((np.concatenate((K, P), axis=2),
    np.concatenate((Pt, Z), axis=2)), axis=1)] *)
Definition block_matrix (K P Pt Z : list (list F)) : list (list F) :=
  zip_with app K P ++ zip_with app Pt Z.

End Arrays.

Arguments array2 F : clear implicits.

(** ** Collaborators *)

(** The shape parameter [eps]: a float or a float array. *)
Inductive shape_param (F : Type) : Type :=
| EpsScalar (e : F)
| EpsArray (e : list F).
Arguments EpsScalar {F} e.
Arguments EpsArray {F} e.

(** The smoothing parameter [sigma], by the outcome of [np.isscalar]. *)
Inductive sigma_arg (F : Type) : Type :=
| SigmaScalar (s : F)
| SigmaArray (v : list F).
Arguments SigmaScalar {F} s.
Arguments SigmaArray {F} v.

(** What [rbf/interpolate.py] imports.  Every routine that numpy applies
    along the first axis is given by what it does to one row:
    - [rbf_row phi eps diff c x] is the row of [phi(x, c, eps=eps, diff=diff)]
      that belongs to the point [x];
    - [mvmonos_row pwr diff x] is the row of [mvmonos(x, pwr, diff=diff)]
      that belongs to [x];
    - [KDTree_query_check tree k] is the exception that [tree.query(x, k)]
      raises before it looks any point up, when the tree cannot supply
      [k] neighbours, and [None] when it answers;
    - [KDTree_query tree x k] is the row of neighbour indices that
      [tree.query(x, k)] then returns for [x];
    - [linalg_solve A b] is [np.linalg.solve] on one system of the stack,
      [None] when that system is singular;
    - [find_simplex tri x] is the entry of [tri.find_simplex(x)] for [x]. *)
Class Collaborators (F : Type) : Type := {
  RBF : Type;
  KDTree : Type;
  Delaunay : Type;
  get_rbf : string + RBF -> result RBF;
  is_SparseRBF : RBF -> bool;
  rbf_row : RBF -> shape_param F -> option (list nat) -> list (list F) -> list F -> list F;
  powers : Z -> nat -> list (list nat);
  mvmonos_row : list (list nat) -> option (list nat) -> list F -> list F;
  PartitionedSolver_solve :
    list (list F) -> list (list F) -> list F -> list F -> result (list F * list F);
  KDTree_build : array2 F -> KDTree;
  KDTree_query_check : KDTree -> Z -> option exn;
  KDTree_query : KDTree -> list F -> Z -> list nat;
  linalg_solve : list (list F) -> list F -> option (list F);
  Delaunay_build : array2 F -> result Delaunay;
  find_simplex : Delaunay -> list F -> Z
}.

(** The collaborator calls, as the log records them. *)
Inductive event : Set :=
| CallRBF
| CallPowers
| CallMvmonos
| CallPartitionedSolver
| CallKDTree
| CallQuery
| CallLinalgSolve
| CallDelaunay.

(** ** The store and the monad *)

(** A reference is the index of a cell in the heap. *)
Abbreviation loc := nat (only parsing).

(** What a reference can point to.  An array has a cell when an object
    keeps a reference to it or when the code writes into it; arrays that
    are only read (the target points [x], temporaries) are passed by
    value.  Allocation never reuses a reference, as in Python, where every
    array expression yields a new object. *)
Inductive cell (F : Type) : Type :=
| CVec (v : list F)
| CMat (a : array2 F)
| CTen (t : list (list (list F)))
| CPow (p : list (list nat)).
Arguments CVec {F} v.
Arguments CMat {F} a.
Arguments CTen {F} t.
Arguments CPow {F} p.

Record world (F O : Type) : Type := World {
  w_self : O;                  (* the attributes of [self] *)
  w_heap : list (cell F);      (* the arrays *)
  w_log : list event           (* the collaborator calls made so far *)
}.
Arguments World {F O} w_self w_heap w_log.
Arguments w_self {F O} w.
Arguments w_heap {F O} w.
Arguments w_log {F O} w.

Definition Py (F O A : Type) : Type := world F O -> world F O * result A.

Section Monad.
Context {F O : Type}.

Definition ret {A} (a : A) : Py F O A := fun w => (w, inr a).

Definition bind {A B} (m : Py F O A) (f : A -> Py F O B) : Py F O B :=
  fun w => match m w with
           | (w', inl e) => (w', inl e)
           | (w', inr a) => f a w'
           end.

Definition raise {A} (e : exn) : Py F O A := fun w => (w, inl e).

Definition lift {A} (r : result A) : Py F O A := fun w => (w, r).

Definition get_self : Py F O O := fun w => (w, inr (w_self w)).

Definition emit (ev : event) : Py F O unit :=
  fun w => (World (w_self w) (w_heap w) (w_log w ++ [ev]), inr tt).

Definition alloc (c : cell F) : Py F O loc :=
  fun w => (World (w_self w) (w_heap w ++ [c]) (w_log w), inr (length (w_heap w))).

(** Reading through a reference.  Python has no dangling references and
    the attributes keep the kind of array [__init__] gave them: the failing
    branches below are there to make the functions total, and are not taken
    from a world in which the object is [stored]. *)
Definition load (l : loc) : Py F O (cell F) :=
  fun w => match w_heap w !! l with
           | Some c => (w, inr c)
           | None => (w, inl (TypeError "dangling reference"))
           end.

Definition store (l : loc) (c : cell F) : Py F O unit :=
  fun w => (World (w_self w) (<[l := c]> (w_heap w)) (w_log w), inr tt).

Definition expect_vec (c : cell F) : Py F O (list F) :=
  match c with CVec v => ret v | _ => raise (TypeError "float vector expected") end.
Definition expect_mat (c : cell F) : Py F O (array2 F) :=
  match c with CMat a => ret a | _ => raise (TypeError "float matrix expected") end.
Definition expect_ten (c : cell F) : Py F O (list (list (list F))) :=
  match c with CTen t => ret t | _ => raise (TypeError "stack of matrices expected") end.
Definition expect_pow (c : cell F) : Py F O (list (list nat)) :=
  match c with CPow p => ret p | _ => raise (TypeError "exponent array expected") end.

Definition load_vec (l : loc) : Py F O (list F) := bind (load l) expect_vec.
Definition load_mat (l : loc) : Py F O (array2 F) := bind (load l) expect_mat.
Definition load_ten (l : loc) : Py F O (list (list (list F))) := bind (load l) expect_ten.
Definition load_pow (l : loc) : Py F O (list (list nat)) := bind (load l) expect_pow.

(** [for i in l: body(i)] *)
Fixpoint for_ (l : list Z) (body : Z -> Py F O unit) : Py F O unit :=
  match l with
  | [] => ret tt
  | i :: t => bind (body i) (fun _ => for_ t body)
  end.

End Monad.

Declare Scope py_scope.
Delimit Scope py_scope with py.
Notation "x <- m ;; k" := (bind m (fun x => k))
  (at level 20, m at level 99, k at level 200, only parsing) : py_scope.
Notation "m ;; k" := (bind m (fun _ => k))
  (at level 100, k at level 200, only parsing, right associativity) : py_scope.
Local Open Scope py_scope.

Section Calls.
Context {F O : Type} {FF : Float64 F} {CC : Collaborators F}.

(** Modelled from the spec: [rbf.utils.assert_shape] is not among the
    sources.  It compares the shape of an array with the expected one,
    [None] standing for any extent, and fails with a shape-mismatch error
    that names the argument. *)
Fixpoint shape_matches (shape : list nat) (expected : list (option nat)) : bool :=
  match shape, expected with
  | [], [] => true
  | n :: shape, e :: expected =>
      match e with Some m => Nat.eqb n m | None => true end
      && shape_matches shape expected
  | _, _ => false
  end.

Definition assert_shape (shape : list nat) (expected : list (option nat))
    (label : string) : Py F O unit :=
  if shape_matches shape expected then ret tt
  else raise (ShapeMismatchError label).

(** [phi(x, c, eps=eps, diff=diff)] for arrays [x], [c] of points *)
Definition call_rbf (phi : RBF) (eps : shape_param F) (diff : option (list nat))
    (x c : list (list F)) : Py F O (list (list F)) :=
  emit CallRBF ;; ret (map (rbf_row phi eps diff c) x).

(** [phi(c, c, eps=eps)] for a stack [c] of arrays of points *)
Definition call_rbf_stack (phi : RBF) (eps : shape_param F)
    (c : list (list (list F))) : Py F O (list (list (list F))) :=
  emit CallRBF ;; ret (map (fun ct => map (rbf_row phi eps None ct) ct) c).

(** [phi(x[:, None], c, eps=eps, diff=diff)[:, 0]] for a stack [c] *)
Definition call_rbf_each (phi : RBF) (eps : shape_param F) (diff : option (list nat))
    (x : list (list F)) (c : list (list (list F))) : Py F O (list (list F)) :=
  emit CallRBF ;; ret (zip_with (fun xt ct => rbf_row phi eps diff ct xt) x c).

(** [powers(order, dim)] *)
Definition call_powers (order : Z) (dim : nat) : Py F O (list (list nat)) :=
  emit CallPowers ;; ret (powers order dim).

(** [mvmonos(x, pwr, diff=diff)] *)
Definition call_mvmonos (x : list (list F)) (pwr : list (list nat))
    (diff : option (list nat)) : Py F O (list (list F)) :=
  emit CallMvmonos ;; ret (map (mvmonos_row pwr diff) x).

(** [mvmonos(c, pwr)] for a stack [c] of arrays of points *)
Definition call_mvmonos_stack (c : list (list (list F))) (pwr : list (list nat))
    : Py F O (list (list (list F))) :=
  emit CallMvmonos ;; ret (map (map (mvmonos_row pwr None)) c).

(** [PartitionedSolver(K, P).solve(d, z)] *)
Definition call_solve (K P : list (list F)) (d z : list F)
    : Py F O (list F * list F) :=
  emit CallPartitionedSolver ;; lift (PartitionedSolver_solve K P d z).

(** [KDTree(y)] *)
Definition call_KDTree (y : array2 F) : Py F O KDTree :=
  emit CallKDTree ;; ret (KDTree_build y).

(** [tree.query(x, k)], the indices only *)
Definition call_query (tree : KDTree) (x : array2 F) (k : Z) : Py F O (list (list nat)) :=
  emit CallQuery ;;
  match KDTree_query_check tree k with
  | Some e => raise e
  | None => ret (map (fun xt => KDTree_query tree xt k) (rows x))
  end.

(** [np.linalg.solve] on one system of a stack *)
Definition solve1 (A : list (list F)) (b : list F) : result (list F) :=
  match linalg_solve A b with
  | Some c => inr c
  | None => inl (LinAlgError "Singular matrix")
  end.

(** [np.linalg.solve(LHS, rhs)] on stacks *)
Definition call_linalg_solve (LHS : list (list (list F))) (rhs : list (list F))
    : Py F O (list (list F)) :=
  emit CallLinalgSolve ;; lift (mapE2 solve1 LHS rhs).

(** [scipy.spatial.Delaunay(hull)] *)
Definition call_Delaunay (hull : array2 F) : Py F O Delaunay :=
  emit CallDelaunay ;; lift (Delaunay_build hull).

(** [out[start:stop] = v] on the array at [out] *)
Definition setitem_slice_at (out : loc) (start stop : Z) (v : list F) : Py F O unit :=
  o <- load_vec out ;;
  o' <- lift (setitem_slice o (Some start) (Some stop) v) ;;
  store out (CVec o').

(** [out[mask] = c] on the array at [out] *)
Definition setitem_mask_at (out : loc) (mask : list bool) (c : F) : Py F O unit :=
  o <- load_vec out ;;
  o' <- lift (setitem_mask o mask c) ;;
  store out (CVec o').

(** ** [_in_hull] *)

Definition _in_hull (p hull : array2 F) : Py F O (list bool) :=
  let dim := ncols p in
  if (length (rows hull) <=? dim)%nat then
    ret (replicate (length (rows p)) false)
  else if (2 <=? dim)%nat then
    hull <- call_Delaunay hull ;;
    ret (map (fun pt => 0 <=? find_simplex hull pt) (rows p))
  else
    min <- lift (np_min hull) ;;
    max <- lift (np_max hull) ;;
    lo <- lift (column0 p) ;;
    hi <- lift (column0 p) ;;
    ret (zip_with andb (map (fun v => Fle min v) lo) (map (fun v => Fle v max) hi)).

End Calls.

(** ** Vocabulary for the properties *)

(** The smoothing argument has one entry for each of [n] observations. *)
Definition sigma_fits {F} (sigma : sigma_arg F) (n : nat) : Prop :=
  match sigma with
  | SigmaScalar _ => True
  | SigmaArray s => length s = n
  end.

(** [sigma] as the vector [__init__] works with. *)
Definition sigma_vector {F} (sigma : sigma_arg F) (n : nat) : list F :=
  match sigma with
  | SigmaScalar s => replicate n s
  | SigmaArray s => s
  end.

(** The starts of [range(0, P, c)] for a positive [c], from the [j]-th on:
    [m] multiples of [c]. *)
Definition chunk_starts (c : Z) (j m : nat) : list Z :=
  map (fun i : nat => 0 + Z.of_nat i * c) (seq j m).

Section Vocabulary.
Context {F O : Type} {FF : Float64 F} {CC : Collaborators F}.

(** [keeps n w w']: from [w] to [w'] the attributes of [self] and the
    first [n] cells of the heap are unchanged, and no cell is freed. *)
Definition keeps (n : nat) (w w' : world F O) : Prop :=
  w_self w' = w_self w
  /\ take n (w_heap w') = take n (w_heap w)
  /\ (length (w_heap w) <= length (w_heap w'))%nat.

(** [safe n m Q]: run from any world with at least [n] cells, [m] keeps
    the first [n] of them and [self], whether it returns or raises, and
    what it returns satisfies [Q]. *)
Definition safe {A} (n : nat) (m : Py F O A) (Q : A -> Prop) : Prop :=
  forall w, (n <= length (w_heap w))%nat ->
    keeps n w (m w).1 /\ forall a, (m w).2 = inr a -> Q a.

(** The collaborator calls logged between [w] and [w']. *)
Definition log_since (w w' : world F O) : list event :=
  drop (length (w_log w)) (w_log w').

(** Every row of the array has as many entries as the shape says. *)
Definition wf_array (a : array2 F) : Prop :=
  Forall (fun row => length row = ncols a) (rows a).

(** The classification [_in_hull] computes, as a test on one point; it
    is an error when the computation raises. *)
Definition hull_test (dim : nat) (hull : array2 F) : result (list F -> bool) :=
  if (length (rows hull) <=? dim)%nat then inr (fun _ => false)
  else if (2 <=? dim)%nat then
    match Delaunay_build hull with
    | inl e => inl e
    | inr tri => inr (fun pt => 0 <=? find_simplex tri pt)
    end
  else
    match np_min hull with
    | inl e => inl e
    | inr lo =>
        match np_max hull with
        | inl e => inl e
        | inr hi =>
            match dim with
            | 0%nat => inl (IndexError "index 0 is out of bounds for axis 1 with size 0")
            | S _ => inr (fun pt => Fle lo (default F0 (head pt))
                                    && Fle (default F0 (head pt)) hi)
            end
        end
    end.

(** The collaborator calls [_in_hull] makes. *)
Definition hull_events (dim : nat) (hull : array2 F) : list event :=
  if (length (rows hull) <=? dim)%nat then []
  else if (2 <=? dim)%nat then [CallDelaunay] else [].

(** [lo] is a least, and [hi] a greatest, of the numbers [ys], for the
    comparison of the floats. *)
Definition least_of (ys : list F) (lo : F) : Prop :=
  lo ∈ ys /\ Forall (fun v => Fle lo v = true) ys.
Definition greatest_of (ys : list F) (hi : F) : Prop :=
  hi ∈ ys /\ Forall (fun v => Fle v hi = true) ys.

(** The entries [ys] are numbers that the comparison orders: none is nan,
    and on them [<=] is reflexive, transitive and total. *)
Definition ordered_numbers (ys : list F) : Prop :=
  Forall (fun a => Fisnan a = false /\ Fle a a = true) ys
  /\ (forall a b c, a ∈ ys -> b ∈ ys -> c ∈ ys ->
                    Fle a b = true -> Fle b c = true -> Fle a c = true)
  /\ (forall a b, a ∈ ys -> b ∈ ys -> Fle a b = true \/ Fle b a = true).

(** The membership test as the specification words it, for the two
    cases it spells out.  With fewer than [D + 1] observation points every
    query point is outside.  With [D = 1], a query point [x] is inside
    exactly when [min(y) <= x <= max(y)], where [min(y)] is a least and
    [max(y)] a greatest observation. *)
Inductive in_hull_reference (p hull : array2 F) : list bool -> Prop :=
| too_few_points :
    (length (rows hull) < ncols p + 1)%nat ->
    in_hull_reference p hull (map (fun _ => false) (rows p))
| closed_interval (lo hi : F) :
    ncols p = 1%nat ->
    (2 <= length (rows hull))%nat ->
    least_of (concat (rows hull)) lo ->
    greatest_of (concat (rows hull)) hi ->
    in_hull_reference p hull
      (map (fun pt => match pt with
                      | x :: _ => Fle lo x && Fle x hi
                      | [] => false
                      end) (rows p)).

(** What the chunking loop leaves in [out]: every start of the range
    evaluates one slice with [batch] and writes it into [out]. *)
Fixpoint chunk_fold (batch : list (list F) -> result (list F))
    (x : list (list F)) (chunk_size : Z) (starts : list Z) (out : list F)
    : result (list F) :=
  match starts with
  | [] => inr out
  | start :: starts =>
      let stop := start + chunk_size in
      match batch (py_slice x (Some start) (Some stop)) with
      | inl e => inl e
      | inr r =>
          match setitem_slice out (Some start) (Some stop) r with
          | inl e => inl e
          | inr out => chunk_fold batch x chunk_size starts out
          end
      end
  end.

(** A batch evaluation that treats its rows independently: it succeeds
    on an append exactly when it succeeds on both parts, with the
    appended results. *)
Definition rowwise (batch : list (list F) -> result (list F)) : Prop :=
  (forall l v, batch l = inr v -> length v = length l)
  /\ (forall l1 l2 v,
        batch (l1 ++ l2) = inr v <->
        exists v1 v2, batch l1 = inr v1 /\ batch l2 = inr v2 /\ v = v1 ++ v2).

End Vocabulary.

(** ** [class RBFInterpolant] *)

Module RBFInterpolant.
Section Def.
Context {F : Type} {FF : Float64 F} {CC : Collaborators F}.

(** The attributes that [__init__] sets. *)
Record t : Type := Build {
  y : loc;
  phi : RBF;
  order : Z;
  eps : shape_param F;
  phi_coeff : loc;
  poly_coeff : loc;
  pwr : loc;
  extrapolate : bool
}.

Definition __init__ {O} (y : array2 F) (d : list F) (sigma : sigma_arg F)
    (eps : shape_param F) (phi : string + RBF) (order : Z) (extrapolate : bool)
    : Py F O t :=
  ly <- alloc (CMat y) ;;
  assert_shape (shape2 y) [None; None] "y" ;;
  assert_shape (shape1 d) [Some (length (rows y))] "d" ;;
  sigma <- match sigma with
           | SigmaScalar s => ret (np_full (length (rows y)) s)
           | SigmaArray v =>
               assert_shape (shape1 v) [Some (length (rows y))] "sigma" ;; ret v
           end ;;
  phi <- lift (get_rbf phi) ;;
  (* form block consisting of the RBF and uncertainties on the diagonal *)
  K <- call_rbf phi eps None (rows y) (rows y) ;;
  let K := add_diag K (np_square sigma) in
  (* form the block consisting of the monomials *)
  pwr <- call_powers order (ncols y) ;;
  lpwr <- alloc (CPow pwr) ;;
  if (length (rows y) <? length pwr)%nat then
    raise (ValueError msg_order_observations)
  else
    P <- call_mvmonos (rows y) pwr None ;;
    (* create zeros vector for the right-hand-side *)
    let z := np_zeros (length pwr) in
    (* solve for the RBF and mononomial coefficients *)
    coeff <- call_solve K P d z ;;
    lphi <- alloc (CVec coeff.1) ;;
    lpoly <- alloc (CVec coeff.2) ;;
    ret (Build ly phi order eps lphi lpoly lpwr extrapolate).

(** The body of [__call__] below the chunking block. *)
Definition evaluate (self : t) (x : array2 F) (diff : option (list nat))
    : Py F t (list F) :=
  yv <- load_mat (y self) ;;
  K <- call_rbf (phi self) (eps self) diff (rows x) (rows yv) ;;
  pw <- load_pow (pwr self) ;;
  P <- call_mvmonos (rows x) pw diff ;;
  a <- load_vec (phi_coeff self) ;;
  b <- load_vec (poly_coeff self) ;;
  out <- alloc (CVec (vec_add (mat_dot K a) (mat_dot P b))) ;;
  (* return nan for points outside of the convex hull if extrapolation is
     not allowed *)
  (if negb (extrapolate self) then
     yv <- load_mat (y self) ;;
     inside <- _in_hull x yv ;;
     setitem_mask_at out (map negb inside) Fnan
   else ret tt) ;;
  load_vec out.

(** [self(x, diff=diff, chunk_size=None)] *)
Definition call_unchunked (x : array2 F) (diff : option (list nat))
    : Py F t (list F) :=
  self <- get_self ;;
  yv <- load_mat (y self) ;;
  assert_shape (shape2 x) [None; Some (ncols yv)] "x" ;;
  evaluate self x diff.

Definition __call__ (x : array2 F) (diff : option (list nat))
    (chunk_size : option Z) : Py F t (list F) :=
  self <- get_self ;;
  yv <- load_mat (y self) ;;
  assert_shape (shape2 x) [None; Some (ncols yv)] "x" ;;
  match chunk_size with
  | Some chunk_size =>
      out <- alloc (CVec (np_zeros (length (rows x)))) ;;
      starts <- lift (py_range 0 (Z.of_nat (length (rows x))) chunk_size) ;;
      for_ starts (fun start =>
        let stop := start + chunk_size in
        r <- call_unchunked (slice2 x (Some start) (Some stop)) diff ;;
        setitem_slice_at out start stop r) ;;
      load_vec out
  | None => evaluate self x diff
  end.

(** *** The stored state, by value *)

(** The arrays an interpolant refers to. *)
Record contents : Type := Contents {
  c_y : array2 F;
  c_pwr : list (list nat);
  c_phi_coeff : list F;
  c_poly_coeff : list F
}.

(** [stored self v w]: in [w], [self] is the object and its references
    lead to the arrays [v]. *)
Definition stored (self : t) (v : contents) (w : world F t) : Prop :=
  w_self w = self
  /\ w_heap w !! y self = Some (CMat (c_y v))
  /\ w_heap w !! pwr self = Some (CPow (c_pwr v))
  /\ w_heap w !! phi_coeff self = Some (CVec (c_phi_coeff v))
  /\ w_heap w !! poly_coeff self = Some (CVec (c_poly_coeff v)).

(** [K(x, y) a + P(x) b] at one target point. *)
Definition unmasked (self : t) (v : contents) (diff : option (list nat))
    (xt : list F) : F :=
  Fadd (sum_prod (rbf_row (phi self) (eps self) diff (rows (c_y v)) xt) (c_phi_coeff v))
       (sum_prod (mvmonos_row (c_pwr v) diff xt) (c_poly_coeff v)).

(** The value of one unchunked evaluation. *)
Definition batch_value (self : t) (v : contents) (diff : option (list nat))
    (dim : nat) (x : list (list F)) : result (list F) :=
  if extrapolate self then inr (map (unmasked self v diff) x)
  else match hull_test dim (c_y v) with
       | inl e => inl e
       | inr inside =>
           inr (map (fun xt => if inside xt then unmasked self v diff xt else Fnan) x)
       end.

End Def.
End RBFInterpolant.

(** ** [class NearestRBFInterpolant] *)

Module NearestRBFInterpolant.
Section Def.
Context {F : Type} {FF : Float64 F} {CC : Collaborators F}.

(** The attributes that [__init__] sets. *)
Record t : Type := Build {
  y : loc;
  d : loc;
  sigma : loc;
  k : Z;
  eps : shape_param F;
  phi : RBF;
  order : Z;
  tree : KDTree
}.

Definition __init__ {O} (y : array2 F) (d : list F) (sigma : sigma_arg F)
    (k : Z) (eps : shape_param F) (phi : string + RBF) (order : Z)
    : Py F O t :=
  ly <- alloc (CMat y) ;;
  assert_shape (shape2 y) [None; None] "y" ;;
  ld <- alloc (CVec d) ;;
  assert_shape (shape1 d) [Some (length (rows y))] "d" ;;
  sigma <- match sigma with
           | SigmaScalar s => ret (np_full (length (rows y)) s)
           | SigmaArray v =>
               assert_shape (shape1 v) [Some (length (rows y))] "sigma" ;; ret v
           end ;;
  lsigma <- alloc (CVec sigma) ;;
  phi <- lift (get_rbf phi) ;;
  if is_SparseRBF phi then
    raise (ValueError msg_sparse)
  else
    tree <- call_KDTree y ;;
    ret (Build ly ld lsigma k eps phi order tree).

(** The body of [__call__] below the chunking block. *)
Definition evaluate (self : t) (x : array2 F) (diff : option (list nat))
    : Py F t (list F) :=
  yv <- load_mat (y self) ;;
  pwr <- call_powers (order self) (ncols yv) ;;
  if k self <? Z.of_nat (length pwr) then
    raise (ValueError msg_order_neighbors)
  else
    (* get the indices of the k nearest observations for each
       interpolation point *)
    nbr <- call_query (tree self) x (k self) ;;
    (* build the left-hand-side interpolation matrix consisting of the
       RBF and polyomials evaluated at each neighborhood *)
    ynbr <- lift (fancy_index (rows yv) nbr) ;;
    K <- call_rbf_stack (phi self) (eps self) ynbr ;;
    lK <- alloc (CTen K) ;;
    (* add the smoothing term to the diagonals of K *)
    let idx := seq 0 (Z.to_nat (k self)) in
    Kv <- load_ten lK ;;
    diag <- lift (getitem_diag Kv idx) ;;
    sv <- load_vec (sigma self) ;;
    snbr <- lift (fancy_index sv nbr) ;;
    store lK (CTen (setitem_diag Kv idx
                      (zip_with vec_add diag (map np_square snbr)))) ;;
    P <- call_mvmonos_stack ynbr pwr ;;
    let Pt := map (transpose (length pwr)) P in
    let Z := replicate (length (rows x))
               (replicate (length pwr) (np_zeros (length pwr))) in
    K <- load_ten lK ;;
    let LHS := zip_with (fun KP PtZ => block_matrix KP.1 KP.2 PtZ.1 PtZ.2)
                 (zip K P) (zip Pt Z) in
    (* build the right-hand-side data vector consisting of the
       observations for each neighborhood and extra zeros *)
    let z := replicate (length (rows x)) (np_zeros (length pwr)) in
    dv <- load_vec (d self) ;;
    dnbr <- lift (fancy_index dv nbr) ;;
    let rhs := zip_with app dnbr z in
    (* solve for the RBF and polynomial coefficients *)
    coeff <- call_linalg_solve LHS rhs ;;
    let phi_coeff := map (fun c => py_slice c None (Some (k self))) coeff in
    let poly_coeff := map (fun c => py_slice c (Some (k self)) None) coeff in
    (* evaluate the interpolant at the interpolation points *)
    K <- call_rbf_each (phi self) (eps self) diff (rows x) ynbr ;;
    P <- call_mvmonos (rows x) pwr diff ;;
    ret (vec_add (zip_with sum_prod K phi_coeff) (zip_with sum_prod P poly_coeff)).

(** [self(x, diff=diff, chunk_size=None)] *)
Definition call_unchunked (x : array2 F) (diff : option (list nat))
    : Py F t (list F) :=
  self <- get_self ;;
  yv <- load_mat (y self) ;;
  assert_shape (shape2 x) [None; Some (ncols yv)] "x" ;;
  evaluate self x diff.

Definition __call__ (x : array2 F) (diff : option (list nat))
    (chunk_size : option Z) : Py F t (list F) :=
  self <- get_self ;;
  yv <- load_mat (y self) ;;
  assert_shape (shape2 x) [None; Some (ncols yv)] "x" ;;
  match chunk_size with
  | Some chunk_size =>
      out <- alloc (CVec (np_zeros (length (rows x)))) ;;
      starts <- lift (py_range 0 (Z.of_nat (length (rows x))) chunk_size) ;;
      for_ starts (fun start =>
        let stop := start + chunk_size in
        r <- call_unchunked (slice2 x (Some start) (Some stop)) diff ;;
        setitem_slice_at out start stop r) ;;
      load_vec out
  | None => evaluate self x diff
  end.

(** *** The stored state, by value *)

(** The arrays an interpolant refers to. *)
Record contents : Type := Contents {
  c_y : array2 F;
  c_d : list F;
  c_sigma : list F
}.

(** [stored self v w]: in [w], [self] is the object and its references
    lead to the arrays [v]. *)
Definition stored (self : t) (v : contents) (w : world F t) : Prop :=
  w_self w = self
  /\ w_heap w !! y self = Some (CMat (c_y v))
  /\ w_heap w !! d self = Some (CVec (c_d v))
  /\ w_heap w !! sigma self = Some (CVec (c_sigma v)).

(** The stages of one unchunked evaluation that can fail, each over the
    whole batch, in the order of the source. *)
Definition batch_stages (self : t) (v : contents) (diff : option (list nat))
    (x : list (list F)) : result (list F) :=
  let pwr := powers (order self) (ncols (c_y v)) in
  let idx := seq 0 (Z.to_nat (k self)) in
  let nbr := map (fun xt => KDTree_query (tree self) xt (k self)) x in
  match fancy_index (rows (c_y v)) nbr with
  | inl e => inl e
  | inr ynbr =>
  let K := map (fun ct => map (rbf_row (phi self) (eps self) None ct) ct) ynbr in
  match getitem_diag K idx with
  | inl e => inl e
  | inr diag =>
  match fancy_index (c_sigma v) nbr with
  | inl e => inl e
  | inr snbr =>
  let K := setitem_diag K idx (zip_with vec_add diag (map np_square snbr)) in
  let P := map (map (mvmonos_row pwr None)) ynbr in
  let Pt := map (transpose (length pwr)) P in
  let Zb := replicate (length x) (replicate (length pwr) (np_zeros (length pwr))) in
  let LHS := zip_with (fun KP PtZ => block_matrix KP.1 KP.2 PtZ.1 PtZ.2)
               (zip K P) (zip Pt Zb) in
  let z := replicate (length x) (np_zeros (length pwr)) in
  match fancy_index (c_d v) nbr with
  | inl e => inl e
  | inr dnbr =>
  let rhs := zip_with app dnbr z in
  match mapE2 solve1 LHS rhs with
  | inl e => inl e
  | inr coeff =>
  let phi_coeff := map (fun c => py_slice c None (Some (k self))) coeff in
  let poly_coeff := map (fun c => py_slice c (Some (k self)) None) coeff in
  let K := zip_with (fun xt ct => rbf_row (phi self) (eps self) diff ct xt) x ynbr in
  let P := map (mvmonos_row pwr diff) x in
  inr (vec_add (zip_with sum_prod K phi_coeff) (zip_with sum_prod P poly_coeff))
  end end end end end.

(** The value of one unchunked evaluation. *)
Definition batch_value (self : t) (v : contents) (diff : option (list nat))
    (x : list (list F)) : result (list F) :=
  if k self <? Z.of_nat (length (powers (order self) (ncols (c_y v))))
  then inl (ValueError msg_order_neighbors)
  else match KDTree_query_check (tree self) (k self) with
       | Some e => inl e
       | None => batch_stages self v diff x
       end.

(** The same computation for a single target point [xt]: its [k]
    neighbours, its local saddle-point system, and the weighted sums. *)
Definition point_value (self : t) (v : contents) (diff : option (list nat))
    (xt : list F) : result F :=
  let pwr := powers (order self) (ncols (c_y v)) in
  let idx := seq 0 (Z.to_nat (k self)) in
  let nb := KDTree_query (tree self) xt (k self) in
  match mapE (pick (rows (c_y v))) nb with
  | inl e => inl e
  | inr ynb =>
  let K := map (rbf_row (phi self) (eps self) None ynb) ynb in
  match mapE (fun i => match pick K i with
                       | inl e => inl e
                       | inr row => pick row i
                       end) idx with
  | inl e => inl e
  | inr diag =>
  match mapE (pick (c_sigma v)) nb with
  | inl e => inl e
  | inr snb =>
  let K := foldl (fun m iv => alter (fun row => <[iv.1 := iv.2]> row) iv.1 m)
             K (zip idx (vec_add diag (np_square snb))) in
  let P := map (mvmonos_row pwr None) ynb in
  let Pt := transpose (length pwr) P in
  let Zb := replicate (length pwr) (np_zeros (length pwr)) in
  let LHS := block_matrix K P Pt Zb in
  match mapE (pick (c_d v)) nb with
  | inl e => inl e
  | inr dnb =>
  let rhs := dnb ++ np_zeros (length pwr) in
  match solve1 LHS rhs with
  | inl e => inl e
  | inr coeff =>
  inr (Fadd (sum_prod (rbf_row (phi self) (eps self) diff ynb xt)
               (py_slice coeff None (Some (k self))))
            (sum_prod (mvmonos_row pwr diff xt)
               (py_slice coeff (Some (k self)) None)))
  end end end end end.

End Def.
End NearestRBFInterpolant.

(** ** A reference implementation of the collaborators

    Modelled from the spec: [rbf.basis], [rbf.poly], [rbf.linalg] and
    [rbf.utils] are not among the sources, so this instance follows the
    interfaces of section 6 of the specification.  It is a small executable
    instance over the binary64 floats, enough to run the interpolants on
    concrete data: polyharmonic kernels and monomials with their partial
    derivatives, dense solves by Gauss-Jordan elimination with partial
    pivoting, and nearest neighbours by exhaustive search.  Triangulations
    are not implemented.  The general properties below hold for every
    instance of [Collaborators]; this one only provides concrete runs. *)

Module Reference.

Local Open Scope float_scope.

Record kernel : Type := Kernel { kernel_name : string; kernel_sparse : bool }.

Definition phs1 : kernel := Kernel "phs1" false.
Definition phs3 : kernel := Kernel "phs3" false.
Definition spwen12 : kernel := Kernel "spwen12" true.

(** Modelled from the spec: a kernel is chosen by name from a fixed
    catalog, or given as an object. *)
Definition get_rbf (val : string + kernel) : result kernel :=
  match val with
  | inr k => inr k
  | inl name =>
      if String.eqb name "phs1" then inr phs1
      else if String.eqb name "phs3" then inr phs3
      else if String.eqb name "spwen12" then inr spwen12
      else inl (ValueError "not a predefined RBF")
  end.

Definition distance (x c : list float) : float :=
  PrimFloat.sqrt (foldr PrimFloat.add 0 (zip_with (fun a b => (a - b) * (a - b)) x c)).

Definition eps_at (eps : shape_param float) (j : nat) : float :=
  match eps with
  | EpsScalar e => e
  | EpsArray e => default 1 (e !! j)
  end.

Definition radial (k : kernel) (r : float) : float :=
  if String.eqb (kernel_name k) "phs1" then r else r * r * r.

(** The power of the distance that the kernel is. *)
Definition degree (k : kernel) : nat :=
  if String.eqb (kernel_name k) "phs1" then 1 else 3.

Fixpoint pow (x : float) (n : nat) : float :=
  match n with O => 1 | S n => x * pow x n end.

Fixpoint float_of_nat (n : nat) : float :=
  match n with O => 0 | S n => float_of_nat n + 1 end.

Definition float_of_Z (z : Z) : float :=
  if (z <? 0)%Z then - float_of_nat (Z.to_nat (- z)) else float_of_nat (Z.to_nat z).

(** A term [coef * d_1^(a_1) * ... * d_D^(a_D) * r^m] of a partial
    derivative of a power of the distance, where [d = x - c] and
    [r = |d|]; the power [m] of the distance may be negative. *)
Record term : Type := Term { term_coef : float; term_exps : list nat; term_rpow : Z }.

(** The partial derivative of a term in the coordinate [j]. *)
Definition d_term (j : nat) (t : term) : list term :=
  let a := default 0%nat (term_exps t !! j) in
  match a with
  | O => []
  | S a' => [Term (term_coef t * float_of_nat a) (<[j := a']> (term_exps t)) (term_rpow t)]
  end
  ++ (if (term_rpow t =? 0)%Z then []
      else [Term (term_coef t * float_of_Z (term_rpow t)) (<[j := S a]> (term_exps t))
              (term_rpow t - 2)]).

(** The partial derivative of the orders [diff], one order for every
    coordinate. *)
Definition derivative (diff : list nat) (ts : list term) : list term :=
  foldl (fun ts jq => Nat.iter jq.2 (flat_map (d_term jq.1)) ts) ts
    (imap (fun j q => (j, q)) diff).

Definition rpow (r : float) (m : Z) : float :=
  if (m <? 0)%Z then 1 / pow r (Z.to_nat (- m)) else pow r (Z.to_nat m).

Definition eval_term (d : list float) (r : float) (t : term) : float :=
  term_coef t * foldr PrimFloat.mul 1 (zip_with pow d (term_exps t)) * rpow r (term_rpow t).

(** Derivative orders that are all zero ask for the value. *)
Definition no_derivative (diff : option (list nat)) : bool :=
  match diff with
  | None => true
  | Some q => forallb (Nat.eqb 0) q
  end.

(** Modelled from the spec: one row of [evaluate(pointsA, pointsB,
    shapeParam, diffOrder)], the kernel between [x] and every centre, or
    its partial derivative in [x] of the orders [diff]. *)
Definition rbf_row (k : kernel) (eps : shape_param float) (diff : option (list nat))
    (c : list (list float)) (x : list float) : list float :=
  imap (fun j cj =>
          if no_derivative diff then radial k (eps_at eps j * distance x cj)
          else
            let d := zip_with PrimFloat.sub x cj in
            let phi := Term (pow (eps_at eps j) (degree k))
                         (replicate (length x) 0%nat) (Z.of_nat (degree k)) in
            foldr PrimFloat.add 0
              (map (eval_term d (distance x cj)) (derivative (default [] diff) [phi])))
       c.

(** Modelled from the spec: the exponent tuples of [dim] non-negative
    entries with total degree at most [deg]. *)
Fixpoint tuples (dim deg : nat) : list (list nat) :=
  match dim with
  | O => [[]]
  | S dim => flat_map (fun i => map (cons i) (tuples dim (deg - i))) (seq 0 (S deg))
  end.

(** Modelled from the spec: [powers(order, dim)], empty for the order
    [-1]. *)
Definition powers (order : Z) (dim : nat) : list (list nat) :=
  if (order <? 0)%Z then [] else tuples dim (Z.to_nat order).

(** [p (p - 1) ... (p - q + 1)] *)
Fixpoint falling (p q : nat) : nat :=
  match q with O => 1 | S q => p * falling (p - 1) q end.

(** The derivative of order [q] of [x^p]. *)
Definition pow_diff (x : float) (p q : nat) : float :=
  if (p <? q)%nat then 0 else float_of_nat (falling p q) * pow x (p - q).

(** Modelled from the spec: one row of the monomial matrix, every
    monomial at the point [x], or its partial derivative of the orders
    [diff]. *)
Definition mvmonos_row (pwr : list (list nat)) (diff : option (list nat))
    (x : list float) : list float :=
  map (fun p =>
         if no_derivative diff then foldr PrimFloat.mul 1 (zip_with pow x p)
         else foldr PrimFloat.mul 1
                (imap (fun i xi => pow_diff xi (default 0%nat (p !! i))
                                     (default 0%nat (default [] diff !! i))) x))
      pwr.

Definition entry (row : list float) (j : nat) : float := default 0 (row !! j).

(** The row of largest magnitude in column [j], and the other rows. *)
Fixpoint pick_pivot (j : nat) (rows : list (list float))
  : option (list float * list (list float)) :=
  match rows with
  | [] => None
  | r :: t =>
      match pick_pivot j t with
      | None => Some (r, [])
      | Some (b, others) =>
          if PrimFloat.ltb (PrimFloat.abs (entry r j)) (PrimFloat.abs (entry b j))
          then Some (b, r :: others)
          else Some (r, b :: others)
      end
  end.

Definition eliminate (j : nat) (piv row : list float) : list float :=
  zip_with (fun a p => a - entry row j * p) row piv.

Fixpoint gauss_jordan (fuel j : nat) (done rest : list (list float))
  : option (list (list float)) :=
  match fuel with
  | O => Some done
  | S fuel =>
      match pick_pivot j rest with
      | None => None
      | Some (p, others) =>
          let a := entry p j in
          if PrimFloat.ltb 0 (PrimFloat.abs a) then
            let p := map (fun e => e / a) p in
            gauss_jordan fuel (S j) (map (eliminate j p) done ++ [p])
              (map (eliminate j p) others)
          else None
      end
  end.

(** [np.linalg.solve] on one system: [None] when no pivot is left. *)
Definition linalg_solve (A : list (list float)) (b : list float) : option (list float) :=
  match gauss_jordan (length A) 0 [] (zip_with (fun row bi => row ++ [bi]) A b) with
  | Some done => Some (map (fun row => entry row (length A)) done)
  | None => None
  end.

(** Modelled from the spec: solves [[K, P], [P^T, 0]] [a; b] = [d; z]
    and returns [(a, b)], or signals a singular system. *)
Definition PartitionedSolver_solve (K P : list (list float)) (d z : list float)
  : result (list float * list float) :=
  let m := length z in
  let lhs := block_matrix K P (transpose m P) (replicate m (replicate m 0)) in
  match linalg_solve lhs (d ++ z) with
  | Some c => inr (take (length d) c, drop (length d) c)
  | None => inl (LinAlgError "Singular matrix")
  end.

(** Insert [(dist, i)] into a list sorted by distance, in front of the
    entries that are not nearer: inserted from the last index down, equal
    distances end up in the order of the indices. *)
Fixpoint insert_by_distance (e : float * nat) (l : list (float * nat))
  : list (float * nat) :=
  match l with
  | [] => [e]
  | h :: t => if PrimFloat.ltb h.1 e.1 then h :: insert_by_distance e t else e :: l
  end.

(** Modelled from the spec: a query promises [k] neighbours, so it fails
    as a whole on a tree of fewer than [k] points. *)
Definition KDTree_query_check (tree : array2 float) (k : Z) : option exn :=
  if (Z.of_nat (length (rows tree)) <? k)%Z
  then Some (ValueError "cannot find more neighbours than there are points")
  else None.

(** Modelled from the spec: the [k] nearest observations by increasing
    distance, ties by index order. *)
Definition KDTree_query (tree : array2 float) (x : list float) (k : Z) : list nat :=
  let sorted := foldr insert_by_distance []
                  (imap (fun i c => (distance x c, i)) (rows tree)) in
  take (Z.to_nat k) (map snd sorted).

#[global] Instance collaborators : Collaborators float :=
  Build_Collaborators float kernel (array2 float) unit
    get_rbf kernel_sparse rbf_row powers mvmonos_row PartitionedSolver_solve
    (fun y => y) KDTree_query_check KDTree_query linalg_solve
    (fun _ => inl (CollaboratorError "triangulation is not implemented"))
    (fun _ _ => (-1)%Z).

(** Three observations of the identity on the line. *)
Definition y012 : array2 float := Arr2 1 [[0]; [1]; [2]].
Definition d012 : list float := [0; 1; 2].

(** A global interpolant of these observations: cubic kernel, linear
    polynomial, no extrapolation. *)
Definition global_self : RBFInterpolant.t :=
  RBFInterpolant.Build 0 phs3 1 (EpsScalar 1) 2 3 1 false.
Definition global_contents : RBFInterpolant.contents :=
  RBFInterpolant.Contents y012 [[0%nat]; [1%nat]] [0; 0; 0] [0; 1].
Definition global_heap : list (cell float) :=
  [CMat y012; CPow [[0%nat]; [1%nat]]; CVec [0; 0; 0]; CVec [0; 1]].
Definition global_world : world float RBFInterpolant.t :=
  World global_self global_heap [CallRBF; CallPowers; CallMvmonos; CallPartitionedSolver].

(** Local interpolants of the same observations with [k] neighbours and
    a linear polynomial (two monomials). *)
Definition local_self (k : Z) : NearestRBFInterpolant.t :=
  NearestRBFInterpolant.Build 0 1 2 k (EpsScalar 1) phs3 1 y012.
Definition local_contents : NearestRBFInterpolant.contents :=
  NearestRBFInterpolant.Contents y012 d012 [0; 0; 0].
Definition local_heap : list (cell float) :=
  [CMat y012; CVec d012; CVec [0; 0; 0]].
Definition local_world (k : Z) : world float NearestRBFInterpolant.t :=
  World (local_self k) local_heap [CallKDTree].

Definition run_from_scratch {A} (m : Py float unit A) : world float unit * result A :=
  m (World tt [] []).

(** The world in which a constructed object is then called. *)
Definition world_of {O} (w : world float unit) (self : O) : world float O :=
  World self (w_heap w) (w_log w).

End Reference.

(** ** The system of the global interpolant *)

Section System.
Context {F : Type} {FF : Float64 F} {CC : Collaborators F}.

(** The saddle-point system [RBFInterpolant.__init__] hands to the
    solver: the kernel matrix with the variances on its diagonal, the
    monomial matrix, the observations and a zero vector. *)
Definition system_of (y : array2 F) (d : list F) (sigma : sigma_arg F)
    (eps : shape_param F) (rbf : RBF) (order : Z)
    : result (list F * list F) :=
  let pwr := powers order (ncols y) in
  PartitionedSolver_solve
    (add_diag (map (rbf_row rbf eps None (rows y)) (rows y))
       (np_square (sigma_vector sigma (length (rows y)))))
    (map (mvmonos_row pwr None) (rows y))
    d (np_zeros (length pwr)).

End System.

(** ** [docs/scripts/fd.b.py] *)

Module FdB.
Section Def.
Context {F : Type} {FF : Float64 F}.

(** A matrix in coordinate form, as [scipy.sparse.coo_matrix] holds it:
    the shape and three arrays of one length, entry [t] being [data[t]] at
    [(row[t], col[t])].  A position may be given more than once. *)
Record coo : Type := Coo {
  shape : nat * nat;
  row : list nat;
  col : list nat;
  data : list F
}.

(** A matrix in compressed column form, by what it stores: the shape and
    at most one entry for a position. *)
Record csc : Type := Csc {
  csc_shape : nat * nat;
  stored : gmap (nat * nat) F
}.

(** The range of [dtype=int], 64 bits wide. *)
Definition fits_int64 (z : Z) : bool := (- 2 ^ 63 <=? z) && (z <? 2 ^ 63).

(** [np.asarray(idx, dtype=int)] on a list of Python ints *)
Definition np_asarray_int (idx : list Z) : result (list Z) :=
  if forallb fits_int64 idx then inr idx
  else inl (OverflowError "Python int too large to convert to C long").

(** One more entry for its position: it is added to what the position
    holds. *)
Definition add_entry (m : gmap (nat * nat) F) (e : nat * nat * F)
    : gmap (nat * nat) F :=
  <[e.1 := match m !! e.1 with Some s => Fadd s e.2 | None => e.2 end]> m.

(** [scipy.sparse.csc_matrix((data, (row, col)), shape=shape)]: the shape
    must be a shape, the arrays must have one length and the indices must
    lie inside the shape; the entries given for one position are summed,
    in the order in which they are given. *)
Definition csc_matrix (data : list F) (row : list Z) (col : list nat)
    (shape : Z * nat) : result csc :=
  if shape.1 <? 0 then
    inl (ValueError "'shape' elements cannot be negative")
  else if negb (fits_int64 (Z.max shape.1 (Z.of_nat shape.2))) then
    inl (OverflowError "Python int too large to convert to C long")
  else if negb (Nat.eqb (length row) (length data)
                && Nat.eqb (length col) (length data)) then
    inl (ValueError "row, column, and data array must all be the same length")
  else if existsb (fun r => shape.1 <=? r) row then
    inl (ValueError "row index exceeds matrix dimensions")
  else if existsb (fun c => (shape.2 <=? c)%nat) col then
    inl (ValueError "column index exceeds matrix dimensions")
  else if existsb (fun r => r <? 0) row then
    inl (ValueError "negative row index found")
  else
    inr (Csc (Z.to_nat shape.1, shape.2)
           (foldl add_entry ∅ (zip (zip (map Z.to_nat row) col) data))).

(** [A] is the matrix that [scipy.sparse.coo_matrix(A)] of line 19
    gives. *)
Definition expand_rows (A : coo) (idx : list Z) (n : Z) : result csc :=
  match np_asarray_int idx with
  | inl e => inl e
  | inr idx =>
      let shape := (n, (shape A).2) in
      match mapE (pick idx) (row A) with      (* idx[A.row] *)
      | inl e => inl e
      | inr moved => csc_matrix (data A) moved (col A) shape
      end
  end.

(** *** Reading the matrices *)

Definition entries (A : coo) : list (nat * nat * F) :=
  zip (zip (row A) (col A)) (data A).

(** The entries that [A] gives for the position [(r, j)], in the order
    in which it gives them. *)
Definition stored_at (A : coo) (r j : nat) : list F :=
  map snd (filter (fun e => e.1 = (r, j)) (entries A)).

(** The entries of [A] in the column [j] whose row has the target [i] in
    [idx]. *)
Definition landing (A : coo) (idx : list Z) (i j : nat) : list F :=
  map snd (filter (fun e => idx !! e.1.1 = Some (Z.of_nat i) /\ e.1.2 = j)
             (entries A)).

(** The sum of the entries given for one position, in their order;
    nothing is stored where none is given. *)
Definition total (vs : list F) : option F :=
  match vs with
  | [] => None
  | v :: vs => Some (foldl Fadd v vs)
  end.

(** The entries [vs] added, in their order, to what a position holds. *)
Definition onto (o : option F) (vs : list F) : option F :=
  foldl (fun o v => Some (match o with Some s => Fadd s v | None => v end)) o vs.

(** The arrays of [A] have one length and its indices lie in its shape,
    which fits the index type. *)
Definition valid (A : coo) : Prop :=
  length (row A) = length (data A)
  /\ length (col A) = length (data A)
  /\ Forall (fun r => (r < (shape A).1)%nat) (row A)
  /\ Forall (fun c => (c < (shape A).2)%nat) (col A)
  /\ Z.of_nat (shape A).2 < 2 ^ 63.

End Def.
Arguments coo : clear implicits.
Arguments csc : clear implicits.
End FdB.

(** ** More concrete runs over the reference collaborators *)

Module Runs.
Import Reference.
Local Open Scope float_scope.

(** The global interpolant of the identity, with extrapolation allowed. *)
Definition extrapolating_self : RBFInterpolant.t :=
  RBFInterpolant.Build 0 phs3 1 (EpsScalar 1) 2 3 1 true.
Definition extrapolating_world : world float RBFInterpolant.t :=
  World extrapolating_self global_heap (w_log global_world).

(** The observations 2, 0 and 1 on the line, in this arrangement, with
    the values of the square: 4, 0 and 1. *)
Definition y201 : array2 float := Arr2 1 [[2]; [0]; [1]].
Definition d201 : list float := [4; 0; 1].
Definition shuffled_contents : RBFInterpolant.contents :=
  RBFInterpolant.Contents y201 [[0%nat]; [1%nat]] [0.25; 0.25; -0.5] [-1.5; 2].
Definition shuffled_world : world float RBFInterpolant.t :=
  World global_self
    [CMat y201; CPow [[0%nat]; [1%nat]]; CVec [0.25; 0.25; -0.5]; CVec [-1.5; 2]]
    [CallRBF; CallPowers; CallMvmonos; CallPartitionedSolver].

(** A single observation on the line, the value 5 at 0, with a constant
    polynomial: too few points to span an interval. *)
Definition y0 : array2 float := Arr2 1 [[0]].
Definition single_self : RBFInterpolant.t :=
  RBFInterpolant.Build 0 phs3 0 (EpsScalar 1) 2 3 1 false.
Definition single_contents : RBFInterpolant.contents :=
  RBFInterpolant.Contents y0 [[0%nat]] [0] [5].
Definition single_world : world float RBFInterpolant.t :=
  World single_self [CMat y0; CPow [[0%nat]]; CVec [0]; CVec [5]]
    [CallRBF; CallPowers; CallMvmonos; CallPartitionedSolver].

(** Two observations at the same place: a singular system. *)
Definition y00 : array2 float := Arr2 1 [[0]; [0]].
Definition d00 : list float := [1; 2].

(** A 2 x 2 matrix in coordinate form that gives its corner twice:
    1 and 2 at (0, 0), and 4 at (1, 1). *)
Definition corner12 : FdB.coo float :=
  FdB.Coo (2%nat, 2%nat) [0; 1; 0]%nat [0; 1; 0]%nat [1; 4; 2].

End Runs.

(** * Properties *)

(** ** Running the monad *)

Ltac py_unfold :=
  unfold bind, ret, raise, lift, get_self, emit, alloc, load, store,
    load_vec, load_mat, load_ten, load_pow,
    expect_vec, expect_mat, expect_ten, expect_pow.

Section MapE.
Context {A B : Type}.
Implicit Types (f : A -> result B) (l : list A).

Lemma mapE_app f l1 l2 :
  mapE f (l1 ++ l2) =
    match mapE f l1 with
    | inl e => inl e
    | inr v1 => match mapE f l2 with
                | inl e => inl e
                | inr v2 => inr (v1 ++ v2)
                end
    end.
Proof.
  induction l1 as [|a l1 IH]; simpl.
  - destruct (mapE f l2); reflexivity.
  - destruct (f a); [reflexivity|].
    rewrite IH. destruct (mapE f l1); [reflexivity|].
    destruct (mapE f l2); reflexivity.
Qed.

Lemma mapE_length f l v : mapE f l = inr v -> length v = length l.
Proof.
  revert v. induction l as [|a l IH]; simpl; intros v Hv.
  - inversion Hv. reflexivity.
  - destruct (f a); [discriminate|].
    destruct (mapE f l); [discriminate|].
    inversion Hv. simpl. f_equal. apply IH. reflexivity.
Qed.

Lemma mapE_total (g : A -> B) l : mapE (fun a => inr (g a)) l = inr (map g l).
Proof. induction l as [|a l IH]; simpl; [reflexivity|]. rewrite IH. reflexivity. Qed.

End MapE.

(** ** The frame: what a call cannot touch *)

Section Frame.
Context {F O : Type} {FF : Float64 F} {CC : Collaborators F}.
Implicit Types (w : world F O) (n : nat).

Lemma keeps_refl n w : keeps n w w.
Proof. repeat split; reflexivity. Qed.

Lemma keeps_trans n w1 w2 w3 : keeps n w1 w2 -> keeps n w2 w3 -> keeps n w1 w3.
Proof.
  intros (Hs1 & Ht1 & Hl1) (Hs2 & Ht2 & Hl2).
  repeat split; [congruence | congruence | lia].
Qed.

Lemma keeps_lookup n w w' l :
  keeps n w w' -> (l < n)%nat -> w_heap w' !! l = w_heap w !! l.
Proof.
  intros (_ & Ht & _) Hl.
  rewrite <- (lookup_take_lt (w_heap w') n l) by assumption.
  rewrite <- (lookup_take_lt (w_heap w) n l) by assumption.
  rewrite Ht. reflexivity.
Qed.

Lemma keeps_le n m w w' : (m <= n)%nat -> keeps n w w' -> keeps m w w'.
Proof.
  intros Hmn (Hs & Ht & Hl). repeat split; [assumption| |assumption].
  replace m with (m `min` n)%nat by lia.
  rewrite <- !take_take. rewrite Ht. reflexivity.
Qed.

Lemma safe_weaken {A} n (m : Py F O A) (P Q : A -> Prop) :
  safe n m P -> (forall a, P a -> Q a) -> safe n m Q.
Proof.
  intros Hm HPQ w Hn. destruct (Hm w Hn) as [Hk HP].
  split; [assumption|]. intros a Ha. apply HPQ, HP, Ha.
Qed.

Lemma safe_ret {A} n (a : A) (Q : A -> Prop) : Q a -> safe n (ret a : Py F O A) Q.
Proof.
  intros HQ w _. simpl. split; [apply keeps_refl|].
  intros a' Ha. inversion Ha. subst. assumption.
Qed.

Lemma safe_raise {A} n e (Q : A -> Prop) : safe n (raise e : Py F O A) Q.
Proof. intros w _. simpl. split; [apply keeps_refl|]. discriminate. Qed.

Lemma safe_lift {A} n (r : result A) : safe n (lift r : Py F O A) (fun a => r = inr a).
Proof.
  intros w _. simpl. split; [apply keeps_refl|]. intros a Ha. exact Ha.
Qed.

Lemma safe_get_self n : safe n (@get_self F O) (fun _ => True).
Proof. intros w _. simpl. split; [apply keeps_refl | trivial]. Qed.

Lemma safe_emit n ev : safe n (@emit F O ev) (fun _ => True).
Proof. intros w _. simpl. split; [repeat split; simpl; lia | trivial]. Qed.

Lemma safe_alloc n c : safe n (@alloc F O c) (fun l => (n <= l)%nat).
Proof.
  intros w Hn. simpl. split.
  - repeat split; simpl.
    + rewrite take_app_le by assumption. reflexivity.
    + rewrite length_app. lia.
  - intros a Ha. inversion Ha. subst. assumption.
Qed.

Lemma safe_load n l : safe n (@load F O l) (fun _ => True).
Proof.
  intros w _. unfold load. destruct (w_heap w !! l); simpl;
    (split; [apply keeps_refl | trivial]).
Qed.

Lemma safe_store n l c : (n <= l)%nat -> safe n (@store F O l c) (fun _ => True).
Proof.
  intros Hl w Hn. simpl. split; [|trivial].
  repeat split; simpl.
  - apply take_insert_ge. assumption.
  - rewrite length_insert. lia.
Qed.

Lemma safe_bind {A B} n (m : Py F O A) (f : A -> Py F O B) (P : A -> Prop)
    (Q : B -> Prop) :
  safe n m P -> (forall a, P a -> safe n (f a) Q) -> safe n (bind m f) Q.
Proof.
  intros Hm Hf w Hn. unfold bind.
  destruct (Hm w Hn) as [Hk HP].
  destruct (m w) as [w1 [e|a]]; simpl in *.
  - split; [assumption | discriminate].
  - assert (Hn1 : (n <= length (w_heap w1))%nat) by (destruct Hk as (_ & _ & ?); lia).
    destruct (Hf a (HP a eq_refl) w1 Hn1) as [Hk1 HQ].
    split; [eapply keeps_trans; eassumption | assumption].
Qed.

Lemma safe_for n (l : list Z) (body : Z -> Py F O unit) :
  (forall i, safe n (body i) (fun _ => True)) ->
  safe n (for_ l body) (fun _ => True).
Proof.
  intros Hb. induction l as [|i l IH]; simpl.
  - apply safe_ret. trivial.
  - eapply safe_bind; [apply Hb|]. intros _ _. exact IH.
Qed.

End Frame.

(** One step of a frame proof: split a [bind], or close a primitive. *)
Ltac safe_step :=
  lazymatch goal with
  | |- safe _ (bind _ _) _ => eapply safe_bind; [|intros ? ?]
  | |- safe _ (ret _) _ => apply safe_ret; trivial
  | |- safe _ (raise _) _ => apply safe_raise
  | |- safe _ get_self _ => apply safe_get_self
  | |- safe _ (emit _) _ => apply safe_emit
  | |- safe _ (alloc _) _ => apply safe_alloc
  | |- safe _ (load _) _ => apply safe_load
  | |- safe _ (lift _) _ =>
      first [apply safe_lift | eapply safe_weaken; [apply safe_lift | trivial]]
  | |- safe _ (store _ _) _ => apply safe_store; assumption
  | |- safe _ (match ?x with _ => _ end) _ => destruct x
  end.

Section FrameOfCalls.
Context {F O : Type} {FF : Float64 F} {CC : Collaborators F}.
Implicit Types (n : nat) (l : loc).

Lemma safe_load_vec n l : safe n (load_vec l : Py F O _) (fun _ => True).
Proof. unfold load_vec, expect_vec. repeat safe_step. Qed.

Lemma safe_load_mat n l : safe n (load_mat l : Py F O _) (fun _ => True).
Proof. unfold load_mat, expect_mat. repeat safe_step. Qed.

Lemma safe_load_ten n l : safe n (load_ten l : Py F O _) (fun _ => True).
Proof. unfold load_ten, expect_ten. repeat safe_step. Qed.

Lemma safe_load_pow n l : safe n (load_pow l : Py F O _) (fun _ => True).
Proof. unfold load_pow, expect_pow. repeat safe_step. Qed.

Lemma safe_assert_shape n shape expected label :
  safe n (assert_shape shape expected label : Py F O _) (fun _ => True).
Proof. unfold assert_shape. repeat safe_step. Qed.

Lemma safe_call_rbf n phi eps diff x c :
  safe n (call_rbf phi eps diff x c : Py F O _) (fun _ => True).
Proof. unfold call_rbf. repeat safe_step. Qed.

Lemma safe_call_rbf_stack n phi eps c :
  safe n (call_rbf_stack phi eps c : Py F O _) (fun _ => True).
Proof. unfold call_rbf_stack. repeat safe_step. Qed.

Lemma safe_call_rbf_each n phi eps diff x c :
  safe n (call_rbf_each phi eps diff x c : Py F O _) (fun _ => True).
Proof. unfold call_rbf_each. repeat safe_step. Qed.

Lemma safe_call_powers n order dim :
  safe n (call_powers order dim : Py F O _) (fun _ => True).
Proof. unfold call_powers. repeat safe_step. Qed.

Lemma safe_call_mvmonos n x pwr diff :
  safe n (call_mvmonos x pwr diff : Py F O _) (fun _ => True).
Proof. unfold call_mvmonos. repeat safe_step. Qed.

Lemma safe_call_mvmonos_stack n c pwr :
  safe n (call_mvmonos_stack c pwr : Py F O _) (fun _ => True).
Proof. unfold call_mvmonos_stack. repeat safe_step. Qed.

Lemma safe_call_query n tree x k :
  safe n (call_query tree x k : Py F O _) (fun _ => True).
Proof.
  unfold call_query. destruct (KDTree_query_check tree k); repeat safe_step.
Qed.

Lemma safe_call_linalg_solve n LHS rhs :
  safe n (call_linalg_solve LHS rhs : Py F O _) (fun _ => True).
Proof. unfold call_linalg_solve. repeat safe_step. Qed.

Lemma safe_call_Delaunay n hull :
  safe n (call_Delaunay hull : Py F O _) (fun _ => True).
Proof. unfold call_Delaunay. repeat safe_step. Qed.

Lemma safe_setitem_slice_at n out start stop v :
  (n <= out)%nat ->
  safe n (setitem_slice_at out start stop v : Py F O _) (fun _ => True).
Proof.
  intros Hout. unfold setitem_slice_at.
  safe_step; [apply safe_load_vec|]. repeat safe_step.
Qed.

Lemma safe_setitem_mask_at n out mask c :
  (n <= out)%nat ->
  safe n (setitem_mask_at out mask c : Py F O _) (fun _ => True).
Proof.
  intros Hout. unfold setitem_mask_at.
  safe_step; [apply safe_load_vec|]. repeat safe_step.
Qed.

Lemma safe_in_hull n p hull : safe n (_in_hull p hull : Py F O _) (fun _ => True).
Proof.
  unfold _in_hull.
  destruct (length (rows hull) <=? ncols p)%nat; [repeat safe_step|].
  destruct (2 <=? ncols p)%nat.
  - safe_step; [apply safe_call_Delaunay|]. repeat safe_step.
  - repeat safe_step.
Qed.

End FrameOfCalls.

(** The calls of the interpolants, as [safe_step] knows them. *)
Ltac safe_call :=
  first
    [ apply safe_load_vec | apply safe_load_mat | apply safe_load_ten
    | apply safe_load_pow | apply safe_assert_shape | apply safe_call_rbf
    | apply safe_call_rbf_stack | apply safe_call_rbf_each
    | apply safe_call_powers | apply safe_call_mvmonos
    | apply safe_call_mvmonos_stack | apply safe_call_query
    | apply safe_call_linalg_solve | apply safe_call_Delaunay
    | apply safe_in_hull
    | apply safe_setitem_slice_at; assumption
    | apply safe_setitem_mask_at; assumption
    | safe_step ].

Section FrameOfGlobal.
Context {F : Type} {FF : Float64 F} {CC : Collaborators F}.
Import RBFInterpolant.

Lemma safe_evaluate n self x diff :
  safe n (evaluate self x diff) (fun _ => True).
Proof. unfold evaluate. repeat safe_call. Qed.

Lemma safe_call_unchunked n x diff :
  safe n (call_unchunked x diff) (fun _ => True).
Proof.
  unfold call_unchunked. do 3 (safe_step; [safe_call|]).
  apply safe_evaluate.
Qed.

Lemma safe_call n x diff chunk_size :
  safe n (__call__ x diff chunk_size) (fun _ => True).
Proof.
  unfold __call__. do 3 (safe_step; [safe_call|]).
  destruct chunk_size as [c|]; [|apply safe_evaluate].
  safe_step; [safe_call|]. safe_step; [safe_call|].
  safe_step; [|safe_call].
  apply safe_for. intros i.
  safe_step; [apply safe_call_unchunked|]. safe_call.
Qed.

End FrameOfGlobal.

Section FrameOfLocal.
Context {F : Type} {FF : Float64 F} {CC : Collaborators F}.
Import NearestRBFInterpolant.

Lemma safe_local_evaluate n self x diff :
  safe n (evaluate self x diff) (fun _ => True).
Proof. unfold evaluate. repeat safe_call. Qed.

Lemma safe_local_call_unchunked n x diff :
  safe n (call_unchunked x diff) (fun _ => True).
Proof.
  unfold call_unchunked. do 3 (safe_step; [safe_call|]).
  apply safe_local_evaluate.
Qed.

Lemma safe_local_call n x diff chunk_size :
  safe n (__call__ x diff chunk_size) (fun _ => True).
Proof.
  unfold __call__. do 3 (safe_step; [safe_call|]).
  destruct chunk_size as [c|]; [|apply safe_local_evaluate].
  safe_step; [safe_call|]. safe_step; [safe_call|].
  safe_step; [|safe_call].
  apply safe_for. intros i.
  safe_step; [apply safe_local_call_unchunked|]. safe_call.
Qed.

End FrameOfLocal.

(** ** What the calls return *)

Section Lists.
Context {A B C D : Type}.

Lemma zip_with_map_same (f : B -> C -> D) (g : A -> B) (h : A -> C) (l : list A) :
  zip_with f (map g l) (map h l) = map (fun a => f (g a) (h a)) l.
Proof. induction l as [|a l IH]; simpl; [reflexivity|]. rewrite IH. reflexivity. Qed.

End Lists.

Section RunPrimitives.
Context {F O : Type} {FF : Float64 F} {CC : Collaborators F}.
Implicit Types (w : world F O) (l : loc).

Lemma run_load_vec w l v :
  w_heap w !! l = Some (CVec v) -> load_vec l w = (w, inr v).
Proof. intros H. unfold load_vec, load, bind. rewrite H. reflexivity. Qed.

Lemma run_load_mat w l a :
  w_heap w !! l = Some (CMat a) -> load_mat l w = (w, inr a).
Proof. intros H. unfold load_mat, load, bind. rewrite H. reflexivity. Qed.

Lemma run_load_ten w l t :
  w_heap w !! l = Some (CTen t) -> load_ten l w = (w, inr t).
Proof. intros H. unfold load_ten, load, bind. rewrite H. reflexivity. Qed.

Lemma run_load_pow w l p :
  w_heap w !! l = Some (CPow p) -> load_pow l w = (w, inr p).
Proof. intros H. unfold load_pow, load, bind. rewrite H. reflexivity. Qed.

Lemma run_bind {A B} (m : Py F O A) (f : A -> Py F O B) w w' a :
  m w = (w', inr a) -> bind m f w = f a w'.
Proof. intros H. unfold bind. rewrite H. reflexivity. Qed.

Lemma run_bind_raise {A B} (m : Py F O A) (f : A -> Py F O B) w w' e :
  m w = (w', inl e) -> bind m f w = (w', inl e).
Proof. intros H. unfold bind. rewrite H. reflexivity. Qed.

Lemma bind_assoc {A B C} (m : Py F O A) (f : A -> Py F O B) (g : B -> Py F O C) w :
  bind (bind m f) g w = bind m (fun a => bind (f a) g) w.
Proof. unfold bind. destruct (m w) as [w' [e|a]]; reflexivity. Qed.

Lemma run_lift {A B} (r : result A) (f : A -> Py F O B) w :
  bind (lift r) f w = match r with inl e => (w, inl e) | inr a => f a w end.
Proof. destruct r; reflexivity. Qed.

Lemma lookup_insert_fresh (h ext : list (cell F)) l c c' :
  h !! l = Some c -> <[length h := c']> (h ++ ext) !! l = Some c.
Proof.
  intros Hl. pose proof (lookup_lt_Some _ _ _ Hl).
  rewrite list_lookup_insert_ne by lia. apply lookup_app_l_Some, Hl.
Qed.

Lemma run_setitem_slice_at s h lg out o start stop v o' :
  h !! out = Some (CVec o) ->
  setitem_slice o (Some start) (Some stop) v = inr o' ->
  setitem_slice_at out start stop v (World s h lg : world F O)
  = (World s (<[out := CVec o']> h) lg, inr tt).
Proof.
  intros Ho Hv. unfold setitem_slice_at.
  erewrite run_bind by (apply run_load_vec; exact Ho).
  unfold lift, bind, store. rewrite Hv. reflexivity.
Qed.

Lemma run_setitem_mask_at s h lg out o mask c o' :
  h !! out = Some (CVec o) ->
  setitem_mask o mask c = inr o' ->
  setitem_mask_at out mask c (World s h lg : world F O)
  = (World s (<[out := CVec o']> h) lg, inr tt).
Proof.
  intros Ho Hv. unfold setitem_mask_at.
  erewrite run_bind by (apply run_load_vec; exact Ho).
  unfold lift, bind, store. rewrite Hv. reflexivity.
Qed.

(** [_in_hull] leaves the heap alone; its value is [hull_test], point by
    point. *)
Lemma run_in_hull p hull s h lg :
  _in_hull p hull (World s h lg : world F O) =
    (World s h (lg ++ hull_events (ncols p) hull),
     match hull_test (ncols p) hull with
     | inl e => inl e
     | inr inside => inr (map inside (rows p))
     end).
Proof.
  unfold _in_hull, hull_test, hull_events.
  destruct (length (rows hull) <=? ncols p)%nat.
  { unfold ret. rewrite app_nil_r. do 2 f_equal.
    induction (rows p); simpl; congruence. }
  destruct (2 <=? ncols p)%nat.
  { unfold call_Delaunay. py_unfold. simpl.
    destruct (Delaunay_build hull); reflexivity. }
  py_unfold. simpl. rewrite app_nil_r.
  destruct (np_min hull) as [e|lo]; [reflexivity|].
  destruct (np_max hull) as [e|hi]; [reflexivity|].
  unfold column0. destruct (ncols p); [reflexivity|]. simpl.
  do 2 f_equal. rewrite !map_map. apply zip_with_map_same.
Qed.

End RunPrimitives.

(** Run the first call of a [bind] whose outcome is known. *)
Ltac run_with tac :=
  first [ erewrite run_bind by tac | erewrite run_bind_raise by tac ].

Ltac solve_lookup :=
  simpl;
  first [ eassumption
        | apply lookup_app_l_Some; eassumption
        | apply lookup_insert_fresh; eassumption
        | apply list_lookup_middle; reflexivity
        | apply list_lookup_insert_eq; rewrite ?length_app; simpl; lia ].

Ltac run_load :=
  first [ apply run_load_mat | apply run_load_vec
        | apply run_load_pow | apply run_load_ten ];
  solve_lookup.

Ltac run := run_with ltac:(first [ reflexivity | run_load ]); cbn [w_self w_heap w_log].

Section ValueOfGlobal.
Context {F : Type} {FF : Float64 F} {CC : Collaborators F}.
Import RBFInterpolant.

Lemma mask_outside (inside : list F -> bool) (u : list F -> F) (x : list (list F)) :
  setitem_mask (map u x) (map negb (map inside x)) Fnan
  = inr (map (fun xt => if inside xt then u xt else Fnan) x).
Proof.
  unfold setitem_mask. rewrite !length_map, Nat.eqb_refl. f_equal.
  rewrite map_map. rewrite zip_with_map_same.
  apply map_ext. intros xt. destruct (inside xt); reflexivity.
Qed.

Lemma evaluate_value self v w x diff :
  stored self v w ->
  (evaluate self x diff w).2 = batch_value self v diff (ncols x) (rows x).
Proof.
  destruct w as [s h lg].
  intros (Hself & Hy & Hpwr & Ha & Hb). simpl in *.
  unfold evaluate, batch_value.
  run. run. run. run. run. run. run.
  unfold vec_add, mat_dot. rewrite !map_map, zip_with_map_same.
  fold (unmasked self v diff).
  destruct (extrapolate self); simpl.
  - run. erewrite run_load_vec by solve_lookup. reflexivity.
  - rewrite bind_assoc. run. rewrite bind_assoc. unfold bind at 1. rewrite run_in_hull.
    destruct (hull_test (ncols x) (c_y v)) as [e|inside]; [reflexivity|].
    run_with ltac:(eapply run_setitem_mask_at; [solve_lookup | apply mask_outside]).
    erewrite run_load_vec by solve_lookup. reflexivity.
Qed.

End ValueOfGlobal.

Section ValueOfLocal.
Context {F : Type} {FF : Float64 F} {CC : Collaborators F}.
Import NearestRBFInterpolant.

Lemma local_evaluate_value self v w x diff :
  stored self v w ->
  (evaluate self x diff w).2 = batch_value self v diff (rows x).
Proof.
  destruct w as [s h lg].
  intros (Hself & Hy & Hd & Hs). simpl in *.
  unfold evaluate, batch_value, batch_stages.
  run. run.
  destruct (k self <? Z.of_nat (length (powers (order self) (ncols (c_y v)))));
    [reflexivity|].
  unfold call_query.
  destruct (KDTree_query_check (tree self) (k self)) as [e|]; [reflexivity|].
  run. rewrite run_lift.
  destruct (fancy_index _ _) as [e|ynbr]; [reflexivity|].
  run. run. run. rewrite run_lift.
  destruct (getitem_diag _ _) as [e|dg]; [reflexivity|].
  run. rewrite run_lift.
  destruct (fancy_index (c_sigma v) _) as [e|snbr]; [reflexivity|].
  run. run. run. run. rewrite run_lift.
  destruct (fancy_index (c_d v) _) as [e|dnbr]; [reflexivity|].
  unfold call_linalg_solve. rewrite bind_assoc. run. rewrite run_lift.
  destruct (mapE2 solve1 _ _) as [e|coeff]; [reflexivity|].
  run. run. reflexivity.
Qed.

(** With more monomials than neighbours the body stops at the check:
    [powers] is the one collaborator it has called. *)
Lemma local_evaluate_too_few self v s h lg x diff :
  stored self v (World s h lg) ->
  k self < Z.of_nat (length (powers (order self) (ncols (c_y v)))) ->
  evaluate self x diff (World s h lg)
  = (World s h (lg ++ [CallPowers]), inl (ValueError msg_order_neighbors)).
Proof.
  intros (Hself & Hy & Hd & Hs) Hk. simpl in *.
  unfold evaluate. run. run.
  apply Z.ltb_lt in Hk. rewrite Hk. reflexivity.
Qed.

End ValueOfLocal.

(** ** Rows are evaluated independently *)

(** A stage of the batch failed: on the head target or on the rest. *)
Ltac stage_fail :=
  cbn; split; [discriminate | intros (? & ? & ? & ? & ?); congruence].

Section RowwiseLocal.
Context {F : Type} {FF : Float64 F} {CC : Collaborators F}.
Import NearestRBFInterpolant.

Lemma setitem_diag_cons (Kt : list (list F)) K idx vt vals :
  setitem_diag (Kt :: K) idx (vt :: vals)
  = foldl (fun m iv => alter (fun row => <[iv.1 := iv.2]> row) iv.1 m) Kt (zip idx vt)
    :: setitem_diag K idx vals.
Proof. reflexivity. Qed.

Lemma batch_stages_nil self v diff : batch_stages self v diff [] = inr [].
Proof. reflexivity. Qed.

Lemma batch_stages_cons self v diff xt x r :
  batch_stages self v diff (xt :: x) = inr r <->
  exists a b, point_value self v diff xt = inr a
              /\ batch_stages self v diff x = inr b /\ r = a :: b.
Proof.
  unfold batch_stages, point_value, fancy_index, getitem_diag.
  cbn [map mapE].
  destruct (mapE (pick (rows (c_y v))) _) as [e|ynb]; [stage_fail|].
  destruct (mapE (mapE (pick (rows (c_y v)))) _) as [e|ynbr]; [stage_fail|].
  cbn [map mapE].
  destruct (mapE _ (seq 0 _)) as [e|dg0]; [stage_fail|].
  destruct (mapE _ (map _ ynbr)) as [e|dg]; [stage_fail|].
  destruct (mapE (pick (c_sigma v)) _) as [e|sn0]; [stage_fail|].
  destruct (mapE (mapE (pick (c_sigma v))) _) as [e|sn]; [stage_fail|].
  destruct (mapE (pick (c_d v)) _) as [e|dn0]; [stage_fail|].
  destruct (mapE (mapE (pick (c_d v))) _) as [e|dn]; [stage_fail|].
  cbn [map zip_with length replicate]. rewrite setitem_diag_cons.
  cbn [zip zip_with mapE2 fst snd].
  destruct (solve1 _ _) as [e|c0]; [stage_fail|].
  destruct (mapE2 solve1 _ _) as [e|cs]; [stage_fail|].
  cbn [map zip_with vec_add].
  split.
  - intros H. inversion H. eauto.
  - intros (a & b & Ha & Hb & ->). inversion Ha. inversion Hb. reflexivity.
Qed.

End RowwiseLocal.

Section RowwiseBatches.
Context {F : Type} {FF : Float64 F} {CC : Collaborators F}.

Lemma mapE_inr_app {A B} (f : A -> result B) l1 l2 v :
  mapE f (l1 ++ l2) = inr v <->
  exists v1 v2, mapE f l1 = inr v1 /\ mapE f l2 = inr v2 /\ v = v1 ++ v2.
Proof.
  rewrite mapE_app.
  destruct (mapE f l1) as [e|v1].
  { split; [discriminate|]. intros (? & ? & ? & _). discriminate. }
  destruct (mapE f l2) as [e|v2].
  { split; [discriminate|]. intros (? & ? & _ & ? & _). discriminate. }
  split.
  - intros H. inversion H. eauto.
  - intros (a & b & Ha & Hb & ->). inversion Ha. inversion Hb. reflexivity.
Qed.

Lemma rowwise_mapE (f : list F -> result F) : rowwise (mapE f).
Proof. split; [apply mapE_length | apply mapE_inr_app]. Qed.

Lemma rowwise_ext (b1 b2 : list (list F) -> result (list F)) :
  (forall l v, b1 l = inr v <-> b2 l = inr v) -> rowwise b1 -> rowwise b2.
Proof.
  intros Heq [Hlen Happ]. split.
  - intros l v Hv. apply Hlen, Heq, Hv.
  - intros l1 l2 v. rewrite <- Heq, Happ.
    split; intros (v1 & v2 & H1 & H2 & ->); exists v1, v2;
      (split; [apply Heq, H1 | split; [apply Heq, H2 | reflexivity]]).
Qed.

Lemma rowwise_fail (e : exn) : rowwise (fun _ : list (list F) => inl e).
Proof.
  split; [discriminate|]. intros l1 l2 v.
  split; [discriminate|]. intros (? & ? & ? & _). discriminate.
Qed.

(** The local interpolant: a batch succeeds exactly when every target
    point does, with the values of the points. *)
Lemma batch_stages_points self v diff x r :
  NearestRBFInterpolant.batch_stages self v diff x = inr r <->
  mapE (NearestRBFInterpolant.point_value self v diff) x = inr r.
Proof.
  revert r. induction x as [|xt x IH]; intros r.
  - rewrite batch_stages_nil. reflexivity.
  - rewrite batch_stages_cons. simpl.
    destruct (NearestRBFInterpolant.point_value self v diff xt) as [e|a].
    { split; [|discriminate]. intros (? & ? & ? & _). discriminate. }
    destruct (mapE _ x) as [e|b].
    { split; [|discriminate]. intros (? & b & _ & Hb & _).
      apply IH in Hb. discriminate. }
    split.
    + intros (a' & b' & Ha & Hb & ->). apply IH in Hb.
      inversion Ha. inversion Hb. reflexivity.
    + intros H. inversion H. exists a, b.
      split; [reflexivity|]. split; [apply IH|]; reflexivity.
Qed.

Lemma rowwise_local self v diff :
  rowwise (NearestRBFInterpolant.batch_value self v diff).
Proof.
  unfold NearestRBFInterpolant.batch_value.
  destruct (_ <? _); [apply rowwise_fail|].
  destruct (KDTree_query_check _ _); [apply rowwise_fail|].
  eapply rowwise_ext; [|apply rowwise_mapE].
  intros l r. symmetry. apply batch_stages_points.
Qed.

Lemma rowwise_total (g : list F -> F) :
  rowwise (fun x : list (list F) => inr (map g x)).
Proof.
  eapply rowwise_ext; [|apply (rowwise_mapE (fun xt => inr (g xt)))].
  intros l r. rewrite mapE_total. reflexivity.
Qed.

Lemma rowwise_global self v diff dim :
  rowwise (RBFInterpolant.batch_value self v diff dim).
Proof.
  unfold RBFInterpolant.batch_value.
  destruct (RBFInterpolant.extrapolate self).
  - apply rowwise_total.
  - destruct (hull_test _ _) as [e|inside]; [apply rowwise_fail|].
    apply (rowwise_total
             (fun xt => if inside xt
                        then RBFInterpolant.unmasked self v diff xt else Fnan)).
Qed.

End RowwiseBatches.

(** ** The chunking loop *)

Section Slices.
Context {A : Type}.
Implicit Types (l : list A) (i : nat) (c : Z).

(** A chunk that starts inside the sequence. *)
Lemma py_slice_chunk l i c :
  0 < c ->
  (i * Z.to_nat c < length l)%nat ->
  py_slice l (Some (Z.of_nat i * c)) (Some (Z.of_nat i * c + c))
  = take (Z.to_nat c) (drop (i * Z.to_nat c) l).
Proof.
  intros Hc Hi. unfold py_slice, slice_len, slice_start, slice_bound.
  assert (Ha : Z.of_nat i * c = Z.of_nat (i * Z.to_nat c)) by nia.
  rewrite Ha. set (a := (i * Z.to_nat c)%nat) in *.
  destruct (Z.ltb_spec (Z.of_nat a) 0) as [?|_]; [lia|].
  destruct (Z.ltb_spec (Z.of_nat a + c) 0) as [?|_]; [lia|].
  replace (Z.to_nat (Z.of_nat a `min` Z.of_nat (length l))) with a by lia.
  destruct (Z.le_ge_cases (Z.of_nat a + c) (Z.of_nat (length l))).
  - f_equal. lia.
  - rewrite !take_ge; [reflexivity| |]; rewrite length_drop; lia.
Qed.

Lemma slice_len_chunk l i c :
  0 < c ->
  (i * Z.to_nat c < length l)%nat ->
  slice_len l (Some (Z.of_nat i * c)) (Some (Z.of_nat i * c + c))
  = (Z.to_nat c `min` (length l - i * Z.to_nat c))%nat.
Proof.
  intros Hc Hi. unfold slice_len, slice_bound.
  assert (Ha : Z.of_nat i * c = Z.of_nat (i * Z.to_nat c)) by nia.
  rewrite Ha. set (a := (i * Z.to_nat c)%nat) in *.
  destruct (Z.ltb_spec (Z.of_nat a) 0) as [?|_]; [lia|].
  destruct (Z.ltb_spec (Z.of_nat a + c) 0) as [?|_]; [lia|].
  lia.
Qed.

Lemma slice_start_chunk l i c :
  0 < c ->
  (i * Z.to_nat c < length l)%nat ->
  slice_start l (Some (Z.of_nat i * c)) = (i * Z.to_nat c)%nat.
Proof.
  intros Hc Hi. unfold slice_start, slice_bound.
  assert (Ha : Z.of_nat i * c = Z.of_nat (i * Z.to_nat c)) by nia.
  rewrite Ha. set (a := (i * Z.to_nat c)%nat) in *.
  destruct (Z.ltb_spec (Z.of_nat a) 0) as [?|_]; lia.
Qed.

End Slices.

Section ChunkFold.
Context {F : Type} {FF : Float64 F}.
Implicit Types (x : list (list F)) (o v : list F) (i j m : nat).

Lemma setitem_slice_chunk o v i c :
  0 < c ->
  (i * Z.to_nat c < length o)%nat ->
  length v = (Z.to_nat c `min` (length o - i * Z.to_nat c))%nat ->
  setitem_slice o (Some (Z.of_nat i * c)) (Some (Z.of_nat i * c + c)) v
  = inr (take (i * Z.to_nat c) o ++ v ++ drop (i * Z.to_nat c + length v) o).
Proof.
  intros Hc Hi Hv. unfold setitem_slice.
  rewrite slice_len_chunk, slice_start_chunk by assumption.
  rewrite <- Hv, Nat.eqb_refl. reflexivity.
Qed.

Lemma py_range_chunks (P : nat) (c : Z) :
  0 < c ->
  exists n, py_range 0 (Z.of_nat P) c = inr (chunk_starts c 0 n)
            /\ (P <= n * Z.to_nat c)%nat
            /\ (n = 0%nat \/ (n * Z.to_nat c < P + Z.to_nat c)%nat).
Proof.
  intros Hc. unfold py_range.
  destruct (Z.eqb_spec c 0) as [?|_]; [lia|].
  destruct (Z.ltb_spec 0 c) as [_|?]; [|lia].
  exists (Z.to_nat ((Z.of_nat P - 0 + c - 1) / c)).
  split; [reflexivity|].
  pose proof (Z.div_mod (Z.of_nat P - 0 + c - 1) c ltac:(lia)) as Hdm.
  pose proof (Z.mod_pos_bound (Z.of_nat P - 0 + c - 1) c Hc) as Hmod.
  assert (0 <= (Z.of_nat P - 0 + c - 1) / c) by (apply Z.div_pos; lia).
  split; [nia|]. right. nia.
Qed.

Lemma chunk_starts_cons c j m :
  chunk_starts c j (S m) = (Z.of_nat j * c) :: chunk_starts c (S j) m.
Proof. reflexivity. Qed.

Lemma chunk_fold_ext (b1 b2 : list (list F) -> result (list F)) x c starts :
  (forall xs, b1 xs = b2 xs) ->
  forall o, chunk_fold b1 x c starts o = chunk_fold b2 x c starts o.
Proof.
  intros Heq. induction starts as [|start starts IH]; intros o; cbn; [reflexivity|].
  rewrite Heq. destruct (b2 _); [reflexivity|].
  destruct (setitem_slice _ _ _ _); [reflexivity|]. apply IH.
Qed.

Variable batch : list (list F) -> result (list F).
Hypothesis batch_rowwise : rowwise batch.

(** If the rest of the targets evaluates in one pass, the loop over the
    remaining chunks writes exactly that result behind what [out] holds. *)
Lemma chunk_fold_complete x (c : Z) m : forall j o v,
  0 < c ->
  length o = length x ->
  (length x <= (j + m) * Z.to_nat c)%nat ->
  (m = 0%nat \/ ((j + m) * Z.to_nat c < length x + Z.to_nat c)%nat) ->
  batch (drop (j * Z.to_nat c) x) = inr v ->
  chunk_fold batch x c (chunk_starts c j m) o
  = inr (take (j * Z.to_nat c) o ++ v).
Proof.
  destruct batch_rowwise as [Hlen Happ].
  induction m as [|m IH]; intros j o v Hc Ho Hcover Hlast Hv.
  - simpl. rewrite drop_ge in Hv by lia.
    apply Hlen in Hv. destruct v; [|discriminate].
    rewrite take_ge by lia. rewrite app_nil_r. reflexivity.
  - destruct Hlast as [?|Hlast]; [discriminate|].
    set (cn := Z.to_nat c) in *.
    assert (Hj : (j * cn < length x)%nat) by nia.
    rewrite chunk_starts_cons. cbn [chunk_fold].
    rewrite py_slice_chunk by assumption. fold cn.
    rewrite <- (take_drop cn (drop (j * cn) x)) in Hv.
    apply Happ in Hv. destruct Hv as (v1 & v2 & Hv1 & Hv2 & ->).
    rewrite Hv1.
    assert (Hl1 : length v1 = (cn `min` (length o - j * cn))%nat).
    { apply Hlen in Hv1. rewrite Hv1, length_take, length_drop. lia. }
    rewrite setitem_slice_chunk by first [assumption | rewrite Ho; assumption]. fold cn.
    rewrite drop_drop in Hv2.
    replace (j * cn + cn)%nat with (S j * cn)%nat in Hv2 by lia.
    erewrite IH; [|assumption| |lia| |exact Hv2].
    + assert (Hpre : length (take (j * cn) o ++ v1) = (j * cn + length v1)%nat).
      { rewrite length_app, length_take. lia. }
      assert (Hk : take (S j * cn) (take (j * cn) o ++ v1 ++ drop (j * cn + length v1) o)
                   = take (j * cn) o ++ v1).
      { rewrite app_assoc.
        destruct (Nat.le_gt_cases cn (length o - j * cn)).
        - rewrite take_app_le by lia. rewrite take_ge by lia. reflexivity.
        - rewrite (drop_ge o) by lia. rewrite app_nil_r.
          rewrite take_ge by lia. reflexivity. }
      rewrite Hk, <- app_assoc. reflexivity.
    + rewrite !length_app, length_take, length_drop. lia.
    + destruct m; [left; reflexivity|right]. lia.
Qed.

(** If the loop over at least one remaining chunk runs through, the rest
    of the targets evaluates in one pass, to what the loop wrote. *)
Lemma chunk_fold_sound x (c : Z) m : forall j o o',
  0 < c ->
  length o = length x ->
  (length x <= (j + S m) * Z.to_nat c)%nat ->
  ((j + S m) * Z.to_nat c < length x + Z.to_nat c)%nat ->
  chunk_fold batch x c (chunk_starts c j (S m)) o = inr o' ->
  batch (drop (j * Z.to_nat c) x) = inr (drop (j * Z.to_nat c) o')
  /\ take (j * Z.to_nat c) o' = take (j * Z.to_nat c) o
  /\ length o' = length x.
Proof.
  destruct batch_rowwise as [Hlen Happ].
  induction m as [|m IH]; intros j o o' Hc Ho Hcover Hlast Hrun;
    set (cn := Z.to_nat c) in *;
    assert (Hj : (j * cn < length x)%nat) by nia;
    rewrite chunk_starts_cons in Hrun; cbn [chunk_fold] in Hrun;
    rewrite py_slice_chunk in Hrun by assumption; fold cn in Hrun;
    destruct (batch (take cn (drop (j * cn) x))) as [e|v1] eqn:Hv1;
    try discriminate;
    assert (Hl1 : length v1 = (cn `min` (length o - j * cn))%nat)
      by (apply Hlen in Hv1; rewrite Hv1, length_take, length_drop; lia);
    rewrite setitem_slice_chunk in Hrun by first [assumption | rewrite Ho; assumption];
    fold cn in Hrun.
  - simpl in Hrun. inversion Hrun as [Ho']. clear Hrun.
    rewrite (drop_ge o) by lia. rewrite app_nil_r.
    assert (Hpre : length (take (j * cn) o) = (j * cn)%nat)
      by (rewrite length_take; lia).
    split; [|split].
    + rewrite drop_app_length' by (symmetry; assumption).
      rewrite take_ge in Hv1 by (rewrite length_drop; lia). exact Hv1.
    + rewrite take_app_length' by (symmetry; assumption). reflexivity.
    + rewrite length_app. lia.
  - apply IH in Hrun; [|assumption| |lia|lia].
    2:{ rewrite !length_app, length_take, length_drop. lia. }
    destruct Hrun as (Hrest & Htake & Hlen').
    assert (Hfull : length v1 = cn) by nia.
    assert (Hpre : length (take (j * cn) o) = (j * cn)%nat)
      by (rewrite length_take; lia).
    assert (Hhead : take (S j * cn) o' = take (j * cn) o ++ v1).
    { rewrite Htake. rewrite app_assoc.
      rewrite take_app_length'; [reflexivity|].
      rewrite length_app. lia. }
    assert (Hpre' : length (take (j * cn) o ++ v1) = (S j * cn)%nat)
      by (rewrite length_app; lia).
    split; [|split; [|assumption]].
    + rewrite <- (take_drop cn (drop (j * cn) x)).
      apply Happ. exists v1, (drop (S j * cn) o').
      split; [assumption|]. split.
      * rewrite drop_drop. replace (j * cn + cn)%nat with (S j * cn)%nat by lia.
        exact Hrest.
      * rewrite <- (take_drop (S j * cn) o') at 1.
        rewrite Hhead. rewrite <- app_assoc.
        rewrite drop_app_length' by (symmetry; assumption). reflexivity.
    + rewrite <- (take_drop (S j * cn) o') at 1.
      rewrite Hhead. rewrite <- app_assoc.
      rewrite take_app_length' by (symmetry; assumption). reflexivity.
Qed.

(** The loop over [range(0, len(x), c)], started on zeros, against one
    pass over [x]. *)
Lemma chunk_fold_range x (c : Z) :
  0 < c ->
  exists starts,
    py_range 0 (Z.of_nat (length x)) c = inr starts
    /\ (forall out, batch x = inr out ->
           chunk_fold batch x c starts (np_zeros (length x)) = inr out)
    /\ (x <> [] ->
        forall out, chunk_fold batch x c starts (np_zeros (length x)) = inr out ->
                    batch x = inr out).
Proof.
  intros Hc.
  destruct (py_range_chunks (length x) c Hc) as (n & Hrange & Hcover & Hlast).
  exists (chunk_starts c 0 n). split; [exact Hrange|].
  assert (Hzeros : length (np_zeros (length x)) = length x)
    by apply length_replicate.
  split.
  - intros out Hout.
    rewrite (chunk_fold_complete x c n 0 (np_zeros (length x)) out);
      [reflexivity|assumption|assumption|exact Hcover| |exact Hout].
    destruct Hlast as [->|Hlast]; [left; reflexivity|right; exact Hlast].
  - intros Hx out Hrun.
    destruct n as [|m].
    { destruct x; [congruence|]. cbn in Hcover. lia. }
    destruct Hlast as [?|Hlast]; [discriminate|].
    apply (chunk_fold_sound x c m 0 (np_zeros (length x)) out) in Hrun;
      [|assumption|assumption|exact Hcover|exact Hlast].
    destruct Hrun as (Hrun & _). exact Hrun.
Qed.

End ChunkFold.

(** ** The loop in the store *)

Section Loop.
Context {F O : Type} {FF : Float64 F} {CC : Collaborators F}.

(** The setting of one chunked call: [n0] cells existed when the call
    started, the invariant [I] speaks about them and about [self] only,
    and one unchunked call [Bm] returns [Bv] of its rows. *)
Variables (n0 : nat) (I : world F O -> Prop) (dim : nat).
Variables (Bm : array2 F -> Py F O (list F))
          (Bv : list (list F) -> result (list F)).
Hypothesis I_keeps : forall w w', I w -> keeps n0 w w' -> I w'.
Hypothesis Bm_safe : forall n a, safe n (Bm a) (fun _ => True).
Hypothesis Bm_value : forall w xs, I w -> (Bm (Arr2 dim xs) w).2 = Bv xs.

Lemma for_chunks (x : list (list F)) (c : Z) (out : loc) (starts : list Z) :
  (n0 <= out)%nat ->
  forall w o,
    I w ->
    w_heap w !! out = Some (CVec o) ->
    let body := fun start =>
      bind (Bm (slice2 (Arr2 dim x) (Some start) (Some (start + c))))
           (fun r => setitem_slice_at out start (start + c) r) in
    match chunk_fold Bv x c starts o with
    | inl e => (for_ starts body w).2 = inl e
    | inr o' =>
        (for_ starts body w).2 = inr tt
        /\ w_heap (for_ starts body w).1 !! out = Some (CVec o')
        /\ I (for_ starts body w).1
    end.
Proof.
  intros Hout. induction starts as [|start starts IH]; intros w o HI Ho body.
  - simpl. auto.
  - cbn [chunk_fold for_]. subst body. cbn beta.
    rewrite bind_assoc.
    pose proof (lookup_lt_Some _ _ _ Ho) as Hlt.
    pose proof (Bm_value w (py_slice x (Some start) (Some (start + c))) HI) as Hval.
    destruct (Bm_safe (length (w_heap w))
                (slice2 (Arr2 dim x) (Some start) (Some (start + c))) w
                (Nat.le_refl _)) as [Hk _].
    unfold slice2 in *. cbn [ncols rows] in *.
    destruct (Bm _ w) as [w1 r1] eqn:Hrun. cbn [fst snd] in *. subst r1.
    destruct (Bv (py_slice x (Some start) (Some (start + c)))) as [e|r].
    { erewrite run_bind_raise by exact Hrun. reflexivity. }
    erewrite run_bind by exact Hrun.
    assert (Ho1 : w_heap w1 !! out = Some (CVec o))
      by (rewrite (keeps_lookup _ _ _ _ Hk Hlt); exact Ho).
    assert (HI1 : I w1).
    { apply (I_keeps w); [assumption|]. eapply keeps_le; [|exact Hk]. lia. }
    destruct w1 as [s1 h1 lg1]. cbn [w_heap] in Ho1.
    destruct (setitem_slice o (Some start) (Some (start + c)) r) as [e|o1] eqn:Hset.
    { unfold setitem_slice_at.
      rewrite bind_assoc.
      erewrite run_bind by (apply run_load_vec; exact Ho1).
      rewrite bind_assoc, run_lift, Hset. reflexivity. }
    erewrite run_bind by (eapply run_setitem_slice_at; eassumption).
    apply IH.
    + apply (I_keeps _ _ HI1). repeat split; cbn.
      * apply take_insert_ge. assumption.
      * rewrite length_insert. lia.
    + cbn. apply list_lookup_insert_eq. eapply lookup_lt_Some. exact Ho1.
Qed.

End Loop.

(** ** The values of [__call__] *)

Section Ranges.

Lemma py_range_negative (P : nat) (c : Z) :
  c < 0 -> py_range 0 (Z.of_nat P) c = inr [].
Proof.
  intros Hc. unfold py_range.
  destruct (Z.eqb_spec c 0) as [?|_]; [lia|].
  destruct (Z.ltb_spec 0 c) as [?|_]; [lia|].
  replace (Z.to_nat ((0 - Z.of_nat P - c - 1) / - c)) with 0%nat; [reflexivity|].
  assert ((0 - Z.of_nat P - c - 1) / - c <= 0); [|lia].
  destruct (Z.le_gt_cases 0 (0 - Z.of_nat P - c - 1)).
  - rewrite Z.div_small by lia. lia.
  - assert ((0 - Z.of_nat P - c - 1) / - c < 0); [|lia].
    apply Z.div_lt_upper_bound; lia.
Qed.

Lemma py_range_empty (c : Z) : c <> 0 -> py_range 0 (Z.of_nat 0) c = inr [].
Proof.
  intros Hc. destruct (Z.lt_ge_cases c 0) as [Hneg|Hpos].
  - apply (py_range_negative 0 c Hneg).
  - unfold py_range.
    destruct (Z.eqb_spec c 0) as [?|_]; [lia|].
    destruct (Z.ltb_spec 0 c) as [_|?]; [|lia].
    replace ((Z.of_nat 0 - 0 + c - 1) / c) with 0; [reflexivity|].
    symmetry. apply Z.div_small. lia.
Qed.

End Ranges.

Section CallsOfGlobal.
Context {F : Type} {FF : Float64 F} {CC : Collaborators F}.
Import RBFInterpolant.

Lemma stored_prefix self v s h lg (w : world F t) :
  stored self v (World s h lg) ->
  w_self w = s ->
  take (length h) (w_heap w) = h ->
  stored self v w.
Proof.
  intros (Hself & Hy & Hp & Ha & Hb) Hs Ht. cbn in *.
  assert (Hlk : forall l c, h !! l = Some c -> w_heap w !! l = Some c).
  { intros l c Hl. rewrite <- Ht in Hl. apply lookup_take_Some in Hl. apply Hl. }
  repeat split; [congruence|apply Hlk; assumption..].
Qed.

Lemma shape_matches_x (x yv : array2 F) :
  shape_matches (shape2 x) [None; Some (ncols yv)] = Nat.eqb (ncols x) (ncols yv).
Proof. cbn. rewrite andb_true_r. reflexivity. Qed.

Lemma call_unchunked_value self v w x diff :
  stored self v w ->
  ncols x = ncols (c_y v) ->
  (call_unchunked x diff w).2 = batch_value self v diff (ncols x) (rows x).
Proof.
  intros Hst Hdim. pose proof Hst as (Hself & Hy & _).
  destruct w as [s h lg]. cbn in Hself, Hy. subst s.
  unfold call_unchunked. run. run.
  unfold assert_shape. rewrite shape_matches_x, (proj2 (Nat.eqb_eq _ _) Hdim).
  run. apply evaluate_value. exact Hst.
Qed.

(** A chunked call returns what the loop leaves in [out]. *)
Lemma call_chunked_value self v w x diff c starts :
  stored self v w ->
  ncols x = ncols (c_y v) ->
  py_range 0 (Z.of_nat (length (rows x))) c = inr starts ->
  (__call__ x diff (Some c) w).2
  = chunk_fold (batch_value self v diff (ncols x)) (rows x) c starts
      (np_zeros (length (rows x))).
Proof.
  intros Hst Hdim Hrange. pose proof Hst as (Hself & Hy & _).
  destruct w as [s h lg]. cbn in Hself, Hy. subst s.
  unfold __call__. run. run.
  unfold assert_shape. rewrite shape_matches_x, (proj2 (Nat.eqb_eq _ _) Hdim).
  run. run. rewrite run_lift, Hrange.
  set (w1 := World self (h ++ [CVec (np_zeros (length (rows x)))]) lg).
  pose proof (for_chunks (length h)
                (fun w => w_self w = self /\ take (length h) (w_heap w) = h)
                (ncols x) (fun a => call_unchunked a diff)
                (batch_value self v diff (ncols x))) as Hloop.
  destruct x as [D xs]. cbn [ncols rows] in *.
  specialize (Hloop
    ltac:(intros w w' [Hs Ht] (Hs' & Ht' & _); split; congruence)
    ltac:(intros; apply safe_call_unchunked)
    ltac:(intros w xs' [Hs Ht];
          apply (call_unchunked_value self v w (Arr2 D xs') diff);
          [eapply stored_prefix; eassumption | exact Hdim])
    xs c (length h) starts (Nat.le_refl _) w1 (np_zeros (length xs))
    ltac:(split; [reflexivity|]; cbn; rewrite take_app_length; reflexivity)
    ltac:(cbn; apply list_lookup_middle; reflexivity)).
  cbn zeta in Hloop. unfold slice2 in *. cbn [ncols rows] in *.
  unfold bind at 1.
  destruct (chunk_fold _ xs c starts _) as [e|o'].
  - destruct (for_ starts _ w1) as [w2 r2]. cbn in Hloop. subst r2. reflexivity.
  - destruct Hloop as (Hr & Ho & _).
    destruct (for_ starts _ w1) as [w2 r2]. cbn in Hr, Ho. subst r2.
    erewrite run_load_vec by exact Ho. reflexivity.
Qed.

(** With an empty range the call returns the zeros it allocated and
    makes no collaborator call. *)
Lemma call_empty_range self v s h lg x diff c :
  stored self v (World s h lg) ->
  ncols x = ncols (c_y v) ->
  py_range 0 (Z.of_nat (length (rows x))) c = inr [] ->
  __call__ x diff (Some c) (World s h lg)
  = (World s (h ++ [CVec (np_zeros (length (rows x)))]) lg,
     inr (np_zeros (length (rows x)))).
Proof.
  intros Hst Hdim Hrange. pose proof Hst as (Hself & Hy & _).
  cbn in Hself, Hy. subst s.
  unfold __call__. run. run.
  unfold assert_shape. rewrite shape_matches_x, (proj2 (Nat.eqb_eq _ _) Hdim).
  run. run. rewrite run_lift, Hrange. cbn [for_]. run.
  erewrite run_load_vec by solve_lookup. reflexivity.
Qed.

End CallsOfGlobal.

Section CallsOfLocal.
Context {F : Type} {FF : Float64 F} {CC : Collaborators F}.
Import NearestRBFInterpolant.

Lemma local_stored_prefix self v s h lg (w : world F t) :
  stored self v (World s h lg) ->
  w_self w = s ->
  take (length h) (w_heap w) = h ->
  stored self v w.
Proof.
  intros (Hself & Hy & Hd & Hs) Hw Ht. cbn in *.
  assert (Hlk : forall l c, h !! l = Some c -> w_heap w !! l = Some c).
  { intros l c Hl. rewrite <- Ht in Hl. apply lookup_take_Some in Hl. apply Hl. }
  repeat split; [congruence|apply Hlk; assumption..].
Qed.

Lemma local_call_unchunked_value self v w x diff :
  stored self v w ->
  ncols x = ncols (c_y v) ->
  (call_unchunked x diff w).2 = batch_value self v diff (rows x).
Proof.
  intros Hst Hdim. pose proof Hst as (Hself & Hy & _).
  destruct w as [s h lg]. cbn in Hself, Hy. subst s.
  unfold call_unchunked. run. run.
  unfold assert_shape. rewrite shape_matches_x, (proj2 (Nat.eqb_eq _ _) Hdim).
  run. apply local_evaluate_value. exact Hst.
Qed.

(** With more monomials than neighbours an unchunked call stops at the
    check, after [powers] and before the tree is queried. *)
Lemma local_call_unchunked_too_few self v s h lg x diff :
  stored self v (World s h lg) ->
  ncols x = ncols (c_y v) ->
  k self < Z.of_nat (length (powers (order self) (ncols (c_y v)))) ->
  call_unchunked x diff (World s h lg)
  = (World s h (lg ++ [CallPowers]), inl (ValueError msg_order_neighbors)).
Proof.
  intros Hst Hdim Hk. pose proof Hst as (Hself & Hy & _).
  cbn in Hself, Hy. subst s.
  unfold call_unchunked. run. run.
  unfold assert_shape. rewrite shape_matches_x, (proj2 (Nat.eqb_eq _ _) Hdim).
  run. eapply local_evaluate_too_few; eassumption.
Qed.

(** A chunked call returns what the loop leaves in [out]. *)
Lemma local_call_chunked_value self v w x diff c starts :
  stored self v w ->
  ncols x = ncols (c_y v) ->
  py_range 0 (Z.of_nat (length (rows x))) c = inr starts ->
  (__call__ x diff (Some c) w).2
  = chunk_fold (batch_value self v diff) (rows x) c starts
      (np_zeros (length (rows x))).
Proof.
  intros Hst Hdim Hrange. pose proof Hst as (Hself & Hy & _).
  destruct w as [s h lg]. cbn in Hself, Hy. subst s.
  unfold __call__. run. run.
  unfold assert_shape. rewrite shape_matches_x, (proj2 (Nat.eqb_eq _ _) Hdim).
  run. run. rewrite run_lift, Hrange.
  set (w1 := World self (h ++ [CVec (np_zeros (length (rows x)))]) lg).
  pose proof (for_chunks (length h)
                (fun w => w_self w = self /\ take (length h) (w_heap w) = h)
                (ncols x) (fun a => call_unchunked a diff)
                (batch_value self v diff)) as Hloop.
  destruct x as [D xs]. cbn [ncols rows] in *.
  specialize (Hloop
    ltac:(intros w w' [Hs Ht] (Hs' & Ht' & _); split; congruence)
    ltac:(intros; apply safe_local_call_unchunked)
    ltac:(intros w xs' [Hs Ht];
          apply (local_call_unchunked_value self v w (Arr2 D xs') diff);
          [eapply local_stored_prefix; eassumption | exact Hdim])
    xs c (length h) starts (Nat.le_refl _) w1 (np_zeros (length xs))
    ltac:(split; [reflexivity|]; cbn; rewrite take_app_length; reflexivity)
    ltac:(cbn; apply list_lookup_middle; reflexivity)).
  cbn zeta in Hloop. unfold slice2 in *. cbn [ncols rows] in *.
  unfold bind at 1.
  destruct (chunk_fold _ xs c starts _) as [e|o'].
  - destruct (for_ starts _ w1) as [w2 r2]. cbn in Hloop. subst r2. reflexivity.
  - destruct Hloop as (Hr & Ho & _).
    destruct (for_ starts _ w1) as [w2 r2]. cbn in Hr, Ho. subst r2.
    erewrite run_load_vec by exact Ho. reflexivity.
Qed.

(** With an empty range the call returns the zeros it allocated and
    makes no collaborator call. *)
Lemma local_call_empty_range self v s h lg x diff c :
  stored self v (World s h lg) ->
  ncols x = ncols (c_y v) ->
  py_range 0 (Z.of_nat (length (rows x))) c = inr [] ->
  __call__ x diff (Some c) (World s h lg)
  = (World s (h ++ [CVec (np_zeros (length (rows x)))]) lg,
     inr (np_zeros (length (rows x)))).
Proof.
  intros Hst Hdim Hrange. pose proof Hst as (Hself & Hy & _).
  cbn in Hself, Hy. subst s.
  unfold __call__. run. run.
  unfold assert_shape. rewrite shape_matches_x, (proj2 (Nat.eqb_eq _ _) Hdim).
  run. run. rewrite run_lift, Hrange. cbn [for_]. run.
  erewrite run_load_vec by solve_lookup. reflexivity.
Qed.

(** With more monomials than neighbours, a chunked call on at least one
    target stops in its first chunk. *)
Lemma local_call_chunked_too_few self v s h lg x diff c :
  stored self v (World s h lg) ->
  ncols x = ncols (c_y v) ->
  k self < Z.of_nat (length (powers (order self) (ncols (c_y v)))) ->
  0 < c ->
  rows x <> [] ->
  __call__ x diff (Some c) (World s h lg)
  = (World s (h ++ [CVec (np_zeros (length (rows x)))]) (lg ++ [CallPowers]),
     inl (ValueError msg_order_neighbors)).
Proof.
  intros Hst Hdim Hk Hc Hx. pose proof Hst as (Hself & Hy & _).
  cbn in Hself, Hy. subst s.
  destruct (py_range_chunks (length (rows x)) c Hc) as (n & Hrange & Hcover & _).
  destruct n as [|n].
  { destruct (rows x); [congruence|]. cbn in Hcover. lia. }
  unfold __call__. run. run.
  unfold assert_shape. rewrite shape_matches_x, (proj2 (Nat.eqb_eq _ _) Hdim).
  run. run. rewrite run_lift, Hrange.
  rewrite chunk_starts_cons. cbn [for_].
  rewrite !bind_assoc.
  erewrite run_bind_raise; [reflexivity|].
  eapply local_call_unchunked_too_few; [|exact Hdim|exact Hk].
  eapply local_stored_prefix; [exact Hst|reflexivity|].
  cbn. rewrite take_app_length. reflexivity.
Qed.

End CallsOfLocal.

(** ** Construction *)

Section Construction.
Context {F O : Type} {FF : Float64 F} {CC : Collaborators F}.

Lemma shape_matches_any (y : array2 F) :
  shape_matches (shape2 y) [None; None] = true.
Proof. reflexivity. Qed.

Lemma shape_matches_len {A} (d : list A) (n : nat) :
  shape_matches (shape1 d) [Some n] = Nat.eqb (length d) n.
Proof. cbn. apply andb_true_r. Qed.

(** With more monomials than observations, [RBFInterpolant.__init__]
    stops at the check, whatever the other arguments are: it has called
    the kernel and [powers], and nothing else. *)
Lemma global_init_too_few (s : O) h lg y d sigma eps phi order extrapolate rbf :
  length d = length (rows y) ->
  sigma_fits sigma (length (rows y)) ->
  get_rbf phi = inr rbf ->
  (length (rows y) < length (powers order (ncols y)))%nat ->
  RBFInterpolant.__init__ y d sigma eps phi order extrapolate (World s h lg)
  = (World s ((h ++ [CMat y]) ++ [CPow (powers order (ncols y))])
       ((lg ++ [CallRBF]) ++ [CallPowers]),
     inl (ValueError msg_order_observations)).
Proof.
  intros Hd Hs Hphi HM.
  unfold RBFInterpolant.__init__, assert_shape.
  run. rewrite shape_matches_any. run.
  rewrite shape_matches_len, (proj2 (Nat.eqb_eq _ _) Hd). run.
  destruct sigma as [sg|sg]; cbn in Hs.
  - run. rewrite run_lift, Hphi. run. run. run.
    rewrite (proj2 (Nat.ltb_lt _ _) HM). reflexivity.
  - rewrite shape_matches_len, (proj2 (Nat.eqb_eq _ _) Hs).
    rewrite bind_assoc. run. run. rewrite run_lift, Hphi. run. run. run.
    rewrite (proj2 (Nat.ltb_lt _ _) HM). reflexivity.
Qed.

(** Whatever the arguments, a construction with more monomials than
    observations raises, and never reaches the solver. *)
Lemma global_init_never_solves (w : world F O) y d sigma eps phi order extrapolate :
  (length (rows y) < length (powers order (ncols y)))%nat ->
  let run := RBFInterpolant.__init__ y d sigma eps phi order extrapolate w in
  (exists e, run.2 = inl e) /\ CallPartitionedSolver ∉ log_since w run.1.
Proof.
  intros HM. destruct w as [s h lg].
  assert (Hnil : CallPartitionedSolver ∉ drop (length lg) lg).
  { rewrite drop_all. apply not_elem_of_nil. }
  unfold RBFInterpolant.__init__, assert_shape, log_since.
  run. rewrite shape_matches_any. run.
  rewrite shape_matches_len.
  destruct (Nat.eqb (length d) (length (rows y))) eqn:Hd.
  2:{ cbn. eauto. }
  run.
  assert (Htail : forall sv,
    let run := bind (lift (get_rbf phi)) (fun phi0 =>
      bind (call_rbf phi0 eps None (rows y) (rows y)) (fun K =>
      bind (call_powers order (ncols y)) (fun pwr =>
      bind (alloc (CPow pwr)) (fun lpwr =>
        if (length (rows y) <? length pwr)%nat
        then raise (ValueError msg_order_observations)
        else
          bind (call_mvmonos (rows y) pwr None) (fun P =>
          bind (call_solve (add_diag K (np_square sv)) P d (np_zeros (length pwr)))
            (fun coeff =>
          bind (alloc (CVec coeff.1)) (fun lphi =>
          bind (alloc (CVec coeff.2)) (fun lpoly =>
            ret (RBFInterpolant.Build (length h) phi0 order eps lphi lpoly
                   lpwr extrapolate)))))))))
      (World s (h ++ [CMat y]) lg) in
    (exists e, run.2 = inl e)
    /\ CallPartitionedSolver ∉ drop (length lg) (w_log run.1)).
  { intros sv. cbn zeta. rewrite run_lift.
    destruct (get_rbf phi) as [e|rbf]; [cbn; eauto|].
    run. run. run. rewrite (proj2 (Nat.ltb_lt _ _) HM). cbn.
    split; [eauto|].
    rewrite <- app_assoc, drop_app_length. cbn.
    intros Hin. repeat (apply elem_of_cons in Hin as [Hin|Hin]; [discriminate|]).
    apply elem_of_nil in Hin. exact Hin. }
  destruct sigma as [sg|sg].
  - run. apply Htail.
  - rewrite shape_matches_len.
    destruct (Nat.eqb (length sg) (length (rows y))) eqn:Hs.
    + rewrite bind_assoc. run. run. apply Htail.
    + cbn. eauto.
Qed.

(** [NearestRBFInterpolant.__init__] on well-shaped arguments: it stores
    the three arrays, resolves the kernel, and either rejects it or builds
    the tree.  The polynomial order and [k] play no role. *)
Lemma local_init_run (s : O) h lg y d sigma k eps phi order rbf :
  length d = length (rows y) ->
  sigma_fits sigma (length (rows y)) ->
  get_rbf phi = inr rbf ->
  NearestRBFInterpolant.__init__ y d sigma k eps phi order (World s h lg)
  = let heap := ((h ++ [CMat y]) ++ [CVec d])
                ++ [CVec (sigma_vector sigma (length (rows y)))] in
    if is_SparseRBF rbf
    then (World s heap lg, inl (ValueError msg_sparse))
    else (World s heap (lg ++ [CallKDTree]),
          inr (NearestRBFInterpolant.Build (length h) (S (length h)) (S (S (length h)))
                 k eps rbf order (KDTree_build y))).
Proof.
  intros Hd Hs Hphi.
  unfold NearestRBFInterpolant.__init__, assert_shape.
  run. rewrite shape_matches_any. run. run.
  rewrite shape_matches_len, (proj2 (Nat.eqb_eq _ _) Hd). run.
  assert (Hl1 : length (h ++ [CMat y]) = S (length h))
    by (rewrite length_app; cbn; lia).
  assert (Hl2 : length ((h ++ [CMat y]) ++ [CVec d]) = S (S (length h)))
    by (rewrite !length_app; cbn; lia).
  destruct sigma as [sg|sg]; cbn in Hs; cbn [sigma_vector].
  - run. run. rewrite run_lift, Hphi. cbn zeta.
    destruct (is_SparseRBF rbf); [reflexivity|].
    run. rewrite Hl1, Hl2. reflexivity.
  - rewrite shape_matches_len, (proj2 (Nat.eqb_eq _ _) Hs).
    rewrite bind_assoc. run. run. run. rewrite run_lift, Hphi. cbn zeta.
    destruct (is_SparseRBF rbf); [reflexivity|].
    run. rewrite Hl1, Hl2. reflexivity.
Qed.

(** Whatever the shapes of the other arguments, a kernel of the sparse
    family never gets a tree: the constructor raises without having
    called any collaborator. *)
Lemma local_init_sparse_never_builds (w : world F O) y d sigma k eps phi order rbf :
  get_rbf phi = inr rbf ->
  is_SparseRBF rbf = true ->
  let run := NearestRBFInterpolant.__init__ y d sigma k eps phi order w in
  (exists e, run.2 = inl e) /\ log_since w run.1 = [].
Proof.
  intros Hphi Hsparse. destruct w as [s h lg].
  unfold NearestRBFInterpolant.__init__, assert_shape, log_since.
  run. rewrite shape_matches_any. run. run.
  rewrite shape_matches_len.
  destruct (Nat.eqb (length d) (length (rows y))).
  2:{ cbn. split; [eauto|apply drop_all]. }
  run. destruct sigma as [sg|sg].
  - run. run. rewrite run_lift, Hphi. rewrite Hsparse. cbn.
    split; [eauto|apply drop_all].
  - rewrite shape_matches_len.
    destruct (Nat.eqb (length sg) (length (rows y))).
    + rewrite bind_assoc. run. run. run. rewrite run_lift, Hphi. rewrite Hsparse. cbn.
      split; [eauto|apply drop_all].
    + cbn. split; [eauto|apply drop_all].
Qed.

End Construction.

(** * The claims *)

Section SanityChecks.
Import Reference.
Local Open Scope float_scope.

(** [range] and slices, as Python evaluates them. *)
Example range_uneven : py_range 0 5 2 = inr [0; 2; 4]%Z.
Proof. reflexivity. Qed.

Example range_backwards : py_range 0 5 (-2) = inr [].
Proof. reflexivity. Qed.

Example range_zero_step :
  py_range 0 5 0 = inl (ValueError "range() arg 3 must not be zero").
Proof. reflexivity. Qed.

Example slice_past_the_end :
  py_slice [10; 11; 12; 13; 14]%Z (Some 4%Z) (Some 6%Z) = [14]%Z.
Proof. reflexivity. Qed.

Example slice_from_the_end :
  py_slice [10; 11; 12; 13; 14]%Z (Some (-2)%Z) None = [13; 14]%Z.
Proof. reflexivity. Qed.

Example setitem_last_chunk :
  setitem_slice [0; 0; 0; 0; 0] (Some 4%Z) (Some 6%Z) [7] = inr [0; 0; 0; 0; 7].
Proof. reflexivity. Qed.

(** The shape validation comes first: a value vector of the wrong length
    is rejected as such, also when the order is too high for the
    observations. *)
Example global_construction_validates_first :
  (run_from_scratch
     (RBFInterpolant.__init__ (Arr2 1 [[0]]) [1; 2] (SigmaScalar 0) (EpsScalar 1)
        (inl "phs3"%string) 1 true)).2
  = inl (ShapeMismatchError "d").
Proof. reflexivity. Qed.

(** The reference worlds are what the constructors build. *)
Example global_world_constructed :
  run_from_scratch (RBFInterpolant.__init__ y012 d012 (SigmaScalar 0)
                      (EpsScalar 1) (inl "phs3"%string) 1 false)
  = (World tt global_heap (w_log global_world), inr global_self).
Proof. vm_compute. reflexivity. Qed.

Example local_world_constructed k :
  run_from_scratch (NearestRBFInterpolant.__init__ y012 d012 (SigmaScalar 0) k
                      (EpsScalar 1) (inl "phs3"%string) 1)
  = (World tt local_heap (w_log (local_world k)), inr (local_self k)).
Proof. reflexivity. Qed.

(** The scenario of the specification: the interpolant of the identity
    is the identity. *)
Example global_identity :
  (RBFInterpolant.__call__ (Arr2 1 [[0.5]; [1.5]]) None (Some 1000%Z) global_world).2
  = inr [0.5; 1.5].
Proof. vm_compute. reflexivity. Qed.

Example local_identity :
  (NearestRBFInterpolant.__call__ (Arr2 1 [[0.5]; [1.5]]) None (Some 100%Z)
     (local_world 3)).2
  = inr [0.5; 1.5].
Proof. vm_compute. reflexivity. Qed.

End SanityChecks.

Section ClaimsOnConstruction.
Context {F O : Type} {FF : Float64 F} {CC : Collaborators F}.

(** C1.  A global interpolant whose polynomial order asks for more
    monomials than there are observations is not constructed: the
    constructor raises and the saddle-point system is never handed to the
    solver.  On an observation set that passes the shape validation, with
    a kernel that resolves, the exception is the insufficient-data error
    of the source, raised after the kernel matrix and the exponents have
    been computed. *)
Theorem global_construction_insufficient_data
    (w : world F O) y d sigma eps phi order extrapolate :
  (length (rows y) < length (powers order (ncols y)))%nat ->
  let run := RBFInterpolant.__init__ y d sigma eps phi order extrapolate w in
  ((exists e, run.2 = inl e) /\ CallPartitionedSolver ∉ log_since w run.1)
  /\ (length d = length (rows y) ->
      sigma_fits sigma (length (rows y)) ->
      (exists rbf, get_rbf phi = inr rbf) ->
      run.2 = inl (ValueError msg_order_observations)
      /\ InsufficientDataError (ValueError msg_order_observations)
      /\ log_since w run.1 = [CallRBF; CallPowers]).
Proof.
  intros HM run. split.
  - apply global_init_never_solves. exact HM.
  - intros Hd Hs [rbf Hphi]. subst run. destruct w as [s h lg].
    rewrite (global_init_too_few s h lg y d sigma eps phi order extrapolate rbf)
      by assumption.
    split; [reflexivity|]. split; [left; reflexivity|].
    unfold log_since. cbn. rewrite <- app_assoc. apply drop_app_length.
Qed.

(** C3 (amended).  Constructing a local interpolant never compares the
    monomial count with [k]: on well-shaped observations and a kernel
    outside the sparse family the constructor returns an interpolant
    after building the tree, without calling [powers], for every [k] and
    every order.  When the monomial count exceeds [k], it is the
    evaluation of that interpolant that raises the insufficient-data
    error: without chunking on every target set, with a positive chunk
    size on every non-empty one. *)
Theorem local_construction_defers_order_check
    (s : O) h lg y d sigma k eps phi order rbf :
  length d = length (rows y) ->
  sigma_fits sigma (length (rows y)) ->
  get_rbf phi = inr rbf ->
  is_SparseRBF rbf = false ->
  let run := NearestRBFInterpolant.__init__ y d sigma k eps phi order (World s h lg) in
  exists self,
    run.2 = inr self
    /\ log_since (World s h lg) run.1 = [CallKDTree]
    /\ (k < Z.of_nat (length (powers order (ncols y))) ->
        forall x diff chunk_size,
          ncols x = ncols y ->
          chunk_size = None
          \/ (exists c, chunk_size = Some c /\ 0 < c /\ rows x <> []) ->
          exists e,
            (NearestRBFInterpolant.__call__ x diff chunk_size
               (World self (w_heap run.1) (w_log run.1))).2 = inl e
            /\ InsufficientDataError e).
Proof.
  intros Hd Hs Hphi Hdense run. subst run.
  rewrite (local_init_run s h lg y d sigma k eps phi order rbf) by assumption.
  cbn zeta. rewrite Hdense. cbn [fst snd w_heap w_log].
  eexists. split; [reflexivity|]. split.
  { unfold log_since. cbn. apply drop_app_length. }
  intros Hk x diff chunk_size Hdim Hcs.
  set (self := NearestRBFInterpolant.Build _ _ _ _ _ _ _ _).
  set (v := NearestRBFInterpolant.Contents y d (sigma_vector sigma (length (rows y)))).
  assert (Hst : NearestRBFInterpolant.stored self v
                  (World self (((h ++ [CMat y]) ++ [CVec d])
                               ++ [CVec (sigma_vector sigma (length (rows y)))])
                     (lg ++ [CallKDTree]))).
  { repeat split; cbn.
    - rewrite <- !app_assoc. apply list_lookup_middle. reflexivity.
    - rewrite lookup_app_l by (rewrite !length_app; cbn; lia).
      apply list_lookup_middle. rewrite length_app. cbn. lia.
    - apply list_lookup_middle. rewrite !length_app. cbn. lia. }
  exists (ValueError msg_order_neighbors). split; [|right; reflexivity].
  destruct Hcs as [->|(c & -> & Hc & Hx)].
  - change (NearestRBFInterpolant.__call__ x diff None)
      with (NearestRBFInterpolant.call_unchunked x diff).
    erewrite local_call_unchunked_too_few; [reflexivity|exact Hst|exact Hdim|exact Hk].
  - erewrite local_call_chunked_too_few;
      [reflexivity|exact Hst|exact Hdim|exact Hk|exact Hc|exact Hx].
Qed.

(** C4.  A kernel of the sparse-support family never makes a local
    interpolant: the constructor raises before any spatial index is built.
    On well-shaped observations the exception is the configuration error
    of the source; with any other kernel the check passes and the
    constructor goes on to build the index over the observation points,
    which the interpolant keeps. *)
Theorem local_construction_sparse_kernel
    (w : world F O) y d sigma k eps phi order rbf :
  get_rbf phi = inr rbf ->
  let run := NearestRBFInterpolant.__init__ y d sigma k eps phi order w in
  (is_SparseRBF rbf = true ->
   (exists e, run.2 = inl e) /\ CallKDTree ∉ log_since w run.1)
  /\ (length d = length (rows y) ->
      sigma_fits sigma (length (rows y)) ->
      if is_SparseRBF rbf then
        run.2 = inl (ValueError msg_sparse)
        /\ ConfigurationError (ValueError msg_sparse)
        /\ log_since w run.1 = []
      else
        exists self,
          run.2 = inr self
          /\ NearestRBFInterpolant.tree self = KDTree_build y
          /\ log_since w run.1 = [CallKDTree]).
Proof.
  intros Hphi run. split.
  - intros Hsparse.
    destruct (local_init_sparse_never_builds w y d sigma k eps phi order rbf
                Hphi Hsparse) as [He Hlog].
    split; [exact He|]. fold run in Hlog. rewrite Hlog. apply not_elem_of_nil.
  - intros Hd Hs. subst run. destruct w as [s h lg].
    rewrite (local_init_run s h lg y d sigma k eps phi order rbf) by assumption.
    cbn zeta. destruct (is_SparseRBF rbf); cbn [fst snd].
    + split; [reflexivity|]. split; [reflexivity|].
      unfold log_since. cbn. apply drop_all.
    + eexists. split; [reflexivity|]. split; [reflexivity|].
      unfold log_since. cbn. apply drop_app_length.
Qed.

End ClaimsOnConstruction.

Section WitnessesOnConstruction.
Import Reference.
Local Open Scope float_scope.

(** One observation and a linear polynomial: two monomials. *)
Lemma global_construction_insufficient_data_witness :
  (run_from_scratch
     (RBFInterpolant.__init__ (Arr2 1 [[0]]) [1] (SigmaScalar 0) (EpsScalar 1)
        (inl "phs3"%string) 1 true)).2
  = inl (ValueError msg_order_observations).
Proof.
  refine (proj1 (proj2 (global_construction_insufficient_data (CC := collaborators)
                          (World tt [] []) (Arr2 1 [[0]]) [1] (SigmaScalar 0)
                          (EpsScalar 1) (inl "phs3"%string) 1 true _) _ _ _)).
  - vm_compute. lia.
  - reflexivity.
  - exact Logic.I.
  - exists phs3. reflexivity.
Defined.

(** C3, as stated, fails: three observations, one neighbour and a linear
    polynomial (two monomials) construct without an error. *)
Lemma local_construction_accepts_small_k :
  (1 < Z.of_nat (length (powers 1 (ncols y012))))%Z
  /\ (run_from_scratch
        (NearestRBFInterpolant.__init__ y012 d012 (SigmaScalar 0) 1 (EpsScalar 1)
           (inl "phs3"%string) 1)).2 = inr (local_self 1)
  /\ ~ exists e,
         (run_from_scratch
            (NearestRBFInterpolant.__init__ y012 d012 (SigmaScalar 0) 1 (EpsScalar 1)
               (inl "phs3"%string) 1)).2 = inl e
         /\ InsufficientDataError e.
Proof.
  split; [vm_compute; reflexivity|]. split; [reflexivity|].
  intros (e & He & _). discriminate He.
Qed.

Lemma local_construction_defers_order_check_witness :
  exists e,
    (NearestRBFInterpolant.__call__ (Arr2 1 [[0.5]]) None (Some 100%Z)
       (local_world 1)).2 = inl e
    /\ InsufficientDataError e.
Proof.
  destruct (local_construction_defers_order_check (CC := collaborators)
              tt [] [] y012 d012 (SigmaScalar 0) 1%Z (EpsScalar 1)
              (inl "phs3"%string) 1%Z phs3
              eq_refl Logic.I eq_refl eq_refl) as (self & Hself & _ & Hcall).
  injection Hself as <-.
  apply (Hcall ltac:(vm_compute; reflexivity) (Arr2 1 [[0.5]]) None (Some 100%Z) eq_refl).
  right. exists 100%Z. split; [reflexivity|]. split; [lia|discriminate].
Defined.

Lemma local_construction_sparse_kernel_witness :
  (run_from_scratch
     (NearestRBFInterpolant.__init__ y012 d012 (SigmaScalar 0) 20 (EpsScalar 1)
        (inl "spwen12"%string) 1)).2
  = inl (ValueError msg_sparse).
Proof.
  exact (proj1 (proj2 (local_construction_sparse_kernel (CC := collaborators)
                         (World tt [] []) y012 d012 (SigmaScalar 0) 20%Z (EpsScalar 1)
                         (inl "spwen12"%string) 1%Z spwen12 eq_refl)
                  eq_refl Logic.I)).
Defined.

End WitnessesOnConstruction.

(** ** Least and greatest observation *)

(** The comparison of the floats restricted to the entries [ys] of the
    observation points: none of them is nan, and on them [<=] is
    reflexive, transitive and total. *)
Section OrderedEntries.
Context {F : Type} {FF : Float64 F}.
Variable ys : list F.
Hypothesis ys_numbers : Forall (fun a => Fisnan a = false /\ Fle a a = true) ys.
Hypothesis ys_trans :
  forall a b c, a ∈ ys -> b ∈ ys -> c ∈ ys ->
                Fle a b = true -> Fle b c = true -> Fle a c = true.
Hypothesis ys_total :
  forall a b, a ∈ ys -> b ∈ ys -> Fle a b = true \/ Fle b a = true.

Lemma np_minimum_lower (a b : F) :
  a ∈ ys -> b ∈ ys ->
  np_minimum a b ∈ ys
  /\ Fle (np_minimum a b) a = true /\ Fle (np_minimum a b) b = true.
Proof.
  intros Ha Hb. unfold np_minimum.
  destruct (proj1 (Forall_forall _ _) ys_numbers a Ha) as [-> Haa].
  destruct (proj1 (Forall_forall _ _) ys_numbers b Hb) as [_ Hbb].
  cbn. destruct (Fle a b) eqn:Hab; [auto|].
  destruct (ys_total a b Ha Hb) as [H|H]; [congruence|auto].
Qed.

Lemma np_maximum_upper (a b : F) :
  a ∈ ys -> b ∈ ys ->
  np_maximum a b ∈ ys
  /\ Fle a (np_maximum a b) = true /\ Fle b (np_maximum a b) = true.
Proof.
  intros Ha Hb. unfold np_maximum.
  destruct (proj1 (Forall_forall _ _) ys_numbers a Ha) as [-> Haa].
  destruct (proj1 (Forall_forall _ _) ys_numbers b Hb) as [_ Hbb].
  cbn. destruct (Fle b a) eqn:Hba; [auto|].
  destruct (ys_total a b Ha Hb) as [H|H]; [auto|congruence].
Qed.

Lemma foldl_np_minimum_lower (t : list F) : forall x,
  x ∈ ys -> Forall (fun v => v ∈ ys) t ->
  let lo := foldl np_minimum x t in
  lo ∈ ys /\ Fle lo x = true /\ Forall (fun v => Fle lo v = true) t.
Proof.
  induction t as [|b t IH]; intros x Hx Ht; cbn.
  - split; [exact Hx|]. split; [|constructor].
    apply (proj1 (Forall_forall _ _) ys_numbers x Hx).
  - inversion Ht as [|? ? Hb Ht']; subst.
    destruct (np_minimum_lower x b Hx Hb) as (Hm & Hmx & Hmb).
    destruct (IH (np_minimum x b) Hm Ht') as (Hlo & Hlom & Hlot).
    split; [exact Hlo|]. split; [|constructor; [|exact Hlot]].
    + apply (ys_trans _ (np_minimum x b)); assumption.
    + apply (ys_trans _ (np_minimum x b)); assumption.
Qed.

Lemma foldl_np_maximum_upper (t : list F) : forall x,
  x ∈ ys -> Forall (fun v => v ∈ ys) t ->
  let hi := foldl np_maximum x t in
  hi ∈ ys /\ Fle x hi = true /\ Forall (fun v => Fle v hi = true) t.
Proof.
  induction t as [|b t IH]; intros x Hx Ht; cbn.
  - split; [exact Hx|]. split; [|constructor].
    apply (proj1 (Forall_forall _ _) ys_numbers x Hx).
  - inversion Ht as [|? ? Hb Ht']; subst.
    destruct (np_maximum_upper x b Hx Hb) as (Hm & Hmx & Hmb).
    destruct (IH (np_maximum x b) Hm Ht') as (Hhi & Hhim & Hhit).
    split; [exact Hhi|]. split; [|constructor; [|exact Hhit]].
    + apply (ys_trans _ (np_maximum x b)); assumption.
    + apply (ys_trans _ (np_maximum x b)); assumption.
Qed.

(** [np.min] and [np.max] of some of the entries bound every one of
    them. *)
Lemma np_reduce_bounds (l : list F) :
  l <> [] ->
  Forall (fun v => v ∈ ys) l ->
  exists lo hi,
    np_reduce np_minimum "minimum" l = inr lo
    /\ np_reduce np_maximum "maximum" l = inr hi
    /\ Forall (fun v => Fle lo v = true /\ Fle v hi = true) l.
Proof.
  intros Hne Hall. destruct l as [|x t]; [congruence|].
  inversion Hall as [|? ? Hx Ht]; subst.
  destruct (foldl_np_minimum_lower t x Hx Ht) as (_ & Hlox & Hlot).
  destruct (foldl_np_maximum_upper t x Hx Ht) as (_ & Hhix & Hhit).
  exists (foldl np_minimum x t), (foldl np_maximum x t).
  split; [reflexivity|]. split; [reflexivity|].
  constructor; [split; assumption|].
  apply Forall_and. split; assumption.
Qed.

End OrderedEntries.

Section LeastAndGreatest.
Context {F : Type} {FF : Float64 F}.

Lemma foldl_np_minimum_elem (t : list F) : forall x, foldl np_minimum x t ∈ x :: t.
Proof.
  induction t as [|b t IH]; intros x; cbn; [left|].
  specialize (IH (np_minimum x b)).
  apply elem_of_cons in IH as [->|IH]; [|right; right; exact IH].
  unfold np_minimum. destruct (_ || _); [left|right; left].
Qed.

Lemma foldl_np_maximum_elem (t : list F) : forall x, foldl np_maximum x t ∈ x :: t.
Proof.
  induction t as [|b t IH]; intros x; cbn; [left|].
  specialize (IH (np_maximum x b)).
  apply elem_of_cons in IH as [->|IH]; [|right; right; exact IH].
  unfold np_maximum. destruct (_ || _); [left|right; left].
Qed.

(** Over numbers that the comparison orders, [np.min] returns a least
    and [np.max] a greatest entry. *)
Lemma np_min_max_least_greatest (hull : array2 F) :
  ordered_numbers (concat (rows hull)) ->
  concat (rows hull) <> [] ->
  exists lo hi,
    np_min hull = inr lo /\ np_max hull = inr hi
    /\ least_of (concat (rows hull)) lo
    /\ greatest_of (concat (rows hull)) hi.
Proof.
  intros (Hnum & Htrans & Htotal) Hne.
  destruct (np_reduce_bounds (concat (rows hull)) Hnum Htrans Htotal
              (concat (rows hull)) Hne) as (lo & hi & Hlo & Hhi & Hbounds).
  { apply Forall_forall. auto. }
  exists lo, hi. unfold np_min, np_max, least_of, greatest_of.
  split; [exact Hlo|]. split; [exact Hhi|].
  apply Forall_and in Hbounds. destruct Hbounds as [Hlow Hup].
  destruct (concat (rows hull)) as [|x t]; [congruence|].
  cbn in Hlo, Hhi. injection Hlo as <-. injection Hhi as <-.
  split; split; auto using foldl_np_minimum_elem, foldl_np_maximum_elem.
Qed.

End LeastAndGreatest.

Section ClaimsOnTheHull.
Context {F O : Type} {FF : Float64 F} {CC : Collaborators F}.

Lemma np_reduce_cons op name (x : F) t :
  np_reduce op name (x :: t) = inr (foldl op x t).
Proof. reflexivity. Qed.

(** In one dimension, over at least two observation points that the
    comparison orders, the test of [_in_hull] is the closed interval
    between a least and a greatest observation. *)
Lemma hull_test_on_the_line (hull : array2 F) :
  ncols hull = 1%nat ->
  wf_array hull ->
  (2 <= length (rows hull))%nat ->
  ordered_numbers (concat (rows hull)) ->
  exists lo hi,
    least_of (concat (rows hull)) lo
    /\ greatest_of (concat (rows hull)) hi
    /\ hull_test 1 hull
       = inr (fun pt => Fle lo (default F0 (head pt)) && Fle (default F0 (head pt)) hi).
Proof.
  intros Hdim Hwf HN Hord.
  assert (Hne : concat (rows hull) <> []).
  { unfold wf_array in Hwf. rewrite Hdim in Hwf.
    destruct (rows hull) as [|pt rest]; [cbn in HN; lia|].
    pose proof (Forall_inv Hwf) as Hpt. cbn in Hpt.
    destruct pt; discriminate. }
  destruct (np_min_max_least_greatest hull Hord Hne)
    as (lo & hi & Hlo & Hhi & Hleast & Hgreatest).
  exists lo, hi. split; [exact Hleast|]. split; [exact Hgreatest|].
  unfold hull_test. rewrite (proj2 (Nat.leb_gt _ _)) by lia. cbn [Nat.leb].
  rewrite Hlo, Hhi. reflexivity.
Qed.

(** C5.  [_in_hull] agrees with the reference test of the specification
    wherever that test is spelled out.  With fewer than [D + 1]
    observation points every query point is reported outside.  With
    [D = 1] and at least two observation points that are numbers (no nan
    among them), a query point [x] is reported inside exactly when
    [lo <= x <= hi], both ends included, where [lo] is a least and [hi] a
    greatest observation.  In both cases the test neither raises nor calls
    a collaborator. *)
Theorem in_hull_matches_reference (p hull : array2 F) (w : world F O) :
  wf_array p ->
  wf_array hull ->
  ncols hull = ncols p ->
  (length (rows hull) < ncols p + 1)%nat
  \/ (ncols p = 1%nat /\ ordered_numbers (concat (rows hull))) ->
  exists inside,
    _in_hull p hull w = (w, inr inside)
    /\ in_hull_reference p hull inside
    /\ ((length (rows hull) < ncols p + 1)%nat ->
        inside = replicate (length (rows p)) false)
    /\ (ncols p = 1%nat -> (2 <= length (rows hull))%nat ->
        exists lo hi,
          least_of (concat (rows hull)) lo
          /\ greatest_of (concat (rows hull)) hi
          /\ Forall2 (fun pt (is_inside : bool) =>
                        exists x, pt = [x] /\ is_inside = Fle lo x && Fle x hi)
               (rows p) inside).
Proof.
  intros Hp Hhull Hdim Hcase.
  destruct w as [s h lg]. rewrite run_in_hull.
  destruct (Nat.lt_ge_cases (length (rows hull)) (ncols p + 1)) as [Hfew|Hmany].
  - unfold hull_test, hull_events.
    rewrite (proj2 (Nat.leb_le _ _)) by lia. rewrite app_nil_r.
    exists (map (fun _ => false) (rows p)).
    assert (Hrep : map (fun _ : list F => false) (rows p)
                   = replicate (length (rows p)) false).
    { induction (rows p); cbn; congruence. }
    split; [reflexivity|]. split; [apply too_few_points; exact Hfew|].
    split; [intros _; exact Hrep|]. intros; lia.
  - destruct Hcase as [?|[Hone Hord]]; [lia|].
    rewrite Hone in *.
    destruct (hull_test_on_the_line hull Hdim Hhull ltac:(lia) Hord)
      as (lo & hi & Hleast & Hgreatest & ->).
    unfold hull_events. rewrite (proj2 (Nat.leb_gt _ _)) by lia. cbn [Nat.leb].
    rewrite app_nil_r.
    assert (Hrows : Forall (fun pt => exists x, pt = [x]) (rows p)).
    { eapply Forall_impl; [exact Hp|]. cbn. intros pt Hpt. rewrite Hone in Hpt.
      destruct pt as [|x [|? ?]]; try discriminate Hpt. eauto. }
    assert (Hmap : map (fun pt => Fle lo (default F0 (head pt))
                                  && Fle (default F0 (head pt)) hi) (rows p)
                   = map (fun pt => match pt with
                                    | x :: _ => Fle lo x && Fle x hi
                                    | [] => false
                                    end) (rows p)).
    { apply map_ext_Forall.
      eapply Forall_impl; [exact Hrows|]. cbn. intros pt [x ->]. reflexivity. }
    rewrite Hmap. eexists. split; [reflexivity|].
    split; [apply closed_interval; first [assumption|lia]|].
    split; [intros; lia|].
    intros _ _. exists lo, hi. split; [exact Hleast|]. split; [exact Hgreatest|].
    clear -Hrows. induction Hrows as [|pt pts [x ->] _ IH]; cbn; constructor; eauto.
Qed.

End ClaimsOnTheHull.

Section ClaimsOnEvaluation.
Context {F : Type} {FF : Float64 F} {CC : Collaborators F}.

(** C2 (amended).  A local interpolant with more monomials than
    neighbours fails with the insufficient-data error, after [powers] and
    before the tree is queried, on every evaluation that enters the body
    of a batch: every call without chunking, and every call with a
    positive chunk size on at least one target point. *)
Theorem local_evaluation_insufficient_data self v s h lg x diff chunk_size :
  NearestRBFInterpolant.stored self v (World s h lg) ->
  ncols x = ncols (NearestRBFInterpolant.c_y v) ->
  NearestRBFInterpolant.k self
    < Z.of_nat (length (powers (NearestRBFInterpolant.order self)
                          (ncols (NearestRBFInterpolant.c_y v)))) ->
  chunk_size = None \/ (exists c, chunk_size = Some c /\ 0 < c /\ rows x <> []) ->
  let run := NearestRBFInterpolant.__call__ x diff chunk_size (World s h lg) in
  run.2 = inl (ValueError msg_order_neighbors)
  /\ InsufficientDataError (ValueError msg_order_neighbors)
  /\ log_since (World s h lg) run.1 = [CallPowers]
  /\ CallQuery ∉ log_since (World s h lg) run.1.
Proof.
  intros Hst Hdim Hk Hcs run.
  assert (Hlog : drop (length lg) (lg ++ [CallPowers]) = [CallPowers])
    by apply drop_app_length.
  assert (Hnot : CallQuery ∉ [CallPowers]).
  { intros Hin. apply elem_of_cons in Hin as [Hin|Hin]; [discriminate|].
    apply elem_of_nil in Hin. exact Hin. }
  subst run. destruct Hcs as [->|(c & -> & Hc & Hx)].
  - change (NearestRBFInterpolant.__call__ x diff None)
      with (NearestRBFInterpolant.call_unchunked x diff).
    erewrite local_call_unchunked_too_few by eassumption.
    unfold log_since. cbn. rewrite Hlog.
    split; [reflexivity|]. split; [right; reflexivity|]. split; [reflexivity|exact Hnot].
  - erewrite local_call_chunked_too_few by eassumption.
    unfold log_since. cbn. rewrite Hlog.
    split; [reflexivity|]. split; [right; reflexivity|]. split; [reflexivity|exact Hnot].
Qed.

(** C6 (amended).  For both interpolants and every positive chunk size,
    the chunked evaluation is the loop over [range(0, P, chunk_size)] that
    evaluates each contiguous slice of the targets on its own and writes
    the result into the same slice of the output.  Whenever the evaluation
    without chunking returns an output, the chunked evaluation returns the
    identical output; and on a non-empty target set the chunked evaluation
    returns an output only if the evaluation without chunking returns it
    too. *)
Theorem chunked_evaluation_agrees :
  (forall self v (w : world F RBFInterpolant.t) x diff c,
      RBFInterpolant.stored self v w ->
      ncols x = ncols (RBFInterpolant.c_y v) ->
      0 < c ->
      (exists starts,
          py_range 0 (Z.of_nat (length (rows x))) c = inr starts
          /\ (RBFInterpolant.__call__ x diff (Some c) w).2
             = chunk_fold
                 (fun xs => (RBFInterpolant.__call__ (Arr2 (ncols x) xs) diff None w).2)
                 (rows x) c starts (np_zeros (length (rows x))))
      /\ (forall out, (RBFInterpolant.__call__ x diff None w).2 = inr out ->
                      (RBFInterpolant.__call__ x diff (Some c) w).2 = inr out)
      /\ (rows x <> [] ->
          forall out, (RBFInterpolant.__call__ x diff (Some c) w).2 = inr out ->
                      (RBFInterpolant.__call__ x diff None w).2 = inr out))
  /\ (forall self v (w : world F NearestRBFInterpolant.t) x diff c,
        NearestRBFInterpolant.stored self v w ->
        ncols x = ncols (NearestRBFInterpolant.c_y v) ->
        0 < c ->
        (exists starts,
            py_range 0 (Z.of_nat (length (rows x))) c = inr starts
            /\ (NearestRBFInterpolant.__call__ x diff (Some c) w).2
               = chunk_fold
                   (fun xs =>
                      (NearestRBFInterpolant.__call__ (Arr2 (ncols x) xs) diff None w).2)
                   (rows x) c starts (np_zeros (length (rows x))))
        /\ (forall out, (NearestRBFInterpolant.__call__ x diff None w).2 = inr out ->
                        (NearestRBFInterpolant.__call__ x diff (Some c) w).2 = inr out)
        /\ (rows x <> [] ->
            forall out, (NearestRBFInterpolant.__call__ x diff (Some c) w).2 = inr out ->
                        (NearestRBFInterpolant.__call__ x diff None w).2 = inr out)).
Proof.
  split.
  - intros self v w x diff c Hst Hdim Hc.
    change (RBFInterpolant.__call__ x diff None)
      with (RBFInterpolant.call_unchunked x diff).
    rewrite (call_unchunked_value self v) by assumption.
    destruct (chunk_fold_range _ (rowwise_global self v diff (ncols x)) (rows x) c Hc)
      as (starts & Hrange & Hto & Hfrom).
    rewrite (call_chunked_value self v w x diff c starts) by assumption.
    split; [|split; assumption].
    exists starts. split; [exact Hrange|].
    apply chunk_fold_ext. intros xs.
    change (RBFInterpolant.__call__ (Arr2 (ncols x) xs) diff None)
      with (RBFInterpolant.call_unchunked (Arr2 (ncols x) xs) diff).
    rewrite (call_unchunked_value self v w (Arr2 (ncols x) xs) diff Hst Hdim).
    reflexivity.
  - intros self v w x diff c Hst Hdim Hc.
    change (NearestRBFInterpolant.__call__ x diff None)
      with (NearestRBFInterpolant.call_unchunked x diff).
    rewrite (local_call_unchunked_value self v) by assumption.
    destruct (chunk_fold_range _ (rowwise_local self v diff) (rows x) c Hc)
      as (starts & Hrange & Hto & Hfrom).
    rewrite (local_call_chunked_value self v w x diff c starts) by assumption.
    split; [|split; assumption].
    exists starts. split; [exact Hrange|].
    apply chunk_fold_ext. intros xs.
    change (NearestRBFInterpolant.__call__ (Arr2 (ncols x) xs) diff None)
      with (NearestRBFInterpolant.call_unchunked (Arr2 (ncols x) xs) diff).
    rewrite (local_call_unchunked_value self v w (Arr2 (ncols x) xs) diff Hst Hdim).
    reflexivity.
Qed.

(** C8.  An evaluation call of either interpolant, whatever its
    arguments and whether it returns or raises, leaves the attributes of
    the interpolant as they were and every array that existed before the
    call as it was: the heap it ends with extends the heap it started
    with.  In particular the arrays the attributes refer to are
    unchanged. *)
Theorem evaluation_leaves_interpolant_unchanged :
  (forall (w : world F RBFInterpolant.t) x diff chunk_size,
      let w' := (RBFInterpolant.__call__ x diff chunk_size w).1 in
      w_self w' = w_self w
      /\ take (length (w_heap w)) (w_heap w') = w_heap w)
  /\ (forall (w : world F NearestRBFInterpolant.t) x diff chunk_size,
        let w' := (NearestRBFInterpolant.__call__ x diff chunk_size w).1 in
        w_self w' = w_self w
        /\ take (length (w_heap w)) (w_heap w') = w_heap w).
Proof.
  split; intros w x diff chunk_size w'; subst w'.
  - destruct (safe_call (length (w_heap w)) x diff chunk_size w (Nat.le_refl _))
      as [(Hs & Ht & _) _].
    split; [exact Hs|]. rewrite Ht. apply take_ge. lia.
  - destruct (safe_local_call (length (w_heap w)) x diff chunk_size w (Nat.le_refl _))
      as [(Hs & Ht & _) _].
    split; [exact Hs|]. rewrite Ht. apply take_ge. lia.
Qed.

(** C9.  On an empty target set with a positive chunk size, both
    interpolants return the empty array and raise nothing, without any
    collaborator call; for the local interpolant this holds whatever
    the monomial count and [k] are, also when the count exceeds [k]. *)
Theorem empty_target_set_returns_empty :
  (forall self v s h lg x diff c,
      RBFInterpolant.stored self v (World s h lg) ->
      ncols x = ncols (RBFInterpolant.c_y v) ->
      rows x = [] ->
      0 < c ->
      RBFInterpolant.__call__ x diff (Some c) (World s h lg)
      = (World s (h ++ [CVec []]) lg, inr []))
  /\ (forall self v s h lg x diff c,
        NearestRBFInterpolant.stored self v (World s h lg) ->
        ncols x = ncols (NearestRBFInterpolant.c_y v) ->
        rows x = [] ->
        0 < c ->
        NearestRBFInterpolant.__call__ x diff (Some c) (World s h lg)
        = (World s (h ++ [CVec []]) lg, inr [])).
Proof.
  split; intros self v s h lg x diff c Hst Hdim Hx Hc.
  - rewrite (call_empty_range self v s h lg x diff c Hst Hdim);
      rewrite Hx; [reflexivity|]. apply py_range_empty. lia.
  - rewrite (local_call_empty_range self v s h lg x diff c Hst Hdim);
      rewrite Hx; [reflexivity|]. apply py_range_empty. lia.
Qed.

(** C10.  With a negative chunk size, both interpolants return the
    zeros they allocated for the output, one for every target point, and
    make no collaborator call at all: neither the kernel nor the
    polynomial is evaluated. *)
Theorem negative_chunk_size_returns_zeros :
  (forall self v s h lg x diff c,
      RBFInterpolant.stored self v (World s h lg) ->
      ncols x = ncols (RBFInterpolant.c_y v) ->
      c < 0 ->
      RBFInterpolant.__call__ x diff (Some c) (World s h lg)
      = (World s (h ++ [CVec (np_zeros (length (rows x)))]) lg,
         inr (replicate (length (rows x)) F0)))
  /\ (forall self v s h lg x diff c,
        NearestRBFInterpolant.stored self v (World s h lg) ->
        ncols x = ncols (NearestRBFInterpolant.c_y v) ->
        c < 0 ->
        NearestRBFInterpolant.__call__ x diff (Some c) (World s h lg)
        = (World s (h ++ [CVec (np_zeros (length (rows x)))]) lg,
           inr (replicate (length (rows x)) F0))).
Proof.
  split; intros self v s h lg x diff c Hst Hdim Hc.
  - apply (call_empty_range self v s h lg x diff c Hst Hdim).
    apply py_range_negative. exact Hc.
  - apply (local_call_empty_range self v s h lg x diff c Hst Hdim).
    apply py_range_negative. exact Hc.
Qed.

End ClaimsOnEvaluation.

Section Masking.
Context {F : Type} {FF : Float64 F} {CC : Collaborators F}.
Import RBFInterpolant.

(** One pass gives an output: so does the loop over chunks. *)
Lemma global_chunked_complete self v w x diff c out :
  stored self v w ->
  ncols x = ncols (c_y v) ->
  0 < c ->
  batch_value self v diff (ncols x) (rows x) = inr out ->
  (__call__ x diff (Some c) w).2 = inr out.
Proof.
  intros Hst Hdim Hc Hout.
  destruct (chunk_fold_range _ (rowwise_global self v diff (ncols x)) (rows x) c Hc)
    as (starts & Hrange & Hto & _).
  rewrite (call_chunked_value self v w x diff c starts) by assumption.
  apply Hto, Hout.
Qed.

(** Without extrapolation, an evaluation returns [K a + P b] where the
    hull test says inside, and nan elsewhere. *)
Lemma global_masked_value self v w x diff chunk_size inside :
  stored self v w ->
  extrapolate self = false ->
  ncols x = ncols (c_y v) ->
  chunk_size = None \/ (exists c, chunk_size = Some c /\ 0 < c) ->
  hull_test (ncols x) (c_y v) = inr inside ->
  (__call__ x diff chunk_size w).2
  = inr (map (fun xt => if inside xt then unmasked self v diff xt else Fnan) (rows x)).
Proof.
  intros Hst Hex Hdim Hcs Hhull.
  assert (Hbatch : batch_value self v diff (ncols x) (rows x)
                   = inr (map (fun xt => if inside xt then unmasked self v diff xt
                                         else Fnan) (rows x))).
  { unfold batch_value. rewrite Hex, Hhull. reflexivity. }
  destruct Hcs as [->|(c & -> & Hc)].
  - change (__call__ x diff None) with (call_unchunked x diff).
    rewrite (call_unchunked_value self v) by assumption. exact Hbatch.
  - apply (global_chunked_complete self v); assumption.
Qed.

(** On the line, or with too few observation points, or through a
    triangulation: what the hull test is in each case. *)
Lemma global_masked_cases self v w x diff chunk_size :
  stored self v w ->
  extrapolate self = false ->
  ncols x = ncols (c_y v) ->
  wf_array x ->
  chunk_size = None \/ (exists c, chunk_size = Some c /\ 0 < c) ->
  ((length (rows (c_y v)) < ncols (c_y v) + 1)%nat ->
   (__call__ x diff chunk_size w).2 = inr (replicate (length (rows x)) Fnan))
  /\ (ncols (c_y v) = 1%nat ->
      (2 <= length (rows (c_y v)))%nat ->
      wf_array (c_y v) ->
      ordered_numbers (concat (rows (c_y v))) ->
      exists lo hi,
        least_of (concat (rows (c_y v))) lo
        /\ greatest_of (concat (rows (c_y v))) hi
        /\ (__call__ x diff chunk_size w).2
           = inr (map (fun xt =>
                         match xt with
                         | x0 :: _ =>
                             if Fle lo x0 && Fle x0 hi then unmasked self v diff xt
                             else Fnan
                         | [] => Fnan
                         end) (rows x)))
  /\ ((2 <= ncols (c_y v))%nat ->
      (ncols (c_y v) < length (rows (c_y v)))%nat ->
      forall tri,
        Delaunay_build (c_y v) = inr tri ->
        (__call__ x diff chunk_size w).2
        = inr (map (fun xt =>
                      if 0 <=? find_simplex tri xt then unmasked self v diff xt
                      else Fnan) (rows x))).
Proof.
  intros Hst Hex Hdim Hx Hcs. split; [|split].
  - intros HN.
    rewrite (global_masked_value self v w x diff chunk_size (fun _ => false))
      by first [assumption
               | unfold hull_test; rewrite Hdim, (proj2 (Nat.leb_le _ _)) by lia;
                 reflexivity].
    f_equal. induction (rows x) as [|xt xs IH]; cbn; congruence.
  - intros Hone HN Hwf Hord.
    destruct (hull_test_on_the_line (c_y v) Hone Hwf HN Hord)
      as (lo & hi & Hleast & Hgreatest & Htest).
    exists lo, hi. split; [exact Hleast|]. split; [exact Hgreatest|].
    rewrite (global_masked_value self v w x diff chunk_size _ Hst Hex Hdim Hcs)
      by (rewrite Hdim, Hone; exact Htest).
    f_equal. apply map_ext_Forall.
    eapply Forall_impl; [exact Hx|]. cbn. intros xt Hxt.
    rewrite Hdim, Hone in Hxt. destruct xt as [|x0 [|? ?]]; try discriminate Hxt.
    reflexivity.
  - intros HD HN tri Htri.
    rewrite (global_masked_value self v w x diff chunk_size
               (fun pt => 0 <=? find_simplex tri pt) Hst Hex Hdim Hcs);
      [reflexivity|].
    unfold hull_test. rewrite Hdim.
    rewrite (proj2 (Nat.leb_gt _ _)) by lia.
    rewrite (proj2 (Nat.leb_le _ _)) by lia.
    rewrite Htri. reflexivity.
Qed.

End Masking.

(** The observations 0, 1 and 2 on the line, in any arrangement: they
    are numbers, 0 is the least of them and 2 the greatest. *)
Section ZeroOneTwo.
Local Open Scope float_scope.
Variable y : array2 float.
Hypothesis y_line : ncols y = 1%nat.
Hypothesis y_012 : rows y ≡ₚ [[0]; [1]; [2]].

Lemma entry_012 (a : float) :
  a ∈ concat (rows y) <-> a ∈ [0; 1; 2].
Proof.
  rewrite list_elem_of_In, in_concat. split.
  - intros (r & Hr & Ha). apply list_elem_of_In in Hr, Ha.
    rewrite y_012 in Hr.
    repeat (apply elem_of_cons in Hr as [->|Hr]);
      try (apply elem_of_nil in Hr; destruct Hr);
      apply list_elem_of_singleton in Ha; subst a;
      [left|right; left|right; right; left].
  - intros Ha. exists [a]. split; [|left; reflexivity].
    apply list_elem_of_In. rewrite y_012.
    repeat (apply elem_of_cons in Ha as [->|Ha]);
      try (apply elem_of_nil in Ha; destruct Ha);
      [left|right; left|right; right; left].
Qed.

Lemma wf_012 : wf_array y.
Proof.
  unfold wf_array. rewrite y_line. apply Forall_forall. intros r Hr.
  rewrite y_012 in Hr.
  repeat (apply elem_of_cons in Hr as [->|Hr]); try reflexivity.
  apply elem_of_nil in Hr. destruct Hr.
Qed.

Lemma length_012 : length (rows y) = 3%nat.
Proof. rewrite y_012. reflexivity. Qed.

Ltac entries_012 :=
  repeat match goal with
         | H : _ ∈ concat (rows y) |- _ => apply entry_012 in H
         | H : _ ∈ _ :: _ |- _ => apply elem_of_cons in H as [->|H]
         | H : _ ∈ [] |- _ => apply elem_of_nil in H; destruct H
         end.

Lemma ordered_012 : ordered_numbers (concat (rows y)).
Proof.
  split; [|split].
  - apply Forall_forall. intros a Ha. entries_012; split; reflexivity.
  - intros a b c Ha Hb Hc. entries_012; intros H1 H2;
      first [ reflexivity
            | vm_compute in H1; discriminate H1
            | vm_compute in H2; discriminate H2 ].
  - intros a b Ha Hb. entries_012; first [left; reflexivity|right; reflexivity].
Qed.

Lemma least_012 lo : least_of (concat (rows y)) lo -> lo = 0.
Proof.
  intros [Hlo Hlow].
  assert (H0 : Fle lo 0 = true)
    by (apply (proj1 (Forall_forall _ _) Hlow), entry_012; left).
  entries_012; first [reflexivity | vm_compute in H0; discriminate H0].
Qed.

Lemma greatest_012 hi : greatest_of (concat (rows y)) hi -> hi = 2.
Proof.
  intros [Hhi Hup].
  assert (H2 : Fle 2 hi = true)
    by (apply (proj1 (Forall_forall _ _) Hup), entry_012; right; right; left).
  entries_012; first [reflexivity | vm_compute in H2; discriminate H2].
Qed.

End ZeroOneTwo.

(** C7.  A global interpolant constructed with extrapolation disabled,
    evaluated without chunking or with a positive chunk size, returns nan
    at exactly the target points outside the hull of its observation
    points and the unmasked value [K a + P b] at the others.  With fewer
    than [D + 1] observation points there is no hull, and every target is
    masked.  On the line, with at least two observation points that are
    numbers, the targets [x] with [lo <= x <= hi] are left and the others
    masked, where [lo] is a least and [hi] a greatest observation.  In
    two or more dimensions the targets that the triangulation of the
    observation points finds in one of its simplices are left and the
    others masked.  In particular, over binary64 and for every choice of
    collaborators, with the 1-D observations 0, 1 and 2 in any arrangement
    the evaluation at -5 and at 7 returns nan, and the evaluation at 1.0
    returns the unmasked value. *)
Theorem global_extrapolation_masking :
  (forall (F : Type) (FF : Float64 F) (CC : Collaborators F)
          self v (w : world F RBFInterpolant.t) x diff chunk_size,
      RBFInterpolant.stored self v w ->
      RBFInterpolant.extrapolate self = false ->
      ncols x = ncols (RBFInterpolant.c_y v) ->
      wf_array x ->
      chunk_size = None \/ (exists c, chunk_size = Some c /\ 0 < c) ->
      ((length (rows (RBFInterpolant.c_y v)) < ncols (RBFInterpolant.c_y v) + 1)%nat ->
       (RBFInterpolant.__call__ x diff chunk_size w).2
       = inr (replicate (length (rows x)) Fnan))
      /\ (ncols (RBFInterpolant.c_y v) = 1%nat ->
          (2 <= length (rows (RBFInterpolant.c_y v)))%nat ->
          wf_array (RBFInterpolant.c_y v) ->
          ordered_numbers (concat (rows (RBFInterpolant.c_y v))) ->
          exists lo hi,
            least_of (concat (rows (RBFInterpolant.c_y v))) lo
            /\ greatest_of (concat (rows (RBFInterpolant.c_y v))) hi
            /\ (RBFInterpolant.__call__ x diff chunk_size w).2
               = inr (map (fun xt =>
                             match xt with
                             | x0 :: _ =>
                                 if Fle lo x0 && Fle x0 hi
                                 then RBFInterpolant.unmasked self v diff xt
                                 else Fnan
                             | [] => Fnan
                             end) (rows x)))
      /\ ((2 <= ncols (RBFInterpolant.c_y v))%nat ->
          (ncols (RBFInterpolant.c_y v) < length (rows (RBFInterpolant.c_y v)))%nat ->
          forall tri,
            Delaunay_build (RBFInterpolant.c_y v) = inr tri ->
            (RBFInterpolant.__call__ x diff chunk_size w).2
            = inr (map (fun xt =>
                          if 0 <=? find_simplex tri xt
                          then RBFInterpolant.unmasked self v diff xt
                          else Fnan) (rows x))))
  /\ (forall (CC : Collaborators float)
             self v (w : world float RBFInterpolant.t) diff chunk_size,
        RBFInterpolant.stored self v w ->
        RBFInterpolant.extrapolate self = false ->
        ncols (RBFInterpolant.c_y v) = 1%nat ->
        rows (RBFInterpolant.c_y v) ≡ₚ [[0]; [1]; [2]]%float ->
        chunk_size = None \/ (exists c, chunk_size = Some c /\ 0 < c) ->
        (RBFInterpolant.__call__ (Arr2 1 [[-5]]%float) diff chunk_size w).2
        = inr [PrimFloat.nan]
        /\ (RBFInterpolant.__call__ (Arr2 1 [[7]]%float) diff chunk_size w).2
           = inr [PrimFloat.nan]
        /\ (RBFInterpolant.__call__ (Arr2 1 [[1]]%float) diff chunk_size w).2
           = inr [RBFInterpolant.unmasked self v diff [1]%float]).
Proof.
  split.
  - intros F FF CC self v w x diff chunk_size. apply global_masked_cases.
  - intros CC self v w diff chunk_size Hst Hex Hline H012 Hcs.
    assert (Hat : forall t : float,
              exists lo hi,
                lo = 0%float /\ hi = 2%float
                /\ (RBFInterpolant.__call__ (Arr2 1 [[t]]) diff chunk_size w).2
                   = inr [if Fle lo t && Fle t hi
                          then RBFInterpolant.unmasked self v diff [t]
                          else Fnan]).
    { intros t.
      destruct (proj1 (proj2 (global_masked_cases self v w (Arr2 1 [[t]]) diff
                                chunk_size Hst Hex (eq_sym Hline)
                                ltac:(repeat constructor) Hcs))
                  Hline
                  ltac:(rewrite (length_012 _ H012); lia)
                  (wf_012 _ Hline H012)
                  (ordered_012 _ H012))
        as (lo & hi & Hlo & Hhi & Hrun).
      exists lo, hi.
      split; [exact (least_012 _ H012 lo Hlo)|].
      split; [exact (greatest_012 _ H012 hi Hhi)|]. exact Hrun. }
    repeat split.
    + destruct (Hat (-5)%float) as (lo & hi & -> & -> & ->). reflexivity.
    + destruct (Hat 7%float) as (lo & hi & -> & -> & ->). reflexivity.
    + destruct (Hat 1%float) as (lo & hi & -> & -> & ->). reflexivity.
Qed.

Section WitnessesOnEvaluation.
Import Reference.
Local Open Scope float_scope.

Lemma global_world_stored :
  RBFInterpolant.stored global_self global_contents global_world.
Proof. repeat split. Defined.

Lemma local_world_stored k :
  NearestRBFInterpolant.stored (local_self k) local_contents (local_world k).
Proof. repeat split. Defined.

(** C2, as stated, fails: with one neighbour and two monomials, the
    default chunked evaluation of an empty target set returns the empty
    array. *)
Lemma local_empty_batch_does_not_raise :
  (NearestRBFInterpolant.k (local_self 1)
   < Z.of_nat (length (powers (NearestRBFInterpolant.order (local_self 1)) 1)))%Z
  /\ (NearestRBFInterpolant.__call__ (Arr2 1 []) None (Some 100%Z) (local_world 1)).2
     = inr []
  /\ ~ exists e,
         (NearestRBFInterpolant.__call__ (Arr2 1 []) None (Some 100%Z)
            (local_world 1)).2 = inl e
         /\ InsufficientDataError e.
Proof.
  split; [vm_compute; reflexivity|]. split; [reflexivity|].
  intros (e & He & _). discriminate He.
Qed.

Lemma local_evaluation_insufficient_data_witness :
  (NearestRBFInterpolant.__call__ (Arr2 1 [[0.5]; [1.5]]) None (Some 100%Z)
     (local_world 1)).2
  = inl (ValueError msg_order_neighbors).
Proof.
  refine (proj1 (local_evaluation_insufficient_data (CC := collaborators)
                   (local_self 1) local_contents (local_self 1) local_heap [CallKDTree]
                   (Arr2 1 [[0.5]; [1.5]]) None (Some 100%Z)
                   (local_world_stored 1) eq_refl _ _)).
  - vm_compute. reflexivity.
  - right. exists 100%Z. split; [reflexivity|]. split; [lia|discriminate].
Defined.

Example shuffled_world_constructed :
  run_from_scratch (RBFInterpolant.__init__ Runs.y201 Runs.d201 (SigmaScalar 0)
                      (EpsScalar 1) (inl "phs3"%string) 1 false)
  = (World tt (w_heap Runs.shuffled_world) (w_log Runs.shuffled_world), inr global_self).
Proof. vm_compute. reflexivity. Qed.

Lemma shuffled_world_stored :
  RBFInterpolant.stored global_self Runs.shuffled_contents Runs.shuffled_world.
Proof. repeat split. Defined.

Lemma y201_arrangement : rows Runs.y201 ≡ₚ [[0]; [1]; [2]].
Proof.
  eapply perm_trans; [apply perm_swap|apply perm_skip, perm_swap].
Defined.

Lemma in_hull_matches_reference_witness :
  _in_hull (CC := collaborators) (Arr2 1 [[-5]; [0]; [1]; [2]; [7]]) Runs.y201
    (World tt [] [])
  = (World tt [] [], inr [false; true; true; true; false]).
Proof.
  destruct (in_hull_matches_reference (CC := collaborators)
              (Arr2 1 [[-5]; [0]; [1]; [2]; [7]]) Runs.y201 (World tt [] []))
    as (inside & Hrun & _).
  - repeat constructor.
  - repeat constructor.
  - reflexivity.
  - right. split; [reflexivity|]. exact (ordered_012 Runs.y201 y201_arrangement).
  - pose proof Hrun as Hval. vm_compute in Hval. injection Hval as <-. exact Hrun.
Defined.

(** C6, as stated, fails: with one neighbour and two monomials, on the
    empty target set the chunked evaluation returns the empty array and
    the evaluation without chunking raises. *)
Lemma chunked_evaluation_differs_on_empty :
  (NearestRBFInterpolant.__call__ (Arr2 1 []) None (Some 100%Z) (local_world 1)).2
  = inr []
  /\ (NearestRBFInterpolant.__call__ (Arr2 1 []) None None (local_world 1)).2
     = inl (ValueError msg_order_neighbors)
  /\ (NearestRBFInterpolant.__call__ (Arr2 1 []) None (Some 100%Z) (local_world 1)).2
     <> (NearestRBFInterpolant.__call__ (Arr2 1 []) None None (local_world 1)).2.
Proof.
  split; [reflexivity|]. split; [reflexivity|]. discriminate.
Qed.

Lemma chunked_evaluation_agrees_witness :
  (RBFInterpolant.__call__ (Arr2 1 [[0.5]; [1]; [1.5]]) None (Some 2%Z) global_world).2
  = inr [0.5; 1; 1.5]
  /\ (NearestRBFInterpolant.__call__ (Arr2 1 [[0.5]; [1]; [1.5]]) None (Some 2%Z)
        (local_world 3)).2
     = inr [0.5; 1; 1.5].
Proof.
  split.
  - refine (proj1 (proj2 (proj1 (chunked_evaluation_agrees (CC := collaborators))
                            global_self global_contents global_world
                            (Arr2 1 [[0.5]; [1]; [1.5]]) None 2%Z
                            global_world_stored eq_refl _)) _ _).
    + lia.
    + vm_compute. reflexivity.
  - refine (proj1 (proj2 (proj2 (chunked_evaluation_agrees (CC := collaborators))
                            (local_self 3) local_contents (local_world 3)
                            (Arr2 1 [[0.5]; [1]; [1.5]]) None 2%Z
                            (local_world_stored 3) eq_refl _)) _ _).
    + lia.
    + vm_compute. reflexivity.
Defined.

Lemma global_extrapolation_masking_witness :
  (RBFInterpolant.__call__ (Arr2 1 [[-5]]) None (Some 1000%Z) Runs.shuffled_world).2
  = inr [PrimFloat.nan]
  /\ (RBFInterpolant.__call__ (Arr2 1 [[1]]) None (Some 1000%Z) Runs.shuffled_world).2
     = inr [RBFInterpolant.unmasked global_self Runs.shuffled_contents None [1]].
Proof.
  destruct (proj2 global_extrapolation_masking collaborators
              global_self Runs.shuffled_contents Runs.shuffled_world None (Some 1000%Z)
              shuffled_world_stored eq_refl eq_refl y201_arrangement)
    as (Hleft & _ & Hinside).
  - right. exists 1000%Z. split; [reflexivity|lia].
  - split; assumption.
Defined.

Lemma empty_target_set_returns_empty_witness :
  (RBFInterpolant.__call__ (Arr2 1 []) None (Some 1000%Z) global_world).2 = inr []
  /\ (NearestRBFInterpolant.__call__ (Arr2 1 []) None (Some 100%Z) (local_world 1)).2
     = inr [].
Proof.
  split.
  - refine (f_equal snd
              (proj1 (empty_target_set_returns_empty (CC := collaborators))
                 global_self global_contents global_self global_heap _
                 (Arr2 1 []) None 1000%Z global_world_stored eq_refl eq_refl _)).
    lia.
  - refine (f_equal snd
              (proj2 (empty_target_set_returns_empty (CC := collaborators))
                 (local_self 1) local_contents (local_self 1) local_heap _
                 (Arr2 1 []) None 100%Z (local_world_stored 1) eq_refl eq_refl _)).
    lia.
Defined.

Lemma negative_chunk_size_returns_zeros_witness :
  (RBFInterpolant.__call__ (Arr2 1 [[0.5]; [1.5]]) None (Some (-1)%Z) global_world).2
  = inr [0; 0]
  /\ (NearestRBFInterpolant.__call__ (Arr2 1 [[0.5]; [1.5]]) None (Some (-1)%Z)
        (local_world 3)).2
     = inr [0; 0].
Proof.
  split.
  - refine (f_equal snd
              (proj1 (negative_chunk_size_returns_zeros (CC := collaborators))
                 global_self global_contents global_self global_heap _
                 (Arr2 1 [[0.5]; [1.5]]) None (-1)%Z global_world_stored eq_refl _)).
    lia.
  - refine (f_equal snd
              (proj2 (negative_chunk_size_returns_zeros (CC := collaborators))
                 (local_self 3) local_contents (local_self 3) local_heap _
                 (Arr2 1 [[0.5]; [1.5]]) None (-1)%Z (local_world_stored 3) eq_refl _)).
    lia.
Defined.

End WitnessesOnEvaluation.

(** * Further properties of the evaluation *)

Section ChunkPartition.
Context {A : Type}.
Implicit Types (x : list A) (c : Z).

Lemma chunks_concat x c m : forall j,
  0 < c ->
  (length x <= (j + m) * Z.to_nat c)%nat ->
  (m = 0%nat \/ ((j + m) * Z.to_nat c < length x + Z.to_nat c)%nat) ->
  concat (map (fun start => py_slice x (Some start) (Some (start + c)))
            (chunk_starts c j m))
  = drop (j * Z.to_nat c) x
  /\ Forall (fun start =>
               let chunk := py_slice x (Some start) (Some (start + c)) in
               chunk <> [] /\ (length chunk <= Z.to_nat c)%nat)
       (chunk_starts c j m).
Proof.
  induction m as [|m IH]; intros j Hc Hcover Hlast.
  - cbn. rewrite drop_ge by lia. split; [reflexivity|constructor].
  - destruct Hlast as [?|Hlast]; [discriminate|].
    assert (Hj : (j * Z.to_nat c < length x)%nat) by nia.
    rewrite chunk_starts_cons. cbn [map concat].
    rewrite py_slice_chunk by assumption.
    destruct (IH (S j) Hc) as [Hcat Hall]; [lia| |].
    { destruct m; [left; reflexivity|right; lia]. }
    split.
    + rewrite Hcat.
      replace (S j * Z.to_nat c)%nat with (j * Z.to_nat c + Z.to_nat c)%nat by lia.
      rewrite <- drop_drop. apply take_drop.
    + constructor; [|exact Hall]. cbn zeta.
      rewrite py_slice_chunk by assumption. split.
      * intros Hnil. apply (f_equal length) in Hnil.
        rewrite length_take, length_drop in Hnil. cbn in Hnil. lia.
      * rewrite length_take. lia.
Qed.

(** X3.  The chunking loop partitions the targets: for a positive chunk
    size, the slices [x[start:start + chunk_size]] taken at the starts of
    [range(0, len(x), chunk_size)] are non-empty, have at most
    [chunk_size] rows each, and concatenated in order give [x] back. *)
Theorem chunks_partition_targets x c :
  0 < c ->
  exists starts,
    py_range 0 (Z.of_nat (length x)) c = inr starts
    /\ concat (map (fun start => py_slice x (Some start) (Some (start + c))) starts) = x
    /\ Forall (fun start =>
                 let chunk := py_slice x (Some start) (Some (start + c)) in
                 chunk <> [] /\ (length chunk <= Z.to_nat c)%nat)
         starts.
Proof.
  intros Hc.
  destruct (py_range_chunks (length x) c Hc) as (n & Hrange & Hcover & Hlast).
  exists (chunk_starts c 0 n). split; [exact Hrange|].
  destruct (chunks_concat x c n 0 Hc) as [Hcat Hall]; [lia| |].
  { destruct Hlast as [->|Hlast]; [left; reflexivity|right; lia]. }
  split; [exact Hcat|exact Hall].
Qed.

End ChunkPartition.

Section RowwiseFacts.
Context {F : Type} {FF : Float64 F}.
Variable batch : list (list F) -> result (list F).
Hypothesis batch_rowwise : rowwise batch.

(** A row-wise batch on at least one row succeeds exactly when each row
    succeeds on its own, with the values of the rows. *)
Lemma rowwise_singletons x : x <> [] -> forall out,
  batch x = inr out <-> Forall2 (fun xt o => batch [xt] = inr [o]) x out.
Proof.
  destruct batch_rowwise as [Hlen Happ].
  induction x as [|a x IH]; [congruence|]. intros _ out.
  destruct x as [|b x].
  - split.
    + intros Hout. pose proof (Hlen _ _ Hout) as Hl.
      destruct out as [|o [|? ?]]; try discriminate Hl.
      constructor; [exact Hout|constructor].
    + intros Hall. inversion Hall as [|? o ? out' Ha Hrest]; subst.
      inversion Hrest; subst. exact Ha.
  - specialize (IH ltac:(discriminate)).
    change (a :: b :: x) with ([a] ++ b :: x). rewrite Happ. split.
    + intros (v1 & v2 & Hv1 & Hv2 & ->).
      pose proof (Hlen _ _ Hv1) as Hl.
      destruct v1 as [|o [|? ?]]; try discriminate Hl.
      cbn. constructor; [exact Hv1|]. apply IH. exact Hv2.
    + intros Hall. inversion Hall as [|? o ? out' Ha Hrest]; subst.
      exists [o], out'. split; [exact Ha|]. split; [|reflexivity].
      apply IH. exact Hrest.
Qed.

(** A chunk size that covers all the targets gives one chunk: the loop
    ends as the single pass does, value or exception. *)
Lemma chunk_fold_single x (c : Z) :
  x <> [] ->
  Z.of_nat (length x) <= c ->
  exists starts,
    py_range 0 (Z.of_nat (length x)) c = inr starts
    /\ chunk_fold batch x c starts (np_zeros (length x)) = batch x.
Proof.
  destruct batch_rowwise as [Hlen _].
  intros Hx Hc.
  assert (Hpos : (0 < length x)%nat) by (destruct x; [congruence|cbn; lia]).
  assert (Hc0 : 0 < c) by lia.
  destruct (py_range_chunks (length x) c Hc0) as (n & Hrange & Hcover & Hlast).
  assert (Hn : n = 1%nat) by (destruct Hlast as [->|Hlast]; nia).
  subst n. exists (chunk_starts c 0 1). split; [exact Hrange|].
  rewrite chunk_starts_cons. cbn [chunk_fold chunk_starts seq map].
  rewrite py_slice_chunk by lia.
  change (0 * Z.to_nat c)%nat with 0%nat. rewrite drop_0, take_ge by lia.
  destruct (batch x) as [e|r] eqn:Hr; [reflexivity|].
  apply Hlen in Hr.
  assert (Hz : length (np_zeros (F := F) (length x)) = length x)
    by (unfold np_zeros; apply length_replicate).
  rewrite (setitem_slice_chunk (np_zeros (length x)) r 0 c Hc0) by (rewrite Hz; lia).
  change (0 * Z.to_nat c)%nat with 0%nat. cbn [take Nat.add app].
  rewrite drop_ge by (rewrite Hz; lia). rewrite app_nil_r. reflexivity.
Qed.

End RowwiseFacts.

Section FurtherEvaluation.
Context {F : Type} {FF : Float64 F} {CC : Collaborators F}.

Lemma Forall2_iff_ext {A B} (P Q : A -> B -> Prop) l k :
  (forall a b, P a b <-> Q a b) -> Forall2 P l k <-> Forall2 Q l k.
Proof.
  intros Heq. split; intros H; induction H; constructor; try apply Heq; assumption.
Qed.

(** X1.  A chunk size of zero makes both interpolants raise the
    [ValueError] of [range()] on any well-shaped target set, the empty one
    included: the output has been allocated, no collaborator has been
    called, and nothing is returned. *)
Theorem zero_chunk_size_raises :
  (forall self v s h lg x diff,
      RBFInterpolant.stored self v (World s h lg) ->
      ncols x = ncols (RBFInterpolant.c_y v) ->
      RBFInterpolant.__call__ x diff (Some 0) (World s h lg)
      = (World s (h ++ [CVec (np_zeros (length (rows x)))]) lg,
         inl (ValueError "range() arg 3 must not be zero")))
  /\ (forall self v s h lg x diff,
        NearestRBFInterpolant.stored self v (World s h lg) ->
        ncols x = ncols (NearestRBFInterpolant.c_y v) ->
        NearestRBFInterpolant.__call__ x diff (Some 0) (World s h lg)
        = (World s (h ++ [CVec (np_zeros (length (rows x)))]) lg,
           inl (ValueError "range() arg 3 must not be zero"))).
Proof.
  split; intros self v s h lg x diff Hst Hdim;
    pose proof Hst as (Hself & Hy & _); cbn in Hself, Hy; subst s.
  - unfold RBFInterpolant.__call__. run. run.
    unfold assert_shape. rewrite shape_matches_x, (proj2 (Nat.eqb_eq _ _) Hdim).
    run. run. rewrite run_lift. reflexivity.
  - unfold NearestRBFInterpolant.__call__. run. run.
    unfold assert_shape. rewrite shape_matches_x, (proj2 (Nat.eqb_eq _ _) Hdim).
    run. run. rewrite run_lift. reflexivity.
Qed.

(** With a chunk size of zero [range] raises: nothing is returned. *)
Lemma zero_chunk_size_result :
  (forall self v (w : world F RBFInterpolant.t) x diff,
      RBFInterpolant.stored self v w ->
      ncols x = ncols (RBFInterpolant.c_y v) ->
      (RBFInterpolant.__call__ x diff (Some 0) w).2
      = inl (ValueError "range() arg 3 must not be zero"))
  /\ (forall self v (w : world F NearestRBFInterpolant.t) x diff,
        NearestRBFInterpolant.stored self v w ->
        ncols x = ncols (NearestRBFInterpolant.c_y v) ->
        (NearestRBFInterpolant.__call__ x diff (Some 0) w).2
        = inl (ValueError "range() arg 3 must not be zero")).
Proof.
  split; intros self v [s h lg] x diff Hst Hdim;
    pose proof Hst as (Hself & Hy & _); cbn in Hself, Hy; subst s.
  - unfold RBFInterpolant.__call__. run. run.
    unfold assert_shape. rewrite shape_matches_x, (proj2 (Nat.eqb_eq _ _) Hdim).
    run. run. rewrite run_lift. reflexivity.
  - unfold NearestRBFInterpolant.__call__. run. run.
    unfold assert_shape. rewrite shape_matches_x, (proj2 (Nat.eqb_eq _ _) Hdim).
    run. run. rewrite run_lift. reflexivity.
Qed.

(** The loop started on zeros, when it runs through, leaves one entry
    for every target. *)
Lemma chunked_length (batch : list (list F) -> result (list F)) x c starts out :
  rowwise batch ->
  c <> 0 ->
  py_range 0 (Z.of_nat (length x)) c = inr starts ->
  chunk_fold batch x c starts (np_zeros (length x)) = inr out ->
  length out = length x.
Proof.
  intros Hrow Hc Hrange Hrun.
  assert (Hzeros : length (np_zeros (F := F) (length x)) = length x)
    by apply length_replicate.
  destruct (Z.lt_ge_cases c 0) as [Hneg|Hpos].
  - rewrite (py_range_negative _ _ Hneg) in Hrange. injection Hrange as <-.
    cbn in Hrun. injection Hrun as <-. exact Hzeros.
  - assert (Hc0 : 0 < c) by lia.
    destruct (py_range_chunks (length x) c Hc0) as (n & Hrange' & Hcover & Hlast).
    rewrite Hrange' in Hrange. injection Hrange as <-.
    destruct n as [|m].
    + cbn in Hrun. injection Hrun as <-. exact Hzeros.
    + destruct Hlast as [?|Hlast]; [discriminate|].
      apply (chunk_fold_sound batch Hrow x c m 0 (np_zeros (length x)) out) in Hrun;
        [|assumption|assumption|exact Hcover|exact Hlast].
      apply Hrun.
Qed.

(** X2.  Whenever an evaluation call of either interpolant returns, with
    any chunk size or none, its output has exactly one entry for every
    target point. *)
Theorem output_has_one_entry_per_target :
  (forall self v (w : world F RBFInterpolant.t) x diff chunk_size out,
      RBFInterpolant.stored self v w ->
      ncols x = ncols (RBFInterpolant.c_y v) ->
      (RBFInterpolant.__call__ x diff chunk_size w).2 = inr out ->
      length out = length (rows x))
  /\ (forall self v (w : world F NearestRBFInterpolant.t) x diff chunk_size out,
        NearestRBFInterpolant.stored self v w ->
        ncols x = ncols (NearestRBFInterpolant.c_y v) ->
        (NearestRBFInterpolant.__call__ x diff chunk_size w).2 = inr out ->
        length out = length (rows x)).
Proof.
  split; intros self v w x diff [c|] out Hst Hdim Hout.
  - destruct (py_range 0 (Z.of_nat (length (rows x))) c) as [e|starts] eqn:Hrange.
    + unfold py_range in Hrange. destruct (Z.eqb_spec c 0) as [->|?]; [|discriminate].
      rewrite (proj1 zero_chunk_size_result self v w x diff Hst Hdim) in Hout.
      discriminate.
    + rewrite (call_chunked_value self v w x diff c starts) in Hout by assumption.
      eapply chunked_length; [apply rowwise_global| |exact Hrange|exact Hout].
      intros ->. discriminate.
  - change (RBFInterpolant.__call__ x diff None)
      with (RBFInterpolant.call_unchunked x diff) in Hout.
    rewrite (call_unchunked_value self v) in Hout by assumption.
    apply (proj1 (rowwise_global self v diff (ncols x))) in Hout. exact Hout.
  - destruct (py_range 0 (Z.of_nat (length (rows x))) c) as [e|starts] eqn:Hrange.
    + unfold py_range in Hrange. destruct (Z.eqb_spec c 0) as [->|?]; [|discriminate].
      rewrite (proj2 zero_chunk_size_result self v w x diff Hst Hdim) in Hout.
      discriminate.
    + rewrite (local_call_chunked_value self v w x diff c starts) in Hout by assumption.
      eapply chunked_length; [apply rowwise_local| |exact Hrange|exact Hout].
      intros ->. discriminate.
  - change (NearestRBFInterpolant.__call__ x diff None)
      with (NearestRBFInterpolant.call_unchunked x diff) in Hout.
    rewrite (local_call_unchunked_value self v) in Hout by assumption.
    apply (proj1 (rowwise_local self v diff)) in Hout. exact Hout.
Qed.

(** X4.  A chunk size that is at least the number of targets, on a
    non-empty target set, makes the chunked evaluation of either
    interpolant end exactly as the evaluation without chunking does: with
    the same output, or with the same exception. *)
Theorem covering_chunk_size_is_one_batch :
  (forall self v (w : world F RBFInterpolant.t) x diff c,
      RBFInterpolant.stored self v w ->
      ncols x = ncols (RBFInterpolant.c_y v) ->
      rows x <> [] ->
      Z.of_nat (length (rows x)) <= c ->
      (RBFInterpolant.__call__ x diff (Some c) w).2
      = (RBFInterpolant.__call__ x diff None w).2)
  /\ (forall self v (w : world F NearestRBFInterpolant.t) x diff c,
        NearestRBFInterpolant.stored self v w ->
        ncols x = ncols (NearestRBFInterpolant.c_y v) ->
        rows x <> [] ->
        Z.of_nat (length (rows x)) <= c ->
        (NearestRBFInterpolant.__call__ x diff (Some c) w).2
        = (NearestRBFInterpolant.__call__ x diff None w).2).
Proof.
  split; intros self v w x diff c Hst Hdim Hx Hc.
  - change (RBFInterpolant.__call__ x diff None)
      with (RBFInterpolant.call_unchunked x diff).
    rewrite (call_unchunked_value self v) by assumption.
    destruct (chunk_fold_single _ (rowwise_global self v diff (ncols x)) (rows x) c Hx Hc)
      as (starts & Hrange & Hrun).
    rewrite (call_chunked_value self v w x diff c starts) by assumption.
    exact Hrun.
  - change (NearestRBFInterpolant.__call__ x diff None)
      with (NearestRBFInterpolant.call_unchunked x diff).
    rewrite (local_call_unchunked_value self v) by assumption.
    destruct (chunk_fold_single _ (rowwise_local self v diff) (rows x) c Hx Hc)
      as (starts & Hrange & Hrun).
    rewrite (local_call_chunked_value self v w x diff c starts) by assumption.
    exact Hrun.
Qed.

(** X5.  Target points are evaluated independently of one another: on a
    non-empty target set, the evaluation without chunking of either
    interpolant returns [out] exactly when the evaluation of every single
    target point on its own returns the corresponding entry of [out]. *)
Theorem batch_returns_iff_each_target_does :
  (forall self v (w : world F RBFInterpolant.t) x diff out,
      RBFInterpolant.stored self v w ->
      ncols x = ncols (RBFInterpolant.c_y v) ->
      rows x <> [] ->
      (RBFInterpolant.__call__ x diff None w).2 = inr out
      <-> Forall2 (fun xt o =>
                     (RBFInterpolant.__call__ (Arr2 (ncols x) [xt]) diff None w).2
                     = inr [o])
            (rows x) out)
  /\ (forall self v (w : world F NearestRBFInterpolant.t) x diff out,
        NearestRBFInterpolant.stored self v w ->
        ncols x = ncols (NearestRBFInterpolant.c_y v) ->
        rows x <> [] ->
        (NearestRBFInterpolant.__call__ x diff None w).2 = inr out
        <-> Forall2 (fun xt o =>
                       (NearestRBFInterpolant.__call__ (Arr2 (ncols x) [xt]) diff None w).2
                       = inr [o])
              (rows x) out).
Proof.
  split; intros self v w x diff out Hst Hdim Hx.
  - change (RBFInterpolant.__call__ x diff None)
      with (RBFInterpolant.call_unchunked x diff).
    rewrite (call_unchunked_value self v) by assumption.
    rewrite (rowwise_singletons _ (rowwise_global self v diff (ncols x)) (rows x) Hx).
    apply Forall2_iff_ext. intros xt o.
    change (RBFInterpolant.__call__ (Arr2 (ncols x) [xt]) diff None)
      with (RBFInterpolant.call_unchunked (Arr2 (ncols x) [xt]) diff).
    rewrite (call_unchunked_value self v w (Arr2 (ncols x) [xt]) diff Hst Hdim).
    reflexivity.
  - change (NearestRBFInterpolant.__call__ x diff None)
      with (NearestRBFInterpolant.call_unchunked x diff).
    rewrite (local_call_unchunked_value self v) by assumption.
    rewrite (rowwise_singletons _ (rowwise_local self v diff) (rows x) Hx).
    apply Forall2_iff_ext. intros xt o.
    change (NearestRBFInterpolant.__call__ (Arr2 (ncols x) [xt]) diff None)
      with (NearestRBFInterpolant.call_unchunked (Arr2 (ncols x) [xt]) diff).
    rewrite (local_call_unchunked_value self v w (Arr2 (ncols x) [xt]) diff Hst Hdim).
    reflexivity.
Qed.

End FurtherEvaluation.

Section FurtherMasking.
Context {F : Type} {FF : Float64 F} {CC : Collaborators F}.
Import RBFInterpolant.

(** With extrapolation allowed the body of [__call__] evaluates the
    kernel and the monomials once, and stores the output. *)
Lemma evaluate_extrapolating self v s h lg x diff :
  stored self v (World s h lg) ->
  extrapolate self = true ->
  evaluate self x diff (World s h lg)
  = (World s (h ++ [CVec (map (unmasked self v diff) (rows x))])
       ((lg ++ [CallRBF]) ++ [CallMvmonos]),
     inr (map (unmasked self v diff) (rows x))).
Proof.
  intros (Hself & Hy & Hpwr & Ha & Hb) Hex. simpl in *.
  unfold evaluate.
  run. run. run. run. run. run. run.
  unfold vec_add, mat_dot. rewrite !map_map, zip_with_map_same.
  fold (unmasked self v diff).
  rewrite Hex. simpl. run.
  erewrite run_load_vec by solve_lookup. reflexivity.
Qed.

(** X6.  A global interpolant with extrapolation allowed never consults
    the hull: an evaluation without chunking calls the kernel and the
    monomials once each and nothing else (no triangulation), allocates
    only its output, and returns [K a + P b] at every target point; with
    a positive chunk size the same values are returned.  Such an
    evaluation cannot raise. *)
Theorem extrapolating_evaluation_never_masks :
  (forall self v s h lg x diff,
      stored self v (World s h lg) ->
      extrapolate self = true ->
      ncols x = ncols (c_y v) ->
      __call__ x diff None (World s h lg)
      = (World s (h ++ [CVec (map (unmasked self v diff) (rows x))])
           (lg ++ [CallRBF; CallMvmonos]),
         inr (map (unmasked self v diff) (rows x))))
  /\ (forall self v w x diff c,
        stored self v w ->
        extrapolate self = true ->
        ncols x = ncols (c_y v) ->
        0 < c ->
        (__call__ x diff (Some c) w).2 = inr (map (unmasked self v diff) (rows x))).
Proof.
  split.
  - intros self v s h lg x diff Hst Hex Hdim.
    pose proof Hst as (Hself & Hy & _). cbn in Hself, Hy. subst s.
    unfold __call__. run. run.
    unfold assert_shape. rewrite shape_matches_x, (proj2 (Nat.eqb_eq _ _) Hdim).
    run. rewrite (evaluate_extrapolating self v self h lg x diff Hst Hex).
    rewrite <- app_assoc. reflexivity.
  - intros self v w x diff c Hst Hex Hdim Hc.
    apply (global_chunked_complete self v); try assumption.
    unfold batch_value. rewrite Hex. reflexivity.
Qed.

Lemma map_const_replicate {A B} (b : B) (l : list A) :
  map (fun _ => b) l = replicate (length l) b.
Proof. induction l as [|a l IH]; cbn; [reflexivity|]. rewrite IH. reflexivity. Qed.

(** X7.  A global interpolant without extrapolation whose observation
    points are too few to span a simplex (at most [D] points in [D]
    dimensions) returns nan at every target point, wherever the targets
    are, without chunking or with a positive chunk size. *)
Theorem too_few_observations_mask_everything self v (w : world F t) x diff chunk_size :
  stored self v w ->
  extrapolate self = false ->
  ncols x = ncols (c_y v) ->
  (length (rows (c_y v)) <= ncols (c_y v))%nat ->
  chunk_size = None \/ (exists c, chunk_size = Some c /\ 0 < c) ->
  (__call__ x diff chunk_size w).2 = inr (replicate (length (rows x)) Fnan).
Proof.
  intros Hst Hex Hdim HN Hcs.
  rewrite (global_masked_value self v w x diff chunk_size (fun _ => false))
    by first [assumption
             | unfold hull_test; rewrite Hdim, (proj2 (Nat.leb_le _ _) HN); reflexivity].
  f_equal. apply map_const_replicate.
Qed.

End FurtherMasking.

(** ** The observation points on the line *)

Section HullOnTheLine.
Context {F O : Type} {FF : Float64 F} {CC : Collaborators F}.

(** In one dimension, over observation points that are numbers, the test
    of [_in_hull] is defined and accepts every observation point. *)
Lemma hull_test_accepts_observations (hull : array2 F) :
  ncols hull = 1%nat ->
  wf_array hull ->
  (2 <= length (rows hull))%nat ->
  Forall (fun a => Fisnan a = false /\ Fle a a = true) (concat (rows hull)) ->
  (forall a b c, a ∈ concat (rows hull) -> b ∈ concat (rows hull) ->
                 c ∈ concat (rows hull) ->
                 Fle a b = true -> Fle b c = true -> Fle a c = true) ->
  (forall a b, a ∈ concat (rows hull) -> b ∈ concat (rows hull) ->
               Fle a b = true \/ Fle b a = true) ->
  exists inside,
    hull_test 1 hull = inr inside
    /\ forall pt, pt ∈ rows hull -> inside pt = true.
Proof.
  intros Hdim Hwf HN Hnum Htrans Htotal.
  assert (Hentry : forall pt, pt ∈ rows hull ->
                     default F0 (head pt) ∈ concat (rows hull)).
  { intros pt Hpt.
    pose proof (proj1 (Forall_forall _ _) Hwf pt Hpt) as Hlen. rewrite Hdim in Hlen.
    destruct pt as [|a [|? ?]]; try discriminate Hlen. cbn.
    apply list_elem_of_In, in_concat. exists [a].
    split; [apply list_elem_of_In; exact Hpt|left; reflexivity]. }
  assert (Hne : concat (rows hull) <> []).
  { destruct (rows hull) as [|pt rest] eqn:Hrows; [cbn in HN; lia|].
    intros Hnil.
    assert (Hin : default F0 (head pt) ∈ concat (pt :: rest))
      by (apply Hentry; left).
    rewrite Hnil in Hin. apply elem_of_nil in Hin. exact Hin. }
  destruct (np_reduce_bounds (concat (rows hull)) Hnum Htrans Htotal
              (concat (rows hull)) Hne) as (lo & hi & Hlo & Hhi & Hbounds).
  { apply Forall_forall. auto. }
  unfold hull_test, np_min, np_max.
  rewrite (proj2 (Nat.leb_gt _ _)) by lia. cbn [Nat.leb].
  rewrite Hlo, Hhi.
  eexists. split; [reflexivity|].
  intros pt Hpt. cbn beta.
  destruct (proj1 (Forall_forall _ _) Hbounds _ (Hentry pt Hpt)) as [-> ->].
  reflexivity.
Qed.

(** X8.  In one dimension, when the observation points are numbers (no
    nan among them, so that [<=] orders them) and there are at least two
    of them, [_in_hull] reports every observation point inside; hence a
    global interpolant without extrapolation, evaluated at any of its own
    observation points without chunking or with a positive chunk size,
    masks nothing and returns [K a + P b] there. *)
Theorem observation_points_are_never_masked :
  forall self v (w : world F RBFInterpolant.t) x diff chunk_size,
    RBFInterpolant.stored self v w ->
    RBFInterpolant.extrapolate self = false ->
    ncols (RBFInterpolant.c_y v) = 1%nat ->
    wf_array (RBFInterpolant.c_y v) ->
    (2 <= length (rows (RBFInterpolant.c_y v)))%nat ->
    Forall (fun a => Fisnan a = false /\ Fle a a = true)
      (concat (rows (RBFInterpolant.c_y v))) ->
    (forall a b c,
        a ∈ concat (rows (RBFInterpolant.c_y v)) ->
        b ∈ concat (rows (RBFInterpolant.c_y v)) ->
        c ∈ concat (rows (RBFInterpolant.c_y v)) ->
        Fle a b = true -> Fle b c = true -> Fle a c = true) ->
    (forall a b,
        a ∈ concat (rows (RBFInterpolant.c_y v)) ->
        b ∈ concat (rows (RBFInterpolant.c_y v)) ->
        Fle a b = true \/ Fle b a = true) ->
    ncols x = 1%nat ->
    Forall (fun xt => xt ∈ rows (RBFInterpolant.c_y v)) (rows x) ->
    chunk_size = None \/ (exists c, chunk_size = Some c /\ 0 < c) ->
    _in_hull x (RBFInterpolant.c_y v) w
    = (w, inr (replicate (length (rows x)) true))
    /\ (RBFInterpolant.__call__ x diff chunk_size w).2
       = inr (map (RBFInterpolant.unmasked self v diff) (rows x)).
Proof.
  intros self v w x diff chunk_size Hst Hex Hdim Hwf HN Hnum Htrans Htotal Hx Hrows Hcs.
  destruct (hull_test_accepts_observations (RBFInterpolant.c_y v)
              Hdim Hwf HN Hnum Htrans Htotal) as (inside & Htest & Hinside).
  split.
  - destruct w as [s h lg]. rewrite run_in_hull. rewrite Hx, Htest.
    unfold hull_events. rewrite (proj2 (Nat.leb_gt _ _)) by lia. cbn [Nat.leb].
    rewrite app_nil_r. do 2 f_equal.
    induction Hrows as [|xt xs Hxt _ IH]; cbn; [reflexivity|].
    rewrite (Hinside xt Hxt), IH. reflexivity.
  - rewrite (global_masked_value self v w x diff chunk_size inside)
      by first [assumption | congruence | rewrite Hx; exact Htest].
    f_equal. induction Hrows as [|xt xs Hxt _ IH]; cbn; [reflexivity|].
    rewrite (Hinside xt Hxt), IH. reflexivity.
Qed.

End HullOnTheLine.

(** ** Construction of the global interpolant, past the check *)

Section GlobalConstruction.
Context {F O : Type} {FF : Float64 F} {CC : Collaborators F}.

(** [RBFInterpolant.__init__] on well-shaped arguments with enough
    observations: it calls the kernel, [powers], the monomials and the
    solver in this order, and stores what the solver returns. *)
Lemma global_init_run (s : O) h lg y d sigma eps phi order extrapolate rbf :
  length d = length (rows y) ->
  sigma_fits sigma (length (rows y)) ->
  get_rbf phi = inr rbf ->
  (length (powers order (ncols y)) <= length (rows y))%nat ->
  RBFInterpolant.__init__ y d sigma eps phi order extrapolate (World s h lg)
  = let heap := (h ++ [CMat y]) ++ [CPow (powers order (ncols y))] in
    let log := (((lg ++ [CallRBF]) ++ [CallPowers]) ++ [CallMvmonos])
               ++ [CallPartitionedSolver] in
    match system_of y d sigma eps rbf order with
    | inl e => (World s heap log, inl e)
    | inr coeff =>
        (World s ((heap ++ [CVec coeff.1]) ++ [CVec coeff.2]) log,
         inr (RBFInterpolant.Build (length h) rbf order eps
                (S (S (length h))) (S (S (S (length h)))) (S (length h))
                extrapolate))
    end.
Proof.
  intros Hd Hs Hphi HM.
  assert (Hl1 : length (h ++ [CMat y]) = S (length h))
    by (rewrite length_app; cbn; lia).
  assert (Hl2 : forall c, length ((h ++ [CMat y]) ++ [c]) = S (S (length h)))
    by (intros c; rewrite !length_app; cbn; lia).
  assert (Hl3 : forall c c', length (((h ++ [CMat y]) ++ [c]) ++ [c']) = S (S (S (length h))))
    by (intros c c'; rewrite !length_app; cbn; lia).
  unfold RBFInterpolant.__init__, assert_shape, system_of.
  run. rewrite shape_matches_any. run.
  rewrite shape_matches_len, (proj2 (Nat.eqb_eq _ _) Hd). run.
  destruct sigma as [sg|sg]; cbn in Hs; cbn [sigma_vector].
  - run. rewrite run_lift, Hphi. run. run. run.
    rewrite (proj2 (Nat.ltb_ge _ _) HM). run.
    unfold call_solve. rewrite bind_assoc. run. rewrite run_lift.
    unfold np_full.
    destruct (PartitionedSolver_solve _ _ _ _) as [e|[a b]]; [reflexivity|].
    run. run. cbn zeta. rewrite Hl1, Hl2, Hl3. reflexivity.
  - rewrite shape_matches_len, (proj2 (Nat.eqb_eq _ _) Hs).
    rewrite bind_assoc. run. run. rewrite run_lift, Hphi. run. run. run.
    rewrite (proj2 (Nat.ltb_ge _ _) HM). run.
    unfold call_solve. rewrite bind_assoc. run. rewrite run_lift.
    destruct (PartitionedSolver_solve _ _ _ _) as [e|[a b]]; [reflexivity|].
    run. run. cbn zeta. rewrite Hl1, Hl2, Hl3. reflexivity.
Qed.

(** X9.  When the solver fails on the saddle-point system, whatever its
    exception (a singular system for one), [RBFInterpolant.__init__]
    raises that same exception and returns no interpolant; the solver was
    the last collaborator called. *)
Theorem global_construction_propagates_solver_failure
    (w : world F O) y d sigma eps phi order extrapolate rbf e :
  length d = length (rows y) ->
  sigma_fits sigma (length (rows y)) ->
  get_rbf phi = inr rbf ->
  (length (powers order (ncols y)) <= length (rows y))%nat ->
  system_of y d sigma eps rbf order = inl e ->
  let run := RBFInterpolant.__init__ y d sigma eps phi order extrapolate w in
  run.2 = inl e
  /\ log_since w run.1 = [CallRBF; CallPowers; CallMvmonos; CallPartitionedSolver].
Proof.
  intros Hd Hs Hphi HM Hsys. destruct w as [s h lg]. cbn zeta.
  rewrite (global_init_run s h lg y d sigma eps phi order extrapolate rbf Hd Hs Hphi HM).
  cbn zeta. rewrite Hsys. unfold log_since. cbn [fst snd w_log].
  split; [reflexivity|].
  rewrite <- !app_assoc. apply drop_app_length.
Qed.

End GlobalConstruction.

Section GlobalConstructionThenEvaluation.
Context {F O : Type} {FF : Float64 F} {CC : Collaborators F}.

(** X10.  Construction followed by evaluation.  On well-shaped
    arguments with at least as many observations as monomials, when the
    solver returns [(a, b)] for the system made of [K(y, y) +
    diag(sigma^2)], [P(y)], [d] and zeros, [RBFInterpolant.__init__]
    returns an interpolant that stores [y], the exponents, [a] and [b],
    having called the kernel, [powers], the monomials and the solver once
    each in this order, and having left the arrays that existed before
    untouched.  Evaluating that interpolant with extrapolation allowed
    returns [K(x, y) a + P(x) b] at every target point. *)
Theorem global_construction_then_evaluation
    (s : O) h lg y d sigma eps phi order extrapolate rbf a b :
  length d = length (rows y) ->
  sigma_fits sigma (length (rows y)) ->
  get_rbf phi = inr rbf ->
  (length (powers order (ncols y)) <= length (rows y))%nat ->
  system_of y d sigma eps rbf order = inr (a, b) ->
  let run := RBFInterpolant.__init__ y d sigma eps phi order extrapolate (World s h lg) in
  exists self,
    run.2 = inr self
    /\ RBFInterpolant.phi self = rbf
    /\ RBFInterpolant.extrapolate self = extrapolate
    /\ RBFInterpolant.stored self
         (RBFInterpolant.Contents y (powers order (ncols y)) a b)
         (World self (w_heap run.1) (w_log run.1))
    /\ take (length h) (w_heap run.1) = h
    /\ log_since (World s h lg) run.1
       = [CallRBF; CallPowers; CallMvmonos; CallPartitionedSolver]
    /\ (extrapolate = true ->
        forall x diff chunk_size,
          ncols x = ncols y ->
          chunk_size = None \/ (exists c, chunk_size = Some c /\ 0 < c) ->
          (RBFInterpolant.__call__ x diff chunk_size
             (World self (w_heap run.1) (w_log run.1))).2
          = inr (map (fun xt =>
                        Fadd (sum_prod (rbf_row rbf eps diff (rows y) xt) a)
                             (sum_prod (mvmonos_row (powers order (ncols y)) diff xt) b))
                   (rows x))).
Proof.
  intros Hd Hs Hphi HM Hsys. cbn zeta.
  rewrite (global_init_run s h lg y d sigma eps phi order extrapolate rbf Hd Hs Hphi HM).
  cbn zeta. rewrite Hsys. cbn [fst snd w_heap w_log].
  eexists. split; [reflexivity|]. cbn [RBFInterpolant.phi RBFInterpolant.extrapolate].
  split; [reflexivity|]. split; [reflexivity|].
  assert (Hst : RBFInterpolant.stored
            (RBFInterpolant.Build (length h) rbf order eps
               (S (S (length h))) (S (S (S (length h)))) (S (length h)) extrapolate)
            (RBFInterpolant.Contents y (powers order (ncols y)) a b)
            (World (RBFInterpolant.Build (length h) rbf order eps
                      (S (S (length h))) (S (S (S (length h)))) (S (length h))
                      extrapolate)
               ((((h ++ [CMat y]) ++ [CPow (powers order (ncols y))]) ++ [CVec a])
                ++ [CVec b])
               ((((lg ++ [CallRBF]) ++ [CallPowers]) ++ [CallMvmonos])
                ++ [CallPartitionedSolver]))).
  { unfold RBFInterpolant.stored. cbn.
    split; [reflexivity|].
    repeat split;
      repeat first [ apply list_lookup_middle; rewrite ?length_app; cbn; lia
                   | apply lookup_app_l_Some ]. }
  split; [exact Hst|].
  split; [rewrite <- !app_assoc; apply take_app_length|].
  split; [unfold log_since; cbn; rewrite <- !app_assoc; apply drop_app_length|].
  intros -> x diff chunk_size Hx Hcs.
  destruct Hcs as [->|(c & -> & Hc)].
  - change (RBFInterpolant.__call__ x diff None)
      with (RBFInterpolant.call_unchunked x diff).
    rewrite (call_unchunked_value _ _ _ x diff Hst Hx). reflexivity.
  - apply (global_chunked_complete _ _ _ x diff c _ Hst Hx Hc). reflexivity.
Qed.

End GlobalConstructionThenEvaluation.

(** ** A tree that cannot answer *)

Section FailedQuery.
Context {F : Type} {FF : Float64 F} {CC : Collaborators F}.
Import NearestRBFInterpolant.

(** X11.  When the query of the tree fails, as it does when the tree
    holds fewer than [k] observations, the evaluation of the local
    interpolant raises the exception of the query: without chunking on
    every target set, the empty one included, after [powers] and the query
    have been called and before any kernel or solver call; and with a
    positive chunk size on every target set that is not empty. *)
Theorem failed_query_is_raised self v s h lg x diff e :
  stored self v (World s h lg) ->
  ncols x = ncols (c_y v) ->
  Z.of_nat (length (powers (order self) (ncols (c_y v)))) <= k self ->
  KDTree_query_check (tree self) (k self) = Some e ->
  __call__ x diff None (World s h lg)
  = (World s h (lg ++ [CallPowers; CallQuery]), inl e)
  /\ (forall c, 0 < c -> rows x <> [] ->
        (__call__ x diff (Some c) (World s h lg)).2 = inl e).
Proof.
  intros Hst Hdim Hk Hcheck. split.
  - pose proof Hst as (Hself & Hy & _). cbn in Hself, Hy. subst s.
    unfold __call__. run. run.
    unfold assert_shape. rewrite shape_matches_x, (proj2 (Nat.eqb_eq _ _) Hdim).
    run. unfold evaluate. run. run.
    rewrite (proj2 (Z.ltb_ge _ _) Hk).
    unfold call_query. rewrite Hcheck, bind_assoc. run.
    rewrite <- app_assoc. reflexivity.
  - intros c Hc Hx.
    destruct (py_range_chunks (length (rows x)) c Hc) as (n & Hrange & Hcover & _).
    destruct n as [|n].
    { destruct (rows x); [congruence|]. cbn in Hcover. lia. }
    rewrite (local_call_chunked_value self v _ x diff c _ Hst Hdim Hrange).
    rewrite chunk_starts_cons. cbn [chunk_fold].
    unfold batch_value at 1.
    rewrite (proj2 (Z.ltb_ge _ _) Hk), Hcheck. reflexivity.
Qed.

End FailedQuery.

(** ** Validation comes first *)

Section ValidationFirst.
Context {F O : Type} {FF : Float64 F} {CC : Collaborators F}.

(** X12.  The shape of the targets is checked before the chunking
    block: when the second extent of [x] is not the dimension of the
    observation points, both interpolants raise the shape error for [x]
    with every chunk size (none, positive, zero or negative), before the
    output is allocated and before any collaborator is called. *)
Theorem misshaped_targets_raise_before_chunking :
  (forall self v s h lg x diff chunk_size,
      RBFInterpolant.stored self v (World s h lg) ->
      ncols x <> ncols (RBFInterpolant.c_y v) ->
      RBFInterpolant.__call__ x diff chunk_size (World s h lg)
      = (World s h lg, inl (ShapeMismatchError "x")))
  /\ (forall self v s h lg x diff chunk_size,
        NearestRBFInterpolant.stored self v (World s h lg) ->
        ncols x <> ncols (NearestRBFInterpolant.c_y v) ->
        NearestRBFInterpolant.__call__ x diff chunk_size (World s h lg)
        = (World s h lg, inl (ShapeMismatchError "x"))).
Proof.
  split; intros self v s h lg x diff chunk_size Hst Hdim;
    pose proof Hst as (Hself & Hy & _); cbn in Hself, Hy; subst s.
  - unfold RBFInterpolant.__call__. run. run.
    unfold assert_shape. rewrite shape_matches_x, (proj2 (Nat.eqb_neq _ _) Hdim).
    reflexivity.
  - unfold NearestRBFInterpolant.__call__. run. run.
    unfold assert_shape. rewrite shape_matches_x, (proj2 (Nat.eqb_neq _ _) Hdim).
    reflexivity.
Qed.

(** X13.  Both constructors check the lengths of [d] and of an array
    [sigma] against the number of observations before the kernel is
    looked up: a mismatch raises the shape error that names the argument,
    [d] first, and no collaborator has been called, whatever the kernel,
    the order and the other arguments are. *)
Theorem misshaped_observations_raise_before_any_call :
  (forall (w : world F O) y d sigma eps phi order extrapolate,
      let run := RBFInterpolant.__init__ y d sigma eps phi order extrapolate w in
      (length d <> length (rows y) ->
       run.2 = inl (ShapeMismatchError "d") /\ log_since w run.1 = [])
      /\ (length d = length (rows y) ->
          forall sg, sigma = SigmaArray sg -> length sg <> length (rows y) ->
          run.2 = inl (ShapeMismatchError "sigma") /\ log_since w run.1 = []))
  /\ (forall (w : world F O) y d sigma k eps phi order,
        let run := NearestRBFInterpolant.__init__ y d sigma k eps phi order w in
        (length d <> length (rows y) ->
         run.2 = inl (ShapeMismatchError "d") /\ log_since w run.1 = [])
        /\ (length d = length (rows y) ->
            forall sg, sigma = SigmaArray sg -> length sg <> length (rows y) ->
            run.2 = inl (ShapeMismatchError "sigma") /\ log_since w run.1 = [])).
Proof.
  split.
  - intros [s h lg] y d sigma eps phi order extrapolate run. subst run. split.
    + intros Hd. unfold RBFInterpolant.__init__, assert_shape, log_since.
      run. rewrite shape_matches_any. run.
      rewrite shape_matches_len, (proj2 (Nat.eqb_neq _ _) Hd). cbn.
      split; [reflexivity|apply drop_all].
    + intros Hd sg -> Hs. unfold RBFInterpolant.__init__, assert_shape, log_since.
      run. rewrite shape_matches_any. run.
      rewrite shape_matches_len, (proj2 (Nat.eqb_eq _ _) Hd). run.
      rewrite shape_matches_len, (proj2 (Nat.eqb_neq _ _) Hs). cbn.
      split; [reflexivity|apply drop_all].
  - intros [s h lg] y d sigma k eps phi order run. subst run. split.
    + intros Hd. unfold NearestRBFInterpolant.__init__, assert_shape, log_since.
      run. rewrite shape_matches_any. run. run.
      rewrite shape_matches_len, (proj2 (Nat.eqb_neq _ _) Hd). cbn.
      split; [reflexivity|apply drop_all].
    + intros Hd sg -> Hs. unfold NearestRBFInterpolant.__init__, assert_shape, log_since.
      run. rewrite shape_matches_any. run. run.
      rewrite shape_matches_len, (proj2 (Nat.eqb_eq _ _) Hd). run.
      rewrite shape_matches_len, (proj2 (Nat.eqb_neq _ _) Hs). cbn.
      split; [reflexivity|apply drop_all].
Qed.

End ValidationFirst.

(** ** [expand_rows] of the example script *)

Section ExpandRows.
Context {F : Type} {FF : Float64 F}.
Import FdB.

Lemma mapE_pick_lookup {A} (idx : list A) (l : list nat) moved :
  mapE (pick idx) l = inr moved ->
  Forall2 (fun r i => idx !! r = Some i) l moved.
Proof.
  revert moved. induction l as [|r l IH]; intros moved; cbn.
  - intros [= <-]. constructor.
  - unfold pick at 1. destruct (idx !! r) as [i|] eqn:Hr; [|discriminate].
    destruct (mapE (pick idx) l) as [e|rest]; [discriminate|].
    intros [= <-]. constructor; [exact Hr|]. apply IH. reflexivity.
Qed.

Lemma lookup_mapE_pick {A} (idx : list A) (l : list nat) moved :
  Forall2 (fun r i => idx !! r = Some i) l moved ->
  mapE (pick idx) l = inr moved.
Proof.
  induction 1 as [|r i l moved Hr _ IH]; cbn; [reflexivity|].
  unfold pick at 1. rewrite Hr, IH. reflexivity.
Qed.

Lemma existsb_false_Forall {A} (p : A -> bool) (l : list A) :
  existsb p l = false <-> Forall (fun a => p a = false) l.
Proof.
  induction l as [|a l IH]; cbn.
  - split; [constructor|reflexivity].
  - rewrite orb_false_iff, IH. split.
    + intros [Ha Hl]. constructor; assumption.
    + intros H. inversion H. auto.
Qed.

Lemma forallb_Forall {A} (p : A -> bool) (l : list A) :
  forallb p l = true <-> Forall (fun a => p a = true) l.
Proof.
  induction l as [|a l IH]; cbn.
  - split; [constructor|reflexivity].
  - rewrite andb_true_iff, IH. split.
    + intros [Ha Hl]. constructor; assumption.
    + intros H. inversion H. auto.
Qed.

Lemma fits_int64_range (z : Z) : fits_int64 z = true <-> - 2 ^ 63 <= z < 2 ^ 63.
Proof. unfold fits_int64. rewrite andb_true_iff, Z.leb_le, Z.ltb_lt. reflexivity. Qed.

(** *** What the map holds after the entries have been added *)

Lemma onto_Some (s : F) (vs : list F) : onto (Some s) vs = Some (foldl Fadd s vs).
Proof. revert s. induction vs as [|v vs IH]; intros s; cbn; [reflexivity|apply IH]. Qed.

Lemma onto_None (vs : list F) : onto None vs = total vs.
Proof. destruct vs as [|v vs]; cbn; [reflexivity|apply onto_Some]. Qed.

Lemma lookup_add_entries (es : list (nat * nat * F)) :
  forall (m : gmap (nat * nat) F) (p : nat * nat),
    foldl add_entry m es !! p
    = onto (m !! p) (map snd (filter (fun e => e.1 = p) es)).
Proof.
  induction es as [|[q v] es IH]; intros m p; cbn [foldl]; [reflexivity|].
  rewrite IH. rewrite filter_cons. cbn [fst].
  unfold add_entry. cbn [fst snd].
  destruct (decide (q = p)) as [->|Hne].
  - rewrite lookup_insert_eq. cbn [map snd onto foldl]. reflexivity.
  - rewrite lookup_insert_ne by exact Hne. reflexivity.
Qed.

Lemma size_add_entries (es : list (nat * nat * F)) :
  forall m : gmap (nat * nat) F,
    (size (foldl add_entry m es) <= size m + length es)%nat.
Proof.
  induction es as [|e es IH]; intros m; cbn [foldl length]; [lia|].
  etrans; [apply IH|].
  unfold add_entry. rewrite map_size_insert.
  destruct (m !! e.1); cbn; lia.
Qed.

(** *** What a run that returns has checked *)

Lemma expand_rows_inr (A : coo F) idx n out :
  expand_rows A idx n = inr out ->
  exists moved,
    Forall (fun i => fits_int64 i = true) idx
    /\ Forall2 (fun r i => idx !! r = Some i /\ 0 <= i < n) (row A) moved
    /\ 0 <= n < 2 ^ 63
    /\ length (row A) = length (data A)
    /\ length (col A) = length (data A)
    /\ Forall (fun c => (c < (shape A).2)%nat) (col A)
    /\ out = Csc (Z.to_nat n, (shape A).2)
               (foldl add_entry ∅ (zip (zip (map Z.to_nat moved) (col A)) (data A))).
Proof.
  unfold expand_rows, np_asarray_int, csc_matrix. cbn [fst snd].
  destruct (forallb fits_int64 idx) eqn:Hfits; [|discriminate].
  apply forallb_Forall in Hfits.
  destruct (mapE (pick idx) (row A)) as [e|moved] eqn:Hmoved; [discriminate|].
  apply mapE_pick_lookup in Hmoved.
  pose proof (Forall2_length _ _ _ Hmoved) as Hlen.
  destruct (Z.ltb_spec n 0) as [?|Hn]; [discriminate|].
  destruct (fits_int64 (n `max` Z.of_nat (shape A).2)) eqn:Hmax; [|discriminate].
  apply fits_int64_range in Hmax. cbn [negb].
  destruct (Nat.eqb_spec (length moved) (length (data A))) as [Hr|?]; [|discriminate].
  destruct (Nat.eqb_spec (length (col A)) (length (data A))) as [Hc|?]; [|discriminate].
  cbn [andb negb].
  destruct (existsb (fun r => n <=? r) moved) eqn:Hhi; [discriminate|].
  destruct (existsb (fun c => ((shape A).2 <=? c)%nat) (col A)) eqn:Hcol; [discriminate|].
  destruct (existsb (fun r => r <? 0) moved) eqn:Hlo; [discriminate|].
  intros [= <-]. exists moved.
  apply existsb_false_Forall in Hhi, Hcol, Hlo.
  split; [exact Hfits|]. split; [|split; [lia|split; [congruence|split; [exact Hc|]]]].
  - clear -Hmoved Hhi Hlo.
    induction Hmoved as [|r i l moved Hr _ IH]; [constructor|].
    inversion Hhi as [|? ? Hi1 Hhi']; subst. inversion Hlo as [|? ? Hi2 Hlo']; subst.
    constructor; [|apply IH; assumption].
    split; [exact Hr|]. apply Z.leb_gt in Hi1. apply Z.ltb_ge in Hi2. lia.
  - split; [|reflexivity].
    eapply Forall_impl; [exact Hcol|]. cbn. intros c Hc'. apply Nat.leb_gt in Hc'. exact Hc'.
Qed.

(** The entries that land on a position, read off the moved rows. *)
Lemma landing_moved (idx : list Z) (i j : nat) rowA moved :
  Forall2 (fun r i' => idx !! r = Some i' /\ 0 <= i') rowA moved ->
  forall (colA : list nat) (dataA : list F),
    map snd (filter (fun e => e.1 = (i, j))
               (zip (zip (map Z.to_nat moved) colA) dataA))
    = map snd (filter (fun e => idx !! e.1.1 = Some (Z.of_nat i) /\ e.1.2 = j)
                 (zip (zip rowA colA) dataA)).
Proof.
  induction 1 as [|r1 i1 l moved [Hr1 Hi1] _ IH]; intros colA dataA; [reflexivity|].
  destruct colA as [|c1 colA]; [reflexivity|].
  destruct dataA as [|v1 dataA]; [reflexivity|].
  cbn [map zip zip_with]. rewrite !filter_cons. cbn [fst snd].
  destruct (decide ((Z.to_nat i1, c1) = (i, j))) as [Heq|Hne];
    destruct (decide (idx !! r1 = Some (Z.of_nat i) /\ c1 = j)) as [Heq'|Hne'];
    cbn [map]; rewrite (IH colA dataA); try reflexivity.
  - exfalso. apply Hne'. injection Heq as <- <-. split; [|reflexivity].
    rewrite Hr1. f_equal. lia.
  - exfalso. apply Hne. destruct Heq' as [Hr ->]. rewrite Hr in Hr1.
    injection Hr1 as <-. f_equal. lia.
Qed.

(** X14.  [expand_rows(A, idx, n)], when it returns, gives a matrix
    with [n] rows and the columns of [A].  Its entry at [(i, j)] is the sum
    of the entries of [A] in the column [j] whose row has the target [i] in
    [idx], added in the order in which [A] gives them, and nothing is
    stored where no entry lands: so it stores at most as many entries as
    [A] gives, all of them inside its shape.  In particular, a row [r]
    whose target [idx[r]] no other row of [A] shares is moved to the row
    [idx[r]], and a row that is the target of no row of [A] is empty. *)
Theorem expand_rows_moves_rows (A : coo F) (idx : list Z) (n : Z) out :
  expand_rows A idx n = inr out ->
  csc_shape out = (Z.to_nat n, (shape A).2)
  /\ (forall i j, stored out !! (i, j) = total (landing A idx i j))
  /\ (size (stored out) <= length (data A))%nat
  /\ (forall i j v, stored out !! (i, j) = Some v ->
                    (i < (csc_shape out).1)%nat /\ (j < (csc_shape out).2)%nat)
  /\ (forall r i j,
        idx !! r = Some (Z.of_nat i) ->
        (forall r', r' ∈ row A -> idx !! r' = Some (Z.of_nat i) -> r' = r) ->
        stored out !! (i, j) = total (stored_at A r j))
  /\ (forall i j,
        (forall r, r ∈ row A -> idx !! r <> Some (Z.of_nat i)) ->
        stored out !! (i, j) = None).
Proof.
  intros Hrun.
  destruct (expand_rows_inr A idx n out Hrun)
    as (moved & _ & Hmoved & Hn & Hrow & Hcol & Hcols & ->).
  cbn [csc_shape stored fst snd].
  assert (Hnonneg : Forall2 (fun r i' => idx !! r = Some i' /\ 0 <= i') (row A) moved).
  { eapply Forall2_impl; [exact Hmoved|]. cbn. intros r i' [Hr Hi]. split; [exact Hr|lia]. }
  assert (Hat : forall i j,
             foldl add_entry ∅ (zip (zip (map Z.to_nat moved) (col A)) (data A)) !! (i, j)
             = total (landing A idx i j)).
  { intros i j. rewrite lookup_add_entries, lookup_empty, onto_None.
    unfold landing, entries. f_equal. apply landing_moved. exact Hnonneg. }
  assert (Hin : forall i j, landing A idx i j <> [] ->
             exists r, r ∈ row A /\ idx !! r = Some (Z.of_nat i) /\ j ∈ col A).
  { intros i j. unfold landing, entries.
    generalize (col A) (data A). clear.
    induction (row A) as [|r rows IH]; intros cols vals Hne;
      [destruct Hne; reflexivity|].
    destruct cols as [|c cols]; [destruct Hne; reflexivity|].
    destruct vals as [|v vals]; [destruct Hne; reflexivity|].
    cbn [zip zip_with] in Hne. rewrite filter_cons in Hne. cbn [fst snd] in Hne.
    destruct (decide (idx !! r = Some (Z.of_nat i) /\ c = j)) as [[Hr ->]|_].
    - exists r. split; [left|]. split; [exact Hr|left].
    - destruct (IH cols vals Hne) as (r' & Hr' & Hi & Hj).
      exists r'. split; [right; exact Hr'|]. split; [exact Hi|right; exact Hj]. }
  split; [reflexivity|]. split; [exact Hat|]. split; [|split; [|split]].
  - etrans; [apply size_add_entries|]. rewrite map_size_empty. cbn.
    rewrite !length_zip_with, length_map. lia.
  - intros i j v Hv. rewrite Hat in Hv.
    destruct (Hin i j) as (r & Hr & Hi & Hj).
    { intros Hnil. rewrite Hnil in Hv. discriminate. }
    split.
    + clear -Hmoved Hr Hi.
      induction Hmoved as [|r1 i1 l moved [Hr1 Hi1] _ IH].
      * apply elem_of_nil in Hr. destruct Hr.
      * apply elem_of_cons in Hr as [->|Hr]; [|apply IH; exact Hr].
        rewrite Hi in Hr1. injection Hr1 as <-. lia.
    + apply (proj1 (Forall_forall _ _) Hcols j Hj).
  - intros r i j Hr Hinj. rewrite Hat. f_equal.
    unfold landing, stored_at, entries.
    generalize (col A) (data A). revert Hinj. clear -Hr.
    induction (row A) as [|r1 rows IH]; intros Hinj cols vals; [reflexivity|].
    destruct cols as [|c cols]; [reflexivity|].
    destruct vals as [|v vals]; [reflexivity|].
    cbn [zip zip_with]. rewrite !filter_cons. cbn [fst snd].
    assert (Hrest : forall r', r' ∈ rows -> idx !! r' = Some (Z.of_nat i) -> r' = r)
      by (intros r' Hr'; apply Hinj; right; exact Hr').
    destruct (decide (idx !! r1 = Some (Z.of_nat i) /\ c = j)) as [Hyes|Hne];
      destruct (decide ((r1, c) = (r, j))) as [Heq|Hne']; cbn [map];
      rewrite (IH Hrest cols vals); try reflexivity.
    + exfalso. apply Hne'. destruct Hyes as [Hr1 ->].
      rewrite (Hinj r1 ltac:(left) Hr1). reflexivity.
    + exfalso. apply Hne. injection Heq as -> ->. split; [exact Hr|reflexivity].
  - intros i j Hnone. rewrite Hat.
    destruct (landing A idx i j) as [|v vs] eqn:Hland; [reflexivity|].
    destruct (Hin i j) as (r & Hr & Hi & _); [rewrite Hland; discriminate|].
    destruct (Hnone r Hr Hi).
Qed.

(** X15.  When [expand_rows(A, idx, n)] returns and when it raises.  An
    entry of [idx] that does not fit the 64-bit integer type raises
    [OverflowError] before anything else is looked at.  Otherwise a stored
    row of [A] without an entry in [idx] raises [IndexError].  On a valid
    [A], the call returns exactly when every entry of [idx] fits the
    integer type, [n] is a non-negative number that fits it, and every
    stored row of [A] has its target in [idx], inside [0, n); the entries
    of [idx] for the rows that [A] does not store need only fit.  When
    [idx] fits and holds a target for every stored row of a valid [A], and
    [n] is below [2^63], every exception raised is a [ValueError]. *)
Theorem expand_rows_returns_iff (A : coo F) (idx : list Z) (n : Z) :
  (Exists (fun i => ~ (- 2 ^ 63 <= i < 2 ^ 63)) idx ->
   exists msg, expand_rows A idx n = inl (OverflowError msg))
  /\ (Forall (fun i => - 2 ^ 63 <= i < 2 ^ 63) idx ->
      Exists (fun r => (length idx <= r)%nat) (row A) ->
      exists msg, expand_rows A idx n = inl (IndexError msg))
  /\ (valid A ->
      (exists out, expand_rows A idx n = inr out)
      <-> Forall (fun i => - 2 ^ 63 <= i < 2 ^ 63) idx
          /\ 0 <= n < 2 ^ 63
          /\ Forall (fun r => exists i, idx !! r = Some i /\ 0 <= i < n) (row A))
  /\ (valid A ->
      Forall (fun i => - 2 ^ 63 <= i < 2 ^ 63) idx ->
      Forall (fun r => (r < length idx)%nat) (row A) ->
      n < 2 ^ 63 ->
      forall e, expand_rows A idx n = inl e -> exists msg, e = ValueError msg).
Proof.
  assert (Hconv : Forall (fun i => - 2 ^ 63 <= i < 2 ^ 63) idx ->
                  np_asarray_int idx = inr idx).
  { intros Hfits. unfold np_asarray_int.
    rewrite (proj2 (forallb_Forall fits_int64 idx)); [reflexivity|].
    eapply Forall_impl; [exact Hfits|]. cbn. intros i Hi. apply fits_int64_range, Hi. }
  split; [|split; [|split]].
  - intros Hex. unfold expand_rows, np_asarray_int.
    destruct (forallb fits_int64 idx) eqn:Hfits; [|eauto].
    exfalso. apply forallb_Forall in Hfits.
    apply Exists_exists in Hex. destruct Hex as (i & Hi & Hout).
    apply Hout, fits_int64_range. apply (proj1 (Forall_forall _ _) Hfits i Hi).
  - intros Hfits Hex. unfold expand_rows. rewrite (Hconv Hfits).
    assert (Hfail : exists msg, mapE (pick idx) (row A) = inl (IndexError msg)).
    { clear -Hex. induction Hex as [r l Hr|r l _ IH]; cbn.
      - unfold pick at 1. rewrite (lookup_ge_None_2 idx r Hr). eauto.
      - unfold pick at 1. destruct (idx !! r); [|eauto].
        destruct IH as (msg & ->). eauto. }
    destruct Hfail as (msg & ->). eauto.
  - intros (Hrow & Hcol & _ & Hcols & Hwide). split.
    + intros (out & Hrun).
      destruct (expand_rows_inr A idx n out Hrun) as (moved & Hfits & Hmoved & Hn & _).
      split; [|split; [exact Hn|]].
      * eapply Forall_impl; [exact Hfits|]. cbn. intros i Hi. apply fits_int64_range, Hi.
      * clear -Hmoved. induction Hmoved as [|r i l moved Hr _ IH]; constructor; eauto.
    + intros (Hfits & Hn & Hall).
      assert (Hmoved : exists moved,
                 Forall2 (fun r i => idx !! r = Some i) (row A) moved
                 /\ Forall (fun i => 0 <= i < n) moved).
      { clear -Hall. induction Hall as [|r l (i & Hr & Hi) _ (moved & IH1 & IH2)].
        - exists []. split; constructor.
        - exists (i :: moved). split; constructor; assumption. }
      destruct Hmoved as (moved & Hmoved & Hrange).
      unfold expand_rows, csc_matrix. rewrite (Hconv Hfits). cbn [fst snd].
      rewrite (lookup_mapE_pick idx (row A) moved Hmoved).
      rewrite (proj2 (Z.ltb_ge _ _)) by lia.
      rewrite (proj2 (fits_int64_range _)) by lia. cbn [negb].
      rewrite <- (Forall2_length _ _ _ Hmoved), Hrow, Hcol, !Nat.eqb_refl. cbn [andb negb].
      rewrite (proj2 (existsb_false_Forall _ moved)).
      2:{ eapply Forall_impl; [exact Hrange|]. cbn. intros i Hi. apply Z.leb_gt. lia. }
      rewrite (proj2 (existsb_false_Forall _ (col A))).
      2:{ eapply Forall_impl; [exact Hcols|]. cbn. intros c Hc. apply Nat.leb_gt. exact Hc. }
      rewrite (proj2 (existsb_false_Forall _ moved)).
      2:{ eapply Forall_impl; [exact Hrange|]. cbn. intros i Hi. apply Z.ltb_ge. lia. }
      eauto.
  - intros (_ & _ & _ & _ & Hwide) Hfits Hall Hn e.
    unfold expand_rows, csc_matrix. rewrite (Hconv Hfits). cbn [fst snd].
    assert (Hmoved : exists moved, mapE (pick idx) (row A) = inr moved).
    { clear -Hall. induction Hall as [|r l Hr _ (moved & IH)]; cbn; [eauto|].
      unfold pick at 1. destruct (lookup_lt_is_Some_2 idx r Hr) as (i & ->).
      rewrite IH. eauto. }
    destruct Hmoved as (moved & ->).
    destruct (Z.ltb_spec n 0) as [?|Hn0]; [intros [= <-]; eauto|].
    rewrite (proj2 (fits_int64_range _)) by lia. cbn [negb].
    repeat match goal with
           | |- (if ?b then _ else _) = _ -> _ => destruct b
           end; intros [= <-]; eauto.
Qed.

End ExpandRows.

Section FurtherWitnesses.
Import Reference Runs.
Local Open Scope float_scope.

Example single_world_constructed :
  run_from_scratch (RBFInterpolant.__init__ y0 [5] (SigmaScalar 0)
                      (EpsScalar 1) (inl "phs3"%string) 0 false)
  = (World tt (w_heap single_world) (w_log single_world), inr single_self).
Proof. vm_compute. reflexivity. Qed.

Lemma extrapolating_world_stored :
  RBFInterpolant.stored extrapolating_self global_contents extrapolating_world.
Proof. repeat split. Defined.

Lemma single_world_stored :
  RBFInterpolant.stored single_self single_contents single_world.
Proof. repeat split. Defined.

Lemma chunks_partition_targets_witness :
  exists starts,
    py_range 0 5 2 = inr starts
    /\ concat (map (fun start => py_slice [10; 11; 12; 13; 14]%Z (Some start)
                                   (Some (start + 2)%Z)) starts)
       = [10; 11; 12; 13; 14]%Z
    /\ Forall (fun start =>
                 let chunk := py_slice [10; 11; 12; 13; 14]%Z (Some start)
                                (Some (start + 2)%Z) in
                 chunk <> [] /\ (length chunk <= 2)%nat)
         starts.
Proof.
  apply (chunks_partition_targets [10; 11; 12; 13; 14]%Z 2%Z). lia.
Defined.

Lemma zero_chunk_size_raises_witness :
  (RBFInterpolant.__call__ (Arr2 1 [[0.5]; [1.5]]) None (Some 0%Z) global_world).2
  = inl (ValueError "range() arg 3 must not be zero")
  /\ (NearestRBFInterpolant.__call__ (Arr2 1 []) None (Some 0%Z) (local_world 3)).2
     = inl (ValueError "range() arg 3 must not be zero").
Proof.
  split.
  - exact (f_equal snd
             (proj1 (zero_chunk_size_raises (CC := collaborators))
                global_self global_contents global_self global_heap _
                (Arr2 1 [[0.5]; [1.5]]) None global_world_stored eq_refl)).
  - exact (f_equal snd
             (proj2 (zero_chunk_size_raises (CC := collaborators))
                (local_self 3) local_contents (local_self 3) local_heap _
                (Arr2 1 []) None (local_world_stored 3) eq_refl)).
Defined.

Lemma output_has_one_entry_per_target_witness :
  length [0.5; 1; 1.5] = length (rows (Arr2 1 [[0.5]; [1]; [1.5]]))
  /\ length [0.5; 1.5] = length (rows (Arr2 1 [[0.5]; [1.5]])).
Proof.
  split.
  - refine (proj1 (output_has_one_entry_per_target (CC := collaborators))
              global_self global_contents global_world
              (Arr2 1 [[0.5]; [1]; [1.5]]) None (Some 2%Z) [0.5; 1; 1.5]
              global_world_stored eq_refl _).
    vm_compute. reflexivity.
  - refine (proj2 (output_has_one_entry_per_target (CC := collaborators))
              (local_self 3) local_contents (local_world 3)
              (Arr2 1 [[0.5]; [1.5]]) None None [0.5; 1.5]
              (local_world_stored 3) eq_refl _).
    vm_compute. reflexivity.
Defined.

Lemma covering_chunk_size_is_one_batch_witness :
  (RBFInterpolant.__call__ (Arr2 1 [[-5]; [1]; [1.5]]) None (Some 3%Z) global_world).2
  = (RBFInterpolant.__call__ (Arr2 1 [[-5]; [1]; [1.5]]) None None global_world).2
  /\ (NearestRBFInterpolant.__call__ (Arr2 1 [[0.5]; [1.5]]) None (Some 100%Z)
        (local_world 1)).2
     = (NearestRBFInterpolant.__call__ (Arr2 1 [[0.5]; [1.5]]) None None
          (local_world 1)).2.
Proof.
  split.
  - refine (proj1 (covering_chunk_size_is_one_batch (CC := collaborators))
              global_self global_contents global_world
              (Arr2 1 [[-5]; [1]; [1.5]]) None 3%Z global_world_stored eq_refl _ _).
    + discriminate.
    + cbn. lia.
  - refine (proj2 (covering_chunk_size_is_one_batch (CC := collaborators))
              (local_self 1) local_contents (local_world 1)
              (Arr2 1 [[0.5]; [1.5]]) None 100%Z (local_world_stored 1) eq_refl _ _).
    + discriminate.
    + cbn. lia.
Defined.

Lemma batch_returns_iff_each_target_does_witness :
  Forall2 (fun xt o =>
             (RBFInterpolant.__call__ (Arr2 1 [xt]) None None global_world).2 = inr [o])
    [[-5]; [1]; [1.5]] [PrimFloat.nan; 1; 1.5]
  /\ (NearestRBFInterpolant.__call__ (Arr2 1 [[0.5]; [1.5]]) None None
        (local_world 3)).2 = inr [0.5; 1.5].
Proof.
  split.
  - refine (proj1 (proj1 (batch_returns_iff_each_target_does (CC := collaborators))
                     global_self global_contents global_world
                     (Arr2 1 [[-5]; [1]; [1.5]]) None [PrimFloat.nan; 1; 1.5]
                     global_world_stored eq_refl _) _).
    + discriminate.
    + vm_compute. reflexivity.
  - refine (proj2 (proj2 (batch_returns_iff_each_target_does (CC := collaborators))
                     (local_self 3) local_contents (local_world 3)
                     (Arr2 1 [[0.5]; [1.5]]) None [0.5; 1.5]
                     (local_world_stored 3) eq_refl _) _).
    + discriminate.
    + repeat constructor.
Defined.

Lemma extrapolating_evaluation_never_masks_witness :
  RBFInterpolant.__call__ (Arr2 1 [[-5]; [7]]) None None extrapolating_world
  = (World extrapolating_self (global_heap ++ [CVec [-5; 7]])
       (w_log global_world ++ [CallRBF; CallMvmonos]),
     inr [-5; 7])
  /\ (RBFInterpolant.__call__ (Arr2 1 [[-5]; [7]]) None (Some 1%Z)
        extrapolating_world).2 = inr [-5; 7].
Proof.
  split.
  - exact (proj1 (extrapolating_evaluation_never_masks (CC := collaborators))
             extrapolating_self global_contents extrapolating_self global_heap
             (w_log global_world) (Arr2 1 [[-5]; [7]]) None
             extrapolating_world_stored eq_refl eq_refl).
  - refine (proj2 (extrapolating_evaluation_never_masks (CC := collaborators))
              extrapolating_self global_contents extrapolating_world
              (Arr2 1 [[-5]; [7]]) None 1%Z
              extrapolating_world_stored eq_refl eq_refl _).
    lia.
Defined.

Lemma too_few_observations_mask_everything_witness :
  (RBFInterpolant.__call__ (Arr2 1 [[0]; [1]]) None (Some 1000%Z) single_world).2
  = inr [PrimFloat.nan; PrimFloat.nan].
Proof.
  refine (too_few_observations_mask_everything (CC := collaborators)
            single_self single_contents single_world (Arr2 1 [[0]; [1]]) None
            (Some 1000%Z) single_world_stored eq_refl eq_refl _ _).
  - cbn. lia.
  - right. exists 1000%Z. split; [reflexivity|lia].
Defined.

Lemma observation_points_are_never_masked_witness :
  _in_hull (CC := collaborators) y012 y012 global_world
  = (global_world, inr [true; true; true])
  /\ (RBFInterpolant.__call__ y012 None None global_world).2
     = inr (map (RBFInterpolant.unmasked global_self global_contents None) (rows y012)).
Proof.
  refine (observation_points_are_never_masked (CC := collaborators)
            global_self global_contents global_world y012 None None
            global_world_stored eq_refl eq_refl _ _ _ _ _ eq_refl _ _).
  - repeat constructor.
  - cbn. lia.
  - repeat constructor.
  - intros a b c Ha Hb Hc.
    repeat (apply elem_of_cons in Ha as [->|Ha]);
      try (apply elem_of_nil in Ha; destruct Ha);
      repeat (apply elem_of_cons in Hb as [->|Hb]);
      try (apply elem_of_nil in Hb; destruct Hb);
      repeat (apply elem_of_cons in Hc as [->|Hc]);
      try (apply elem_of_nil in Hc; destruct Hc);
      intros H1 H2;
      first [ reflexivity
            | vm_compute in H1; discriminate H1
            | vm_compute in H2; discriminate H2 ].
  - intros a b Ha Hb.
    repeat (apply elem_of_cons in Ha as [->|Ha]);
      try (apply elem_of_nil in Ha; destruct Ha);
      repeat (apply elem_of_cons in Hb as [->|Hb]);
      try (apply elem_of_nil in Hb; destruct Hb);
      first [ left; reflexivity | right; reflexivity ].
  - repeat constructor.
  - left. reflexivity.
Defined.

Lemma global_construction_propagates_solver_failure_witness :
  (run_from_scratch
     (RBFInterpolant.__init__ y00 d00 (SigmaScalar 0) (EpsScalar 1)
        (inl "phs3"%string) 0 true)).2
  = inl (LinAlgError "Singular matrix").
Proof.
  refine (proj1 (global_construction_propagates_solver_failure (CC := collaborators)
                   (World tt [] []) y00 d00 (SigmaScalar 0) (EpsScalar 1)
                   (inl "phs3"%string) 0%Z true phs3 (LinAlgError "Singular matrix")
                   eq_refl Logic.I eq_refl _ _)).
  - vm_compute. lia.
  - vm_compute. reflexivity.
Defined.

Lemma global_construction_then_evaluation_witness :
  (run_from_scratch
     (RBFInterpolant.__init__ y012 d012 (SigmaScalar 0) (EpsScalar 1)
        (inl "phs3"%string) 1 true)).2 = inr extrapolating_self
  /\ (RBFInterpolant.__call__ (Arr2 1 [[-5]; [0.5]]) None None extrapolating_world).2
     = inr [-5; 0.5].
Proof.
  destruct (global_construction_then_evaluation (CC := collaborators)
              tt [] [] y012 d012 (SigmaScalar 0) (EpsScalar 1)
              (inl "phs3"%string) 1%Z true phs3 [0; 0; 0] [0; 1]
              eq_refl Logic.I eq_refl)
    as (self & Hself & _ & _ & _ & _ & _ & Hcall).
  - vm_compute. lia.
  - vm_compute. reflexivity.
  - assert (Hs : self = extrapolating_self).
    { pose proof Hself as H. vm_compute in H. injection H as H. symmetry. exact H. }
    subst self. split; [exact Hself|].
    exact (Hcall eq_refl (Arr2 1 [[-5]; [0.5]]) None None eq_refl (or_introl eq_refl)).
Defined.

Lemma failed_query_is_raised_witness :
  NearestRBFInterpolant.__call__ (Arr2 1 [[0.5]]) None None (local_world 5)
  = (World (local_self 5) local_heap ([CallKDTree] ++ [CallPowers; CallQuery]),
     inl (ValueError "cannot find more neighbours than there are points"))
  /\ (NearestRBFInterpolant.__call__ (Arr2 1 [[0.5]]) None (Some 100%Z)
        (local_world 5)).2
     = inl (ValueError "cannot find more neighbours than there are points").
Proof.
  destruct (failed_query_is_raised (CC := collaborators)
              (local_self 5) local_contents (local_self 5) local_heap [CallKDTree]
              (Arr2 1 [[0.5]]) None
              (ValueError "cannot find more neighbours than there are points")
              (local_world_stored 5) eq_refl) as [Hnone Hchunked].
  - vm_compute. discriminate.
  - reflexivity.
  - split; [exact Hnone|]. apply Hchunked; [lia|discriminate].
Defined.

Lemma misshaped_targets_raise_before_chunking_witness :
  RBFInterpolant.__call__ (Arr2 2 [[0; 0]]) None (Some 0%Z) global_world
  = (global_world, inl (ShapeMismatchError "x"))
  /\ NearestRBFInterpolant.__call__ (Arr2 2 [[0; 0]]) None (Some (-1)%Z) (local_world 3)
     = (local_world 3, inl (ShapeMismatchError "x")).
Proof.
  split.
  - refine (proj1 (misshaped_targets_raise_before_chunking (CC := collaborators))
              global_self global_contents global_self global_heap _
              (Arr2 2 [[0; 0]]) None (Some 0%Z) global_world_stored _).
    discriminate.
  - refine (proj2 (misshaped_targets_raise_before_chunking (CC := collaborators))
              (local_self 3) local_contents (local_self 3) local_heap _
              (Arr2 2 [[0; 0]]) None (Some (-1)%Z) (local_world_stored 3) _).
    discriminate.
Defined.

Lemma misshaped_observations_raise_before_any_call_witness :
  (run_from_scratch
     (RBFInterpolant.__init__ y012 [1; 2] (SigmaScalar 0) (EpsScalar 1)
        (inl "no such kernel"%string) 5 true)).2
  = inl (ShapeMismatchError "d")
  /\ (run_from_scratch
        (NearestRBFInterpolant.__init__ y012 d012 (SigmaArray [0]) 20 (EpsScalar 1)
           (inl "spwen12"%string) 1)).2
     = inl (ShapeMismatchError "sigma").
Proof.
  split.
  - refine (proj1 (proj1 (proj1 (misshaped_observations_raise_before_any_call
                                   (CC := collaborators))
                            (World tt [] []) y012 [1; 2] (SigmaScalar 0) (EpsScalar 1)
                            (inl "no such kernel"%string) 5%Z true) _)).
    discriminate.
  - refine (proj1 (proj2 (proj2 (misshaped_observations_raise_before_any_call
                                   (CC := collaborators))
                            (World tt [] []) y012 d012 (SigmaArray [0]) 20%Z
                            (EpsScalar 1) (inl "spwen12"%string) 1%Z)
                     eq_refl [0] eq_refl _)).
    discriminate.
Defined.

Lemma expand_rows_moves_rows_witness :
  exists out,
    FdB.expand_rows corner12 [2; 0]%Z 3 = inr out
    /\ FdB.csc_shape out = (3%nat, 2%nat)
    /\ FdB.stored out !! (2%nat, 0%nat) = Some 3
    /\ FdB.stored out !! (0%nat, 1%nat) = Some 4
    /\ FdB.stored out !! (1%nat, 0%nat) = None
    /\ (size (FdB.stored out) <= 3)%nat.
Proof.
  destruct (FdB.expand_rows corner12 [2; 0]%Z 3) as [e|out] eqn:Hrun;
    [vm_compute in Hrun; discriminate Hrun|].
  exists out. split; [reflexivity|].
  destruct (expand_rows_moves_rows corner12 [2; 0]%Z 3%Z out Hrun)
    as (Hshape & Hat & Hsize & _ & _ & Hempty).
  split; [exact Hshape|].
  split; [rewrite Hat; reflexivity|].
  split; [rewrite Hat; reflexivity|].
  split; [|exact Hsize].
  apply Hempty. intros r Hr.
  repeat (apply elem_of_cons in Hr as [->|Hr]); try discriminate.
  apply elem_of_nil in Hr. destruct Hr.
Defined.

Lemma expand_rows_returns_iff_witness :
  (exists msg, FdB.expand_rows corner12 [2; 0; 2 ^ 70]%Z 3 = inl (OverflowError msg))
  /\ (exists msg, FdB.expand_rows corner12 [2]%Z 3 = inl (IndexError msg))
  /\ (exists out, FdB.expand_rows corner12 [2; 0]%Z 3 = inr out)
  /\ ~ (exists out, FdB.expand_rows corner12 [2; 3]%Z 3 = inr out).
Proof.
  assert (Hvalid : FdB.valid corner12).
  { repeat split; try (repeat constructor); cbn; lia. }
  split; [|split; [|split]].
  - apply (proj1 (expand_rows_returns_iff corner12 [2; 0; 2 ^ 70]%Z 3%Z)).
    do 2 apply Exists_cons_tl. apply Exists_cons_hd. lia.
  - apply (proj1 (proj2 (expand_rows_returns_iff corner12 [2]%Z 3%Z))).
    + repeat constructor; lia.
    + apply Exists_cons_tl, Exists_cons_hd. cbn. lia.
  - apply (proj2 (proj1 (proj2 (proj2 (expand_rows_returns_iff corner12 [2; 0]%Z 3%Z)))
                    Hvalid)).
    split; [repeat constructor; lia|]. split; [lia|].
    repeat constructor; eexists; (split; [reflexivity|lia]).
  - intros Hout.
    apply (proj1 (proj1 (proj2 (proj2 (expand_rows_returns_iff corner12 [2; 3]%Z 3%Z)))
                    Hvalid)) in Hout.
    destruct Hout as (_ & _ & Hall).
    inversion Hall as [|? ? _ Hrest]; subst.
    inversion Hrest as [|? ? (i & Hi & Hrange) _]; subst.
    injection Hi as <-. lia.
Defined.

End FurtherWitnesses.
